(** * STS control flow: a shallow embedding of [sts/control_flow.py] and
    [sts/entities.py]

    The development follows the Python sources class by class.  Python
    integers are [Z], floats that are only compared are rationals ([Q]),
    [collections.Counter] is a [gmap] into [Z] with the default-zero read,
    exceptions are an explicit [outcome], and every call on a collaborator
    (simulation, patch panel, topology, controllers, input logger) is
    recorded in a trace of [action]s next to its effect on the simulation
    state.  The operator's console input is a list of lines; what is
    printed on the console is left out. *)

From Stdlib Require Import ZArith QArith Lia List.
From stdpp Require Import base gmap strings list fin_maps sorting.

Close Scope Q_scope.
Local Open Scope Z_scope.

(** ** Python exceptions raised by the modelled code *)

Inductive exn : Type :=
| AttributeError   (* attribute lookup on an object that lacks it *)
| TypeError        (* calling [None] *)
| ValueError       (* unsupported deterministic value *)
| ZeroDivisionError
| StopIteration    (* [next()] on an exhausted generator *)
| AssertionError
| EOFError         (* [raw_input] at end of input *)
| IOError.

Inductive outcome (A : Type) : Type :=
| Ok (a : A)
| Raise (e : exn).
Arguments Ok {A} a.
Arguments Raise {A} e.

(** ** [sts.syncproto.base.SyncTime]

    The class itself is outside the sources at hand; the code builds it as
    [SyncTime(seconds, microSeconds)] and reads both fields.  It is a named
    tuple and compares as tuples do: lexicographically. *)

Record SyncTime : Type := mkSyncTime { seconds : Z; microSeconds : Z }.

Definition SyncTime_ltb (a b : SyncTime) : bool :=
  (seconds a <? seconds b) ||
  ((seconds a =? seconds b) && (microSeconds a <? microSeconds b)).

Definition SyncTime_leb (a b : SyncTime) : bool :=
  (seconds a <? seconds b) ||
  ((seconds a =? seconds b) && (microSeconds a <=? microSeconds b)).

Definition SyncTime_lt (a b : SyncTime) : Prop := SyncTime_ltb a b = true.
Definition SyncTime_le (a b : SyncTime) : Prop := SyncTime_leb a b = true.

#[global] Instance SyncTime_eq_dec : EqDecision SyncTime.
Proof. solve_decision. Defined.

#[global] Instance SyncTime_countable : Countable SyncTime.
Proof.
  refine (inj_countable' (fun t => (seconds t, microSeconds t))
                         (fun p => mkSyncTime p.1 p.2) _).
  by intros [].
Defined.

(** ** [sts.event.PendingStateChange]

    Built in [ReplaySyncCallback.state_change] from the controller's uuid
    and the four remaining arguments; used as a (hashable) dictionary key. *)

Record PendingStateChange : Type := mkPendingStateChange {
  psc_controller_id : string;
  psc_time : SyncTime;
  psc_fingerprint : string;
  psc_name : string;
  psc_value : string
}.

#[global] Instance PendingStateChange_eq_dec : EqDecision PendingStateChange.
Proof. solve_decision. Defined.

#[global] Instance PendingStateChange_countable : Countable PendingStateChange.
Proof.
  refine (inj_countable'
    (fun p => (psc_controller_id p, psc_time p, psc_fingerprint p,
               psc_name p, psc_value p))
    (fun t => match t with
              | (c, t, f, n, v) => mkPendingStateChange c t f n v
              end) _).
  by intros [].
Defined.

(** ** [ReplaySyncCallback] (control_flow.py, lines 458-490) *)

Module ReplaySyncCallback.

(** [self.pending_state_changes = Counter()] *)
Abbreviation Counter := (gmap PendingStateChange Z).

(** [Counter.__getitem__]: a missing key reads as [0] and is not inserted. *)
Definition getitem (c : Counter) (k : PendingStateChange) : Z :=
  default 0 (c !! k).

(** The controller object, of which the callback reads the [uuid]. *)
Record ControllerRef : Type := { uuid : string }.

Definition state_change_pending (c : Counter) (p : PendingStateChange) : bool :=
  0 <? getitem c p.

(** [c[p] -= 1; if c[p] <= 0: del c[p]] *)
Definition gc_pending_state_change (c : Counter) (p : PendingStateChange)
  : Counter :=
  let c1 := <[p := getitem c p - 1]> c in
  if getitem c1 p <=? 0 then delete p c1 else c1.

(** [c[PendingStateChange(controller.uuid, time, fingerprint, name, value)] += 1] *)
Definition state_change (c : Counter) (controller : ControllerRef)
    (time : SyncTime) (fingerprint name value : string) : Counter :=
  let pending_state_change :=
    mkPendingStateChange (uuid controller) time fingerprint name value in
  <[pending_state_change := getitem c pending_state_change + 1]> c.

(** [get_deterministic_value]: only ["gettimeofday"] is supported; it reads
    the bound [get_interpolated_time]. *)
Definition get_deterministic_value (get_interpolated_time : SyncTime)
    (name : string) : outcome SyncTime :=
  if decide (name = "gettimeofday"%string) then Ok get_interpolated_time
  else Raise ValueError.

(** Calls arriving at the callback, for reasoning about call sequences. *)
Inductive call : Type :=
| StateChange (controller : ControllerRef) (time : SyncTime)
              (fingerprint name value : string)
| Gc (p : PendingStateChange).

Definition key_of (controller : ControllerRef) (time : SyncTime)
    (fingerprint name value : string) : PendingStateChange :=
  mkPendingStateChange (uuid controller) time fingerprint name value.

Definition step (c : Counter) (x : call) : Counter :=
  match x with
  | StateChange ctl t f n v => state_change c ctl t f n v
  | Gc p => gc_pending_state_change c p
  end.

Definition run (calls : list call) (c : Counter) : Counter :=
  foldl step c calls.

(** How many of the calls report, respectively collect, the key [p]. *)
Definition reports (p : PendingStateChange) (x : call) : bool :=
  match x with
  | StateChange ctl t f n v => bool_decide (key_of ctl t f n v = p)
  | Gc _ => false
  end.

Definition collects (p : PendingStateChange) (x : call) : bool :=
  match x with
  | StateChange _ _ _ _ _ => false
  | Gc q => bool_decide (q = p)
  end.

Definition count (f : call -> bool) (calls : list call) : nat :=
  length (filter (fun x => f x = true) calls).

(** The invariant of the storage: no key with a count of zero or less. *)
Definition positive_counts (c : Counter) : Prop :=
  map_Forall (fun _ v => 0 < v) c.

End ReplaySyncCallback.

(** ** The entities the control flows handle

    [sts/entities.py] and the classes it extends are reduced to what
    [control_flow.py] reads from them.  Identity of switches, links and
    controllers (Python's hash and equality, used by the [set]s of a round)
    is a decidable equality. *)

Class Entities : Type := {
  DpEvent : Type;
  Fingerprint : Type;                 (* result of [fingerprint.to_dict()] *)
  Switch : Type;
  Connection : Type;
  Port : Type;
  Link : Type;
  Host : Type;
  Controller : Type;
  PendingReceive : Type;
  Seed : Type;
  Switch_eq_dec :: EqDecision Switch;
  Link_eq_dec :: EqDecision Link;
  Controller_eq_dec :: EqDecision Controller;
  dp_fingerprint : DpEvent -> Fingerprint;
  dpid : Switch -> Z;
  (* [software_switch.port]: [FuzzSoftwareSwitch] defines no such attribute;
     whether a parent class does is left to the instance. *)
  port : Switch -> option Port;
  port_no : Port -> Z;
  get_controller_id : Connection -> string;
  start_software_switch : Link -> Switch;
  end_software_switch : Link -> Switch;
  interfaces : Host -> nat;           (* [len(host.interfaces)] *)
  controller_uuid : Controller -> string;
  receipt_fingerprint : PendingReceive -> Fingerprint;
  receipt_dpid : PendingReceive -> Z;
  receipt_controller_id : PendingReceive -> string
}.

Section Actions.
Context {ent : Entities}.

(** Records passed to [input_logger.log_input_event(klass=..., ...)]. *)
Inductive input_event : Type :=
| TrafficInjection (dp_event : DpEvent)
| DataplaneDrop (fingerprint : Fingerprint)
| DataplanePermit (fingerprint : Fingerprint)
| ControlChannelBlock (switch_dpid : Z) (controller_id : string)
| ControlChannelUnBlock (switch_dpid : Z) (controller_id : string)
| ControlMessageReceive (fingerprint : Fingerprint) (switch_dpid : Z)
                        (controller_id : string)
| SwitchFailure (switch_dpid : Z)
| SwitchRecovery (switch_dpid : Z)
| LinkFailure (start_dpid start_port_no end_dpid end_port_no : Z)
| LinkRecovery (start_dpid start_port_no end_dpid end_port_no : Z)
| ControllerCrash (uuid : string)
| ControllerRecovery (uuid : string)
| ControllerStateChange (controller_id : string) (time : SyncTime)
                        (fingerprint name value : string).

(** Calls on the collaborators, in the order the control flow makes them. *)
Inductive action : Type :=
| Bootstrap
| DelayDpEvent (e : DpEvent)
| DropDpEvent (e : DpEvent)
| PermitDpEvent (e : DpEvent)
| BlockConnection (c : Connection)
| UnblockConnection (c : Connection)
| Schedule (r : PendingReceive)
| CrashSwitch (s : Switch)
| RecoverSwitch (s : Switch)
| SeverLink (l : Link)
| RepairLink (l : Link)
| Generate (traffic_type : string) (h : Host)
| Kill (c : Controller)
| Start (c : Controller)
| CheckCorrespondence
| EchoRequest (s : Switch)
| CheckLoops
| CheckBlackholes
| CheckRoutingConsistency
| CheckConnectivity
| InjectTraceEvent
| Sleep (d : Q)
| LogInputEvent (r : input_event)
| LoggerClose.

End Actions.

(** ** The simulation and the random source, as the control flows use them

    [Sim] is the state of the [Simulation] object (topology, patch panel,
    god scheduler, controller manager, dataplane trace); the accessors are
    the properties the code reads, and [sim_step] is the effect of a call,
    which may raise (a buffer handle that is gone, a process that cannot
    be started).  An attribute that is iterated is read once, when its
    loop starts. *)

Class SimulationModel {ent : Entities} : Type := {
  Sim : Type;
  RngState : Type;
  Random : Seed -> RngState;                     (* [random.Random(seed)] *)
  random_random : RngState -> Q * RngState;      (* [self.random.random()] *)
  patch_panel_is_buffered : Sim -> bool;
  queued_dataplane_events : Sim -> list DpEvent;
  ok_to_send : Sim -> DpEvent -> bool;
  unblocked_controller_connections : Sim -> list (Switch * Connection);
  blocked_controller_connections : Sim -> list (Switch * Connection);
  pending_receives : Sim -> list PendingReceive;
  live_switches : Sim -> list Switch;
  failed_switches : Sim -> list Switch;
  live_links : Sim -> list Link;
  cut_links : Sim -> list Link;
  hosts : Sim -> list Host;
  live_controllers : Sim -> list Controller;
  down_controllers : Sim -> list Controller;
  dataplane_trace : Sim -> bool;                 (* truth value of the attribute *)
  next_trace_event : Sim -> DpEvent;             (* what [inject_trace_event] returns *)
  (* [TrafficGenerator(self.random).generate]: shares the fuzzer's generator *)
  generate : string -> Host -> RngState -> Sim -> DpEvent * RngState;
  (* how many 2-second joins the correspondence thread outlives *)
  correspondence_polls : Sim -> nat;
  sim_step : action -> Sim -> outcome unit * Sim
}.

Section Monad.
Context {ent : Entities} {model : SimulationModel}.

Record world : Type := mkWorld {
  w_simulation : Sim;
  w_random : RngState;
  w_logical_time : Z;
  w_stdin : list string;
  w_trace : list action
}.

Definition M (A : Type) : Type := world -> outcome A * world.

#[export] Instance M_ret : MRet M := fun A a w => (Ok a, w).

#[export] Instance M_bind : MBind M := fun A B k m w =>
  match m w with
  | (Ok a, w') => k a w'
  | (Raise e, w') => (Raise e, w')
  end.

Definition raise {A} (e : exn) : M A := fun w => (Raise e, w).

(** [try: body finally: final] *)
Definition try_finally {A} (body : M A) (final : M unit) : M A := fun w =>
  let '(r, w') := body w in
  match final w' with
  | (Ok _, w'') => (r, w'')
  | (Raise e, w'') => (Raise e, w'')
  end.

(** A call on the simulation: recorded, then applied. *)
Definition call (a : action) : M unit := fun w =>
  let '(r, simulation) := sim_step a (w_simulation w) in
  (r, mkWorld simulation (w_random w)
              (w_logical_time w) (w_stdin w) (w_trace w ++ [a])).

(** A call that leaves the simulation alone (logger, [time.sleep]). *)
Definition emit (a : action) : M unit := fun w =>
  (Ok tt, mkWorld (w_simulation w) (w_random w)
                  (w_logical_time w) (w_stdin w) (w_trace w ++ [a])).

Definition ask {A} (f : Sim -> A) : M A := fun w => (Ok (f (w_simulation w)), w).

Definition random : M Q := fun w =>
  let '(r, g) := random_random (w_random w) in
  (Ok r, mkWorld (w_simulation w) g (w_logical_time w) (w_stdin w) (w_trace w)).

Definition get_logical_time : M Z := fun w => (Ok (w_logical_time w), w).

Definition set_logical_time (t : Z) : M unit := fun w =>
  (Ok tt, mkWorld (w_simulation w) (w_random w) t (w_stdin w) (w_trace w)).

(** [msg.raw_input(prompt)]: the next line of the operator's input. *)
Definition raw_input : M string := fun w =>
  match w_stdin w with
  | [] => (Raise EOFError, w)
  | line :: rest =>
      (Ok line, mkWorld (w_simulation w) (w_random w) (w_logical_time w)
                        rest (w_trace w))
  end.

(** [for x in xs: body(x)] *)
Fixpoint for_each {X} (xs : list X) (body : X -> M unit) : M unit :=
  match xs with
  | [] => mret tt
  | x :: xs' => body x ;; for_each xs' body
  end.

(** A [for] loop that fills a local [set]. *)
Fixpoint for_fold {X S} (xs : list X) (acc : S) (body : X -> S -> M S) : M S :=
  match xs with
  | [] => mret acc
  | x :: xs' => acc' ← body x acc; for_fold xs' acc' body
  end.

(** Reading the current state, for a loop bound taken from it. *)
Definition with_world {A} (f : world -> M A) : M A := fun w => f w w.

(** [x < y] on Python floats *)
Definition Qltb (x y : Q) : bool := negb (Qle_bool y x).

End Monad.

(** ** Traces: what is observed of a run *)

Section Traces.
Context {ent : Entities} {model : SimulationModel}.

(** The records written to the input logger, in order. *)
Definition logged (t : list action) : list input_event :=
  omap (fun a => match a with LogInputEvent r => Some r | _ => None end) t.

Definition is_sleep (a : action) : bool :=
  match a with Sleep _ => true | _ => false end.

(** A trace without its [time.sleep] calls. *)
Definition no_sleep (t : list action) : list action :=
  filter (fun a => is_sleep a = false) t.

(** The checks of a fuzzer round, as the spec lists them. *)
Inductive check : Type :=
| Dataplane
| ControlChannel
| MessageReceipts
| SwitchFailures
| LinkFailures
| ControllerFailures
| Traffic
| Periodic.

(** The check a call belongs to.  A [TrafficInjection] record is written
    both by the traffic check and by the periodic trace injection, so it is
    left unclassified; so are bootstrap, sleep and the logger's close. *)
Definition check_of (a : action) : option check :=
  match a with
  | DelayDpEvent _ | DropDpEvent _ | PermitDpEvent _
  | LogInputEvent (DataplaneDrop _) | LogInputEvent (DataplanePermit _) =>
      Some Dataplane
  | BlockConnection _ | UnblockConnection _
  | LogInputEvent (ControlChannelBlock _ _)
  | LogInputEvent (ControlChannelUnBlock _ _) =>
      Some ControlChannel
  | Schedule _ | LogInputEvent (ControlMessageReceive _ _ _) =>
      Some MessageReceipts
  | CrashSwitch _ | RecoverSwitch _
  | LogInputEvent (SwitchFailure _) | LogInputEvent (SwitchRecovery _) =>
      Some SwitchFailures
  | SeverLink _ | RepairLink _
  | LogInputEvent (LinkFailure _ _ _ _) | LogInputEvent (LinkRecovery _ _ _ _) =>
      Some LinkFailures
  | Kill _ | Start _
  | LogInputEvent (ControllerCrash _) | LogInputEvent (ControllerRecovery _) =>
      Some ControllerFailures
  | Generate _ _ => Some Traffic
  | CheckCorrespondence | EchoRequest _ | InjectTraceEvent => Some Periodic
  | _ => None
  end.

Definition classified (t : list action) : list check := omap check_of t.

(** The order of the checks according to the spec (section 5), and the
    order in which [trigger_events] and [loop] make them. *)
Definition spec_order (c : check) : nat :=
  match c with
  | Dataplane => 0 | ControlChannel => 1 | MessageReceipts => 2
  | SwitchFailures => 3 | LinkFailures => 4 | ControllerFailures => 5
  | Traffic => 6 | Periodic => 7
  end.

Definition code_order (c : check) : nat :=
  match c with
  | Dataplane => 0 | ControlChannel => 1 | MessageReceipts => 2
  | SwitchFailures => 3 | LinkFailures => 4 | Traffic => 5
  | ControllerFailures => 6 | Periodic => 7
  end.

Definition in_order (rank : check -> nat) (t : list action) : Prop :=
  StronglySorted (fun c1 c2 => (rank c1 <= rank c2)%nat) (classified t).

(** All classified calls of [t] belong to checks ranked in [lo..hi]. *)
Definition within (rank : check -> nat) (lo hi : nat) (t : list action) : Prop :=
  Forall (fun c => (lo <= rank c <= hi)%nat) (classified t).

(** A call made by the check [k]: of that check if it is classified,
    and neither the logger's close nor a sleep. *)
Definition check_call (k : check) (a : action) : Prop :=
  match check_of a with Some c => c = k | None => True end /\
  a <> LoggerClose /\ is_sleep a = false.

(** A call made inside the [try] of a loop: anything but the close. *)
Definition body_call (a : action) : Prop := a <> LoggerClose.

(** [m] takes every state to one related to it by [R]. *)
Definition preserves {A} (R : world -> world -> Prop) (m : M A) : Prop :=
  forall w, R w (m w).2.

(** The run added the calls [t], all satisfying [P], consumed a prefix of
    the input, and left the round counter alone. *)
Definition evolves (P : action -> Prop) (w w' : world) : Prop :=
  (exists t, w_trace w' = w_trace w ++ t /\ Forall P t) /\
  w_logical_time w' = w_logical_time w /\
  w_stdin w' `suffix_of` w_stdin w.

(** The run added calls in the order [rank], of checks ranked [lo..hi]. *)
Definition staged (rank : check -> nat) (lo hi : nat) (w w' : world) : Prop :=
  exists t, w_trace w' = w_trace w ++ t /\ in_order rank t /\ within rank lo hi t.

(** Two states that differ at most in the [time.sleep] calls recorded. *)
Definition same_but_sleep (w1 w2 : world) : Prop :=
  w_simulation w1 = w_simulation w2 /\
  w_random w1 = w_random w2 /\
  w_logical_time w1 = w_logical_time w2 /\
  w_stdin w1 = w_stdin w2 /\
  no_sleep (w_trace w1) = no_sleep (w_trace w2).

(** Two computations that agree, sleep apart, on states that do. *)
Definition respects {A} (m1 m2 : M A) : Prop :=
  forall w1 w2, same_but_sleep w1 w2 ->
    (m1 w1).1 = (m2 w2).1 /\ same_but_sleep (m1 w1).2 (m2 w2).2.

End Traces.

(** ** The fuzzer parameter module ([config.fuzzer_params])

    The module is imported by name in [_load_fuzzer_params]; the rates the
    fuzzer reads from it are compared with [random()]. *)

Record FuzzerParams : Type := {
  dataplane_delay_rate : Q;
  dataplane_drop_rate : Q;
  controlplane_block_rate : Q;
  controlplane_unblock_rate : Q;
  ofp_message_receipt_rate : Q;
  switch_failure_rate : Q;
  switch_recovery_rate : Q;
  link_failure_rate : Q;
  link_recovery_rate : Q;
  traffic_generation_rate : Q;
  controller_crash_rate : Q;
  controller_recovery_rate : Q
}.

(** [sys.maxint] of a 64-bit CPython 2 *)
Definition sys_maxint : Z := 2 ^ 63 - 1.

(** ** [Fuzzer] (control_flow.py, lines 110-329) *)

Module Fuzzer.
Section Fuzzer.
Context {ent : Entities} {model : SimulationModel}.

(** The attributes [__init__] sets and no method changes.  [self.random],
    [self.logical_time] and [self.simulation] live in the [world]. *)
Record t : Type := {
  check_interval : Z;
  trace_interval : Z;
  seed : Seed;
  delay : Q;
  steps : option Z;
  params : FuzzerParams;
  _input_logger : bool;        (* [input_logger is not None] *)
  invariant_checker : bool     (* set by [set_invariant_checker] *)
}.

(** [_load_fuzzer_params]: [None] stands for a module that cannot be
    imported. *)
Definition _load_fuzzer_params (fuzzer_params : option FuzzerParams)
  : outcome FuzzerParams :=
  match fuzzer_params with
  | Some p => Ok p
  | None => Raise IOError
  end.

Definition init (fuzzer_params : option FuzzerParams)
    (check_interval trace_interval : Z) (random_seed : Seed) (delay : Q)
    (steps : option Z) (input_logger : bool) : outcome t :=
  match _load_fuzzer_params fuzzer_params with
  | Ok p => Ok {| check_interval := check_interval;
                  trace_interval := trace_interval;
                  seed := random_seed;
                  delay := delay;
                  steps := steps;
                  params := p;
                  _input_logger := input_logger;
                  invariant_checker := false |}
  | Raise e => Raise e
  end.

Definition set_invariant_checker (self : t) : t :=
  {| check_interval := check_interval self;
     trace_interval := trace_interval self;
     seed := seed self;
     delay := delay self;
     steps := steps self;
     params := params self;
     _input_logger := _input_logger self;
     invariant_checker := true |}.

(** The state right after [__init__], once [simulate] stores the simulation:
    [self.random = random.Random(self.seed)], [self.logical_time = 0]. *)
Definition initial_world (self : t) (simulation : Sim) : world :=
  mkWorld simulation (Random (seed self)) 0 [] [].

Definition _log_input_event (self : t) (r : input_event) : M unit :=
  if _input_logger self then emit (LogInputEvent r) else mret tt.

(** [self.topology]: neither [Fuzzer] nor [ControlFlow] ever assigns this
    attribute (the topology is [self.simulation.topology]). *)
Definition self_topology (self : t) : M unit := raise AttributeError.

Definition check_dataplane (self : t) : M unit :=
  events ← ask queued_dataplane_events;
  for_each events (fun dp_event =>
    r ← random;
    if Qltb r (dataplane_delay_rate (params self)) then
      call (DelayDpEvent dp_event)
    else
      r' ← random;
      if Qltb r' (dataplane_drop_rate (params self)) then
        call (DropDpEvent dp_event) ;;
        _log_input_event self (DataplaneDrop (dp_fingerprint dp_event))
      else
        ok ← ask (fun s => ok_to_send s dp_event);
        if ok : bool then
          call (PermitDpEvent dp_event) ;;
          _log_input_event self (DataplanePermit (dp_fingerprint dp_event))
        else mret tt).

Definition check_tcp_connections (self : t) : M unit :=
  unblocked ← ask unblocked_controller_connections;
  for_each unblocked (fun '(switch, connection) =>
    r ← random;
    if Qltb r (controlplane_block_rate (params self)) then
      self_topology self ;;
      call (BlockConnection connection) ;;
      _log_input_event self
        (ControlChannelBlock (dpid switch) (get_controller_id connection))
    else mret tt) ;;
  blocked ← ask blocked_controller_connections;
  for_each blocked (fun '(switch, connection) =>
    r ← random;
    if Qltb r (controlplane_unblock_rate (params self)) then
      self_topology self ;;
      call (UnblockConnection connection) ;;
      _log_input_event self
        (ControlChannelUnBlock (dpid switch) (get_controller_id connection))
    else mret tt).

Definition check_message_receipts (self : t) : M unit :=
  receipts ← ask pending_receives;
  for_each receipts (fun pending_receipt =>
    r ← random;
    if Qltb r (ofp_message_receipt_rate (params self)) then
      call (Schedule pending_receipt) ;;
      _log_input_event self
        (ControlMessageReceive (receipt_fingerprint pending_receipt)
                               (receipt_dpid pending_receipt)
                               (receipt_controller_id pending_receipt))
    else mret tt).

Definition crash_switches (self : t) : M (list Switch) :=
  live ← ask live_switches;
  for_fold live [] (fun software_switch crashed_this_round =>
    r ← random;
    if Qltb r (switch_failure_rate (params self)) then
      call (CrashSwitch software_switch) ;;
      _log_input_event self (SwitchFailure (dpid software_switch)) ;;
      mret (software_switch :: crashed_this_round)
    else mret crashed_this_round).

Definition restart_switches (self : t) (crashed_this_round : list Switch)
  : M unit :=
  failed ← ask failed_switches;
  for_each failed (fun software_switch =>
    if bool_decide (software_switch ∈ crashed_this_round) then mret tt
    else
      r ← random;
      if Qltb r (switch_recovery_rate (params self)) then
        call (RecoverSwitch software_switch) ;;
        _log_input_event self (SwitchRecovery (dpid software_switch))
      else mret tt).

(** The keyword arguments of the link records, evaluated left to right:
    [link.start_software_switch.dpid],
    [link.start_software_switch.port.port_no], and the same at the end. *)
Definition link_endpoints (link : Link) : M (Z * Z * Z * Z) :=
  match port (start_software_switch link) with
  | None => raise AttributeError
  | Some start_port =>
      match port (end_software_switch link) with
      | None => raise AttributeError
      | Some end_port =>
          mret (dpid (start_software_switch link), port_no start_port,
                dpid (end_software_switch link), port_no end_port)
      end
  end.

Definition sever_links (self : t) : M (list Link) :=
  live ← ask live_links;
  for_fold live [] (fun link cut_this_round =>
    r ← random;
    if Qltb r (link_failure_rate (params self)) then
      call (SeverLink link) ;;
      '(sd, sp, ed, ep) ← link_endpoints link;
      _log_input_event self (LinkFailure sd sp ed ep) ;;
      mret (link :: cut_this_round)
    else mret cut_this_round).

Definition repair_links (self : t) (cut_this_round : list Link) : M unit :=
  cut ← ask cut_links;
  for_each cut (fun link =>
    if bool_decide (link ∈ cut_this_round) then mret tt
    else
      r ← random;
      if Qltb r (link_recovery_rate (params self)) then
        call (RepairLink link) ;;
        '(sd, sp, ed, ep) ← link_endpoints link;
        _log_input_event self (LinkRecovery sd sp ed ep)
      else mret tt).

Definition check_switch_crashes (self : t) : M unit :=
  crashed_this_round ← crash_switches self;
  restart_switches self crashed_this_round ;;
  cut_this_round ← sever_links self;
  repair_links self cut_this_round.

(** [self.traffic_generator.generate(traffic_type, host)]: the generator
    was built on [self.random] and draws from it. *)
Definition traffic_generator_generate (traffic_type : string) (host : Host)
  : M DpEvent := fun w =>
  let '(dp_event, g) :=
    generate traffic_type host (w_random w) (w_simulation w) in
  let '(r, simulation) :=
    sim_step (Generate traffic_type host) (w_simulation w) in
  (match r with Ok _ => Ok dp_event | Raise e => Raise e end,
   mkWorld simulation g (w_logical_time w) (w_stdin w)
           (w_trace w ++ [Generate traffic_type host])).

Definition fuzz_traffic (self : t) : M unit :=
  has_trace ← ask dataplane_trace;
  if has_trace : bool then mret tt
  else
    hs ← ask hosts;
    for_each hs (fun host =>
      r ← random;
      if Qltb r (traffic_generation_rate (params self)) then
        if (0 <? interfaces host)%nat then
          dp_event ← traffic_generator_generate "icmp_ping" host;
          _log_input_event self (TrafficInjection dp_event)
        else mret tt
      else mret tt).

Definition crash_controllers (self : t) : M (list Controller) :=
  live ← ask live_controllers;
  for_fold live [] (fun controller crashed_this_round =>
    r ← random;
    if Qltb r (controller_crash_rate (params self)) then
      call (Kill controller) ;;
      _log_input_event self (ControllerCrash (controller_uuid controller)) ;;
      mret (controller :: crashed_this_round)
    else mret crashed_this_round).

Definition reboot_controllers (self : t) (crashed_this_round : list Controller)
  : M unit :=
  down ← ask down_controllers;
  for_each down (fun controller =>
    if bool_decide (controller ∈ crashed_this_round) then mret tt
    else
      r ← random;
      if Qltb r (controller_recovery_rate (params self)) then
        call (Start controller) ;;
        _log_input_event self (ControllerRecovery (controller_uuid controller))
      else mret tt).

Definition check_controllers (self : t) : M unit :=
  crashed_this_round ← crash_controllers self;
  reboot_controllers self crashed_this_round.

Definition trigger_events (self : t) : M unit :=
  check_dataplane self ;;
  check_tcp_connections self ;;
  check_message_receipts self ;;
  check_switch_crashes self ;;
  fuzz_traffic self ;;
  check_controllers self.

(** One pass of [while thread.isAlive()]: an echo request to every live
    switch, then [thread.join(2.0)]. *)
Fixpoint keepalive (polls : nat) : M unit :=
  match polls with
  | O => mret tt
  | S n =>
      live ← ask live_switches;
      for_each live (fun switch => call (EchoRequest switch)) ;;
      keepalive n
  end.

(** The correspondence check runs on its own thread; here it is started
    and the keepalive passes that overlap it follow.  Without an invariant
    checker the thread dies on its first attribute lookup. *)
Definition maybe_check_correspondence (self : t) : M unit :=
  now ← get_logical_time;
  if check_interval self =? 0 then raise ZeroDivisionError
  else if now `mod` check_interval self =? 0 then
    polls ← ask correspondence_polls;
    (if invariant_checker self then call CheckCorrespondence else mret tt) ;;
    keepalive polls
  else mret tt.

Definition maybe_inject_trace_event (self : t) : M unit :=
  has_trace ← ask dataplane_trace;
  if has_trace : bool then
    now ← get_logical_time;
    if trace_interval self =? 0 then raise ZeroDivisionError
    else if now `mod` trace_interval self =? 0 then
      dp_event ← ask next_trace_event;
      call InjectTraceEvent ;;
      _log_input_event self (TrafficInjection dp_event)
    else mret tt
  else mret tt.

(** The body of the [while] loop of [loop]. *)
Definition round (self : t) : M unit :=
  now ← get_logical_time;
  set_logical_time (now + 1) ;;
  trigger_events self ;;
  maybe_check_correspondence self ;;
  maybe_inject_trace_event self ;;
  emit (Sleep (delay self)).

(** [while self.logical_time < end_time: ...], unrolled [fuel] times *)
Fixpoint while_rounds (self : t) (end_time : Z) (fuel : nat) : M unit :=
  match fuel with
  | O => mret tt
  | S fuel' =>
      now ← get_logical_time;
      if now <? end_time then round self ;; while_rounds self end_time fuel'
      else mret tt
  end.

(** [if self.steps: end_time = self.logical_time + self.steps
     else: end_time = sys.maxint] *)
Definition end_time (self : t) (logical_time : Z) : Z :=
  match steps self with
  | Some n => if n =? 0 then sys_maxint else logical_time + n
  | None => sys_maxint
  end.

(** Every round adds one to [logical_time], so the loop makes
    [end_time - logical_time] rounds and that much fuel is enough. *)
Definition loop (self : t) : M unit :=
  with_world (fun w =>
    let e := end_time self (w_logical_time w) in
    try_finally
      (while_rounds self e (Z.to_nat (e - w_logical_time w)))
      (if _input_logger self then emit LoggerClose else mret tt)).

Definition simulate (self : t) : M unit :=
  call Bootstrap ;;
  buffered ← ask patch_panel_is_buffered;
  if buffered : bool then loop self else raise AssertionError.

(** Two fuzzers built alike, the delay between rounds apart. *)
Definition same_but_delay (self1 self2 : t) : Prop :=
  check_interval self1 = check_interval self2 /\
  trace_interval self1 = trace_interval self2 /\
  seed self1 = seed self2 /\
  steps self1 = steps self2 /\
  params self1 = params self2 /\
  _input_logger self1 = _input_logger self2 /\
  invariant_checker self1 = invariant_checker self2.

(** What dropping all of [events] leaves in the trace: the call on the
    patch panel and, with an input logger, the record. *)
Definition dropped (self : t) (events : list DpEvent) : list action :=
  flat_map (fun dp_event =>
              DropDpEvent dp_event ::
              (if _input_logger self
               then [LogInputEvent (DataplaneDrop (dp_fingerprint dp_event))]
               else []))
           events.

End Fuzzer.
End Fuzzer.

(** ** [RecordingSyncCallback] (control_flow.py, lines 492-517) *)

Module RecordingSyncCallback.
Section RecordingSyncCallback.
Context {ent : Entities} {model : SimulationModel}.

(** [state_change]: the report goes to the input logger, if there is one. *)
Definition state_change (input_logger : bool) (controller_id : string)
    (time : SyncTime) (fingerprint name value : string) : M unit :=
  if input_logger then
    emit (LogInputEvent
            (ControllerStateChange controller_id time fingerprint name value))
  else mret tt.

(** [get_deterministic_value]: the wall clock ([SyncTime.now()], here
    [now]) for ["gettimeofday"], an error for any other name. *)
Definition get_deterministic_value (now : SyncTime) (name : string)
  : M SyncTime :=
  if decide (name = "gettimeofday"%string) then mret now
  else raise ValueError.

End RecordingSyncCallback.
End RecordingSyncCallback.

(** ** Python string methods used on the operator's answers *)

Module PyStr.

(** [str.lower] on ASCII *)
Definition lower_ascii (c : Ascii.ascii) : Ascii.ascii :=
  let n := Ascii.N_of_ascii c in
  if ((65 <=? n) && (n <=? 90))%N then Ascii.ascii_of_N (n + 32) else c.

Fixpoint lower (s : string) : string :=
  match s with
  | EmptyString => EmptyString
  | String c s' => String (lower_ascii c) (lower s')
  end.

(** Whitespace for [str.strip]: space, tab, newline, vertical tab, form
    feed, carriage return. *)
Definition is_space (c : Ascii.ascii) : bool :=
  let n := Ascii.N_of_ascii c in
  ((n =? 32) || ((9 <=? n) && (n <=? 13)))%N.

Fixpoint lstrip (s : string) : string :=
  match s with
  | EmptyString => EmptyString
  | String c s' => if is_space c then lstrip s' else s
  end.

Definition rstrip (s : string) : string :=
  String.string_of_list_ascii
    (rev (String.list_ascii_of_string
            (lstrip (String.string_of_list_ascii
                       (rev (String.list_ascii_of_string s)))))).

Definition strip (s : string) : string := rstrip (lstrip s).

(** [answer != '' and answer.lower() != c] *)
Definition declines_default (answer default : string) : bool :=
  negb (String.eqb answer "") && negb (String.eqb (lower answer) default).

End PyStr.

(** ** [Interactive] (control_flow.py, lines 331-450) *)

Module Interactive.
Section Interactive.
Context {ent : Entities} {model : SimulationModel}.

Record t : Type := {
  _input_logger : bool;        (* [input_logger is not None] *)
  invariant_checker : bool     (* set by [set_invariant_checker] *)
}.

Definition init (input_logger : bool) : t :=
  {| _input_logger := input_logger; invariant_checker := false |}.

Definition initial_world (simulation : Sim) (seed : Seed)
    (stdin : list string) : world :=
  mkWorld simulation (Random seed) 0 stdin [].

Definition _log_input_event (self : t) (r : input_event) : M unit :=
  if _input_logger self then emit (LogInputEvent r) else mret tt.

(** [self.invariant_checker.check_...(self.simulation)]; the attribute is
    [None] until [set_invariant_checker]. *)
Definition invariant_check (self : t) (a : action) : M unit :=
  if invariant_checker self then call a else raise AttributeError.

Definition invariant_check_prompt (self : t) : M unit :=
  answer ← raw_input;
  if PyStr.declines_default answer "n" then
    answer ← raw_input;
    let which := PyStr.lower answer in
    if String.eqb which "l" then invariant_check self CheckLoops
    else if String.eqb which "b" then invariant_check self CheckBlackholes
    else if String.eqb which "r" then
      invariant_check self CheckRoutingConsistency
    else if String.eqb which "c" then invariant_check self CheckConnectivity
    else if String.eqb which "o" then invariant_check self CheckCorrespondence
    else mret tt
  else mret tt.

(** The [while True] of [dataplane_trace_prompt]; each turn reads a line. *)
Fixpoint feed_trace_events (self : t) (fuel : nat) : M unit :=
  match fuel with
  | O => mret tt
  | S fuel' =>
      answer ← raw_input;
      if PyStr.declines_default answer "n" then
        dp_event ← ask next_trace_event;
        call InjectTraceEvent ;;
        _log_input_event self (TrafficInjection dp_event) ;;
        feed_trace_events self fuel'
      else mret tt
  end.

Definition dataplane_trace_prompt (self : t) : M unit :=
  has_trace ← ask dataplane_trace;
  if has_trace : bool then
    with_world (fun w => feed_trace_events self (S (length (w_stdin w))))
  else mret tt.

Definition check_dataplane (self : t) : M unit :=
  buffered ← ask patch_panel_is_buffered;
  if buffered : bool then
    events ← ask queued_dataplane_events;
    for_each events (fun dp_event =>
      answer ← raw_input;
      (* [ok_to_send] is a query; reading it early changes nothing *)
      ok ← ask (fun s => ok_to_send s dp_event);
      if (String.eqb answer "" || String.eqb (PyStr.lower answer) "a") && ok
      then
        call (PermitDpEvent dp_event) ;;
        _log_input_event self (DataplanePermit (dp_fingerprint dp_event))
      else if String.eqb (PyStr.lower answer) "d" then
        call (DropDpEvent dp_event) ;;
        _log_input_event self (DataplaneDrop (dp_fingerprint dp_event))
      else if String.eqb (PyStr.lower answer) "e" then
        call (DelayDpEvent dp_event)
      else
        call (DelayDpEvent dp_event))
  else mret tt.

Definition check_message_receipts (self : t) : M unit :=
  receipts ← ask pending_receives;
  for_each receipts (fun pending_receipt =>
    call (Schedule pending_receipt) ;;
    _log_input_event self
      (ControlMessageReceive (receipt_fingerprint pending_receipt)
                             (receipt_dpid pending_receipt)
                             (receipt_controller_id pending_receipt))).

(** One turn of the [while True] of [loop]; the result tells whether the
    loop goes on ([false] is the [break]). *)
Definition loop_body (self : t) : M bool :=
  emit (Sleep (5 # 100)) ;;
  now ← get_logical_time;
  set_logical_time (now + 1) ;;
  invariant_check_prompt self ;;
  dataplane_trace_prompt self ;;
  check_dataplane self ;;
  check_message_receipts self ;;
  answer ← raw_input;
  mret (negb (PyStr.declines_default (PyStr.strip answer) "y")).

(** What a turn does after the sleep and the counter. *)
Definition turn_tail (self : t) : M bool :=
  invariant_check_prompt self ;;
  dataplane_trace_prompt self ;;
  check_dataplane self ;;
  check_message_receipts self ;;
  answer ← raw_input;
  mret (negb (PyStr.declines_default (PyStr.strip answer) "y")).

(** One turn of the trace prompt after its answer was [y]. *)
Definition feed_one (self : t) : M unit :=
  dp_event ← ask next_trace_event;
  call InjectTraceEvent ;;
  _log_input_event self (TrafficInjection dp_event).

Fixpoint while_true (self : t) (fuel : nat) : M unit :=
  match fuel with
  | O => mret tt
  | S fuel' =>
      continue ← loop_body self;
      if continue : bool then while_true self fuel' else mret tt
  end.

(** Every turn reads at least one line, so one more turn than there are
    lines of input is never reached. *)
Definition loop (self : t) : M unit :=
  with_world (fun w =>
    try_finally
      (while_true self (S (length (w_stdin w))))
      (if _input_logger self then emit LoggerClose else mret tt)).

Definition simulate (self : t) : M unit :=
  call Bootstrap ;;
  loop self.

End Interactive.
End Interactive.

(** ** [Replayer] and [MCSFinder] (control_flow.py, lines 48-108)

    [sts.event] (events, the DAG and its watchers) is outside the sources
    at hand: the replay code is embedded over the operations it calls.
    While a watcher runs (and while the simulation boots), controllers may
    read the clock through the sync callback; how often is up to them. *)

Class ReplayModel : Type := {
  Event : Type;
  EventWatcher : Type;
  EventDag : Type;
  ReplaySim : Type;
  event_time : Event -> SyncTime;                       (* [event.time] *)
  watcher_event : EventWatcher -> Event;                (* [event_watcher.event] *)
  dag_events : EventDag -> list Event;                  (* [dag.events()] *)
  (* [dag.event_watchers(pruned_event)], [None] for the full view *)
  dag_event_watchers : EventDag -> option Event -> list EventWatcher;
  replay_bootstrap : ReplaySim -> ReplaySim;            (* [simulation.bootstrap()] *)
  watcher_run : EventWatcher -> ReplaySim -> ReplaySim; (* [event_watcher.run(simulation)] *)
  bootstrap_clock_reads : ReplaySim -> nat;
  watcher_clock_reads : EventWatcher -> ReplaySim -> nat
}.

Module Replayer.
Section Replayer.
Context {replay : ReplayModel}.

Definition time_epsilon_microseconds : Z := 500.

(** What happens during a replay, in order.  A clock read carries the
    watcher that was running when it was answered ([None] while the
    simulation boots) and the value handed out. *)
Inductive replay_action : Type :=
| ReplayBootstrap
| ClockRead (during : option EventWatcher) (answer : SyncTime)
| Run (event_watcher : EventWatcher).

(** The replayer's own attributes, and the replay in progress:
    [self.simulation] (set by [simulate]) and what has happened so far. *)
Record t : Type := mkReplayer {
  dag : EventDag;
  interpolated_time : SyncTime
}.

Record state : Type := mkState {
  self : t;
  simulation : ReplaySim;
  trace : list replay_action
}.

Definition get_interpolated_time (self : t) : SyncTime :=
  interpolated_time self.

Definition interpolate (next_time : SyncTime) : SyncTime :=
  let just_before_micro := microSeconds next_time - time_epsilon_microseconds in
  let just_before_micro := Z.max 0 just_before_micro in
  mkSyncTime (seconds next_time) just_before_micro.

Definition compute_interpolated_time (self : t) (current_event : Event) : t :=
  mkReplayer (dag self) (interpolate (event_time current_event)).

(** [__init__]: the time is set just before the first event;
    [self.dag.events().next()] raises on an empty DAG. *)
Definition init (d : EventDag) : outcome t :=
  match dag_events d with
  | [] => Raise StopIteration
  | first :: _ =>
      Ok (compute_interpolated_time (mkReplayer d (mkSyncTime 0 0)) first)
  end.

(** [n] answers of [get_deterministic_value(controller, "gettimeofday")] *)
Definition clock_reads (self : t) (during : option EventWatcher) (n : nat)
  : list replay_action :=
  match ReplaySyncCallback.get_deterministic_value
          (get_interpolated_time self) "gettimeofday" with
  | Ok value => replicate n (ClockRead during value)
  | Raise _ => []
  end.

Definition bootstrap (st : state) : state :=
  mkState (self st)
    (replay_bootstrap (simulation st))
    (trace st ++ [ReplayBootstrap]
       ++ clock_reads (self st) None (bootstrap_clock_reads (simulation st))).

Definition run (st : state) (event_watcher : EventWatcher) : state :=
  mkState (self st)
    (watcher_run event_watcher (simulation st))
    (trace st ++ [Run event_watcher]
       ++ clock_reads (self st) (Some event_watcher)
            (watcher_clock_reads event_watcher (simulation st))).

Definition increment_round (st : state) : state := st.

Definition simulate (self : t) (simulation : ReplaySim) : state :=
  let st := bootstrap (mkState self simulation []) in
  foldl (fun st event_watcher =>
           let st := mkState (compute_interpolated_time (Replayer.self st)
                                (watcher_event event_watcher))
                             (Replayer.simulation st) (trace st) in
           let st := run st event_watcher in
           increment_round st)
        st (dag_event_watchers (dag self) None).

(** The body of the [for] loop of [simulate]. *)
Definition replay_one (st : state) (event_watcher : EventWatcher) : state :=
  increment_round
    (run (mkState (compute_interpolated_time (self st)
                     (watcher_event event_watcher))
                  (simulation st) (trace st))
         event_watcher).

(** The clock reads of a trace: the answers, and each answer with the
    next landmark at the time, which is the event of the running watcher
    or, while the simulation boots, the first event of the trace. *)
Definition answers (tr : list replay_action) : list SyncTime :=
  omap (fun a => match a with ClockRead _ v => Some v | _ => None end) tr.

Definition landmark_reads (first : Event) (tr : list replay_action)
  : list (Event * SyncTime) :=
  omap (fun a => match a with
                 | ClockRead (Some w) v => Some (watcher_event w, v)
                 | ClockRead None v => Some (first, v)
                 | _ => None
                 end) tr.

End Replayer.
End Replayer.

Module MCSFinder.
Section MCSFinder.
Context {replay : ReplayModel}.

(** [simulate]: the control run, then one pruned run per event; [mcs] is
    created empty, never appended to, and returned. *)
Definition simulate (self : Replayer.t) (simulation : ReplaySim)
  : list Event * Replayer.state :=
  let st := Replayer.simulate self simulation in
  let mcs : list Event := [] in
  let st :=
    foldl (fun st pruned_event =>
             let st := Replayer.bootstrap st in
             foldl (fun st event_watcher =>
                      let st := Replayer.run st event_watcher in
                      Replayer.increment_round st)
                   st
                   (dag_event_watchers (Replayer.dag self) (Some pruned_event)))
          st (dag_events (Replayer.dag self)) in
  (mcs, st).

End MCSFinder.
End MCSFinder.

(** ** [DeferredOFConnection] (entities.py, lines 45-80) *)

Module DeferredOFConnection.
Section DeferredOFConnection.
(** OpenFlow messages and the switch's message handlers *)
Context {Message Handler : Type}.

(** Modelled from the spec: [sts.openflow_buffer.OpenFlowBuffer] is missing
    from the sources.  Section 4.1: [insert_pending_receipt] and
    [insert_pending_send] record a message as buffered, keyed by switch
    and controller identity, and never deliver it. *)
Record OpenFlowBuffer : Type := mkBuffer {
  pending_receives : list (Z * string * Message);
  pending_sends : list (Z * string * Message)
}.

Definition buffer_insert_pending_receipt (dpid : Z) (cid : string)
    (ofp_msg : Message) (b : OpenFlowBuffer) : OpenFlowBuffer :=
  mkBuffer (pending_receives b ++ [(dpid, cid, ofp_msg)]) (pending_sends b).

Definition buffer_insert_pending_send (dpid : Z) (cid : string)
    (ofp_msg : Message) (b : OpenFlowBuffer) : OpenFlowBuffer :=
  mkBuffer (pending_receives b) (pending_sends b ++ [(dpid, cid, ofp_msg)]).

(** The connection together with what has left it: the calls made on the
    switch's true handler and the messages written to the controller
    ([OFConnection.send]). *)
Record t : Type := mkConnection {
  cid : string;
  dpid : Z;
  openflow_buffer : OpenFlowBuffer;
  true_on_message_handler : option Handler;
  handled : list (Handler * Message);
  written : list Message
}.

Definition init (cid : string) (dpid : Z) (openflow_buffer : OpenFlowBuffer)
  : t :=
  mkConnection cid dpid openflow_buffer None [] [].

Definition get_controller_id (self : t) : string := cid self.

Definition insert_pending_receipt (self : t) (ofp_msg : Message) : t :=
  mkConnection (cid self) (dpid self)
    (buffer_insert_pending_receipt (dpid self) (cid self) ofp_msg
                                   (openflow_buffer self))
    (true_on_message_handler self) (handled self) (written self).

(** [self.on_message_received = self.insert_pending_receipt] *)
Definition on_message_received : t -> Message -> t := insert_pending_receipt.

Definition set_message_handler (self : t) (handler : Handler) : t :=
  mkConnection (cid self) (dpid self) (openflow_buffer self)
    (Some handler) (handled self) (written self).

(** [self.true_on_message_handler(self, ofp_message)]; calling [None]
    is a [TypeError]. *)
Definition allow_message_receipt (self : t) (ofp_message : Message)
  : outcome unit * t :=
  match true_on_message_handler self with
  | None => (Raise TypeError, self)
  | Some handler =>
      (Ok tt, mkConnection (cid self) (dpid self) (openflow_buffer self)
                (true_on_message_handler self)
                (handled self ++ [(handler, ofp_message)]) (written self))
  end.

Definition send (self : t) (ofp_message : Message) : t :=
  mkConnection (cid self) (dpid self)
    (buffer_insert_pending_send (dpid self) (cid self) ofp_message
                                (openflow_buffer self))
    (true_on_message_handler self) (handled self) (written self).

(** [super(DeferredOFConnection, self).send(ofp_message)] *)
Definition allow_message_send (self : t) (ofp_message : Message) : t :=
  mkConnection (cid self) (dpid self) (openflow_buffer self)
    (true_on_message_handler self) (handled self)
    (written self ++ [ofp_message]).

(** What can happen to a connection. *)
Inductive event : Type :=
| Arrives (ofp_msg : Message)              (* a message from the controller *)
| Sends (ofp_message : Message)            (* the switch calls [send] *)
| SetMessageHandler (handler : Handler)
| AllowMessageReceipt (ofp_message : Message)
| AllowMessageSend (ofp_message : Message).

Definition step (self : t) (e : event) : t :=
  match e with
  | Arrives m => on_message_received self m
  | Sends m => send self m
  | SetMessageHandler h => set_message_handler self h
  | AllowMessageReceipt m => (allow_message_receipt self m).2
  | AllowMessageSend m => allow_message_send self m
  end.

Definition run (events : list event) (self : t) : t := foldl step self events.

(** The messages of the arrivals, of the switch's sends and of the two
    kinds of release, in order. *)
Definition arrivals (events : list event) : list Message :=
  omap (fun e => match e with Arrives m => Some m | _ => None end) events.

Definition switch_sends (events : list event) : list Message :=
  omap (fun e => match e with Sends m => Some m | _ => None end) events.

Definition released_receipts (events : list event) : list Message :=
  omap (fun e => match e with AllowMessageReceipt m => Some m | _ => None end)
       events.

Definition released_sends (events : list event) : list Message :=
  omap (fun e => match e with AllowMessageSend m => Some m | _ => None end)
       events.

End DeferredOFConnection.
End DeferredOFConnection.


(** ** Concrete scenarios

    Small instances of the interfaces above, on which the embedded code is
    run: recorded traces for the replayer, and a network of numbered
    switches, links, hosts and controllers for the fuzzer. *)

Module Scenario.

Record recorded_event : Type := { label : nat; time : SyncTime }.

(** Modelled from the spec: [sts.event.EventDag] is missing from the
    sources.  Section 3: the DAG produces the full ordered sequence of its
    events, a view with exactly one event excised, and a watcher bound to
    each event.  Here the simulation state is the list of the labels
    replayed since the last bootstrap, and every watcher sees one clock
    read. *)
Definition replay_model : ReplayModel := {|
  Event := recorded_event;
  EventWatcher := recorded_event;
  EventDag := list recorded_event;
  ReplaySim := list nat;
  event_time := time;
  watcher_event := fun w => w;
  dag_events := fun d => d;
  dag_event_watchers := fun d pruned =>
    match pruned with
    | None => d
    | Some e => filter (fun x => label x ≠ label e) d
    end;
  replay_bootstrap := fun _ => [];
  watcher_run := fun w s => s ++ [label w];
  bootstrap_clock_reads := fun _ => 0%nat;
  watcher_clock_reads := fun _ _ => 1%nat
|}.

(** A trace whose only event falls on a full second. *)
Definition on_the_second : list recorded_event :=
  [ {| label := 1; time := mkSyncTime 5 0 |} ].

(** Scenario A of the spec: five events, of which 2 and 4 are needed to
    reproduce the violation. *)
Definition five_events : list recorded_event :=
  [ {| label := 1; time := mkSyncTime 10 1000 |};
    {| label := 2; time := mkSyncTime 10 2000 |};
    {| label := 3; time := mkSyncTime 10 3000 |};
    {| label := 4; time := mkSyncTime 10 4000 |};
    {| label := 5; time := mkSyncTime 10 5000 |} ].

Definition violation_reproduces (replayed : list nat) : bool :=
  bool_decide (2%nat ∈ replayed) && bool_decide (4%nat ∈ replayed).

Definition required_events : list recorded_event :=
  [ {| label := 2; time := mkSyncTime 10 2000 |};
    {| label := 4; time := mkSyncTime 10 4000 |} ].

(** *** A numbered network *)

Definition entities : Entities := {|
  DpEvent := nat;
  Fingerprint := nat;
  Switch := nat;
  Connection := nat;
  Port := nat;
  Link := nat;
  Host := nat;
  Controller := nat;
  PendingReceive := nat;
  Seed := nat;
  dp_fingerprint := fun e => e;
  dpid := Z.of_nat;
  port := fun s => Some s;
  port_no := Z.of_nat;
  get_controller_id := fun _ => "c1"%string;
  start_software_switch := fun l => l;
  end_software_switch := fun l => S l;
  interfaces := fun _ => 1%nat;
  controller_uuid := fun _ => "c1"%string;
  receipt_fingerprint := fun r => r;
  receipt_dpid := Z.of_nat;
  receipt_controller_id := fun _ => "c1"%string
|}.

Record network : Type := mkNetwork {
  net_queue : list nat;
  net_unblocked : list (nat * nat);
  net_blocked : list (nat * nat);
  net_receipts : list nat;
  net_live_switches : list nat;
  net_failed_switches : list nat;
  net_live_links : list nat;
  net_cut_links : list nat;
  net_hosts : list nat;
  net_live_controllers : list nat;
  net_down_controllers : list nat;
  net_trace : bool;
  net_buffered : bool
}.

Definition without (x : nat) (l : list nat) : list nat :=
  filter (fun y => y ≠ x) l.

Definition network_step (a : @action entities) (n : network) : network :=
  match a with
  | DropDpEvent e | PermitDpEvent e =>
      mkNetwork (without e (net_queue n)) (net_unblocked n) (net_blocked n)
        (net_receipts n) (net_live_switches n) (net_failed_switches n)
        (net_live_links n) (net_cut_links n) (net_hosts n)
        (net_live_controllers n) (net_down_controllers n)
        (net_trace n) (net_buffered n)
  | Schedule r =>
      mkNetwork (net_queue n) (net_unblocked n) (net_blocked n)
        (without r (net_receipts n)) (net_live_switches n)
        (net_failed_switches n) (net_live_links n) (net_cut_links n)
        (net_hosts n) (net_live_controllers n) (net_down_controllers n)
        (net_trace n) (net_buffered n)
  | CrashSwitch s =>
      mkNetwork (net_queue n) (net_unblocked n) (net_blocked n)
        (net_receipts n) (without s (net_live_switches n))
        (net_failed_switches n ++ [s]) (net_live_links n) (net_cut_links n)
        (net_hosts n) (net_live_controllers n) (net_down_controllers n)
        (net_trace n) (net_buffered n)
  | RecoverSwitch s =>
      mkNetwork (net_queue n) (net_unblocked n) (net_blocked n)
        (net_receipts n) (net_live_switches n ++ [s])
        (without s (net_failed_switches n)) (net_live_links n)
        (net_cut_links n) (net_hosts n) (net_live_controllers n)
        (net_down_controllers n) (net_trace n) (net_buffered n)
  | SeverLink l =>
      mkNetwork (net_queue n) (net_unblocked n) (net_blocked n)
        (net_receipts n) (net_live_switches n) (net_failed_switches n)
        (without l (net_live_links n)) (net_cut_links n ++ [l])
        (net_hosts n) (net_live_controllers n) (net_down_controllers n)
        (net_trace n) (net_buffered n)
  | RepairLink l =>
      mkNetwork (net_queue n) (net_unblocked n) (net_blocked n)
        (net_receipts n) (net_live_switches n) (net_failed_switches n)
        (net_live_links n ++ [l]) (without l (net_cut_links n))
        (net_hosts n) (net_live_controllers n) (net_down_controllers n)
        (net_trace n) (net_buffered n)
  | Kill c =>
      mkNetwork (net_queue n) (net_unblocked n) (net_blocked n)
        (net_receipts n) (net_live_switches n) (net_failed_switches n)
        (net_live_links n) (net_cut_links n) (net_hosts n)
        (without c (net_live_controllers n)) (net_down_controllers n ++ [c])
        (net_trace n) (net_buffered n)
  | Start c =>
      mkNetwork (net_queue n) (net_unblocked n) (net_blocked n)
        (net_receipts n) (net_live_switches n) (net_failed_switches n)
        (net_live_links n) (net_cut_links n) (net_hosts n)
        (net_live_controllers n ++ [c]) (without c (net_down_controllers n))
        (net_trace n) (net_buffered n)
  | _ => n
  end.

(** The random source of the scenarios always draws one half. *)
Definition model : @SimulationModel entities :=
  @Build_SimulationModel entities
    network                                   (* Sim *)
    nat                                       (* RngState *)
    (fun seed : nat => seed)                  (* Random *)
    (fun g : nat => ((1 # 2)%Q, S g))         (* random_random *)
    net_buffered
    net_queue
    (fun (_ : network) (_ : nat) => true)     (* ok_to_send *)
    net_unblocked
    net_blocked
    net_receipts
    net_live_switches
    net_failed_switches
    net_live_links
    net_cut_links
    net_hosts
    net_live_controllers
    net_down_controllers
    net_trace
    (fun _ : network => 0%nat)                (* next_trace_event *)
    (fun (_ : string) (host g : nat) (_ : network) => (host, g))
    (fun _ : network => 1%nat)                (* correspondence_polls *)
    (fun a n => (Ok tt, network_step a n)).   (* no call raises *)

(** Scenario B of the spec: [dataplane_drop_rate = 1.0],
    [dataplane_delay_rate = 0.0]. *)
Definition drop_everything : FuzzerParams := {|
  dataplane_delay_rate := 0;
  dataplane_drop_rate := 1;
  controlplane_block_rate := 0;
  controlplane_unblock_rate := 0;
  ofp_message_receipt_rate := 0;
  switch_failure_rate := 0;
  switch_recovery_rate := 0;
  link_failure_rate := 0;
  link_recovery_rate := 0;
  traffic_generation_rate := 0;
  controller_crash_rate := 0;
  controller_recovery_rate := 0
|}.

Definition block_everything : FuzzerParams := {|
  dataplane_delay_rate := 0;
  dataplane_drop_rate := 0;
  controlplane_block_rate := 1;
  controlplane_unblock_rate := 0;
  ofp_message_receipt_rate := 0;
  switch_failure_rate := 0;
  switch_recovery_rate := 0;
  link_failure_rate := 0;
  link_recovery_rate := 0;
  traffic_generation_rate := 0;
  controller_crash_rate := 0;
  controller_recovery_rate := 0
|}.

Definition traffic_and_crashes : FuzzerParams := {|
  dataplane_delay_rate := 0;
  dataplane_drop_rate := 0;
  controlplane_block_rate := 0;
  controlplane_unblock_rate := 0;
  ofp_message_receipt_rate := 0;
  switch_failure_rate := 0;
  switch_recovery_rate := 0;
  link_failure_rate := 0;
  link_recovery_rate := 0;
  traffic_generation_rate := 1;
  controller_crash_rate := 1;
  controller_recovery_rate := 0
|}.

(** A fuzzer with the default intervals and delay, seed [0], a round
    budget and an invariant checker. *)
Definition fuzzer (p : FuzzerParams) (steps : Z) (input_logger : bool)
  : @Fuzzer.t entities :=
  @Fuzzer.Build_t entities 35 10 0%nat (1 # 10)%Q (Some steps) p
                  input_logger true.

(** Two queued dataplane events. *)
Definition two_packets : network :=
  mkNetwork [5; 6]%nat [] [] [] [] [] [] [] [] [] [] false true.

(** One unblocked control channel: switch 1, connection 7. *)
Definition one_channel : network :=
  mkNetwork [] [(1, 7)]%nat [] [] [] [] [] [] [] [] [] false true.

(** One host and one live controller. *)
Definition host_and_controller : network :=
  mkNetwork [] [] [] [] [] [] [] [] [3%nat] [9%nat] [] false true.

Definition start (self : @Fuzzer.t entities) (n : network)
  : @world entities model :=
  Fuzzer.initial_world (model := model) self n.

End Scenario.


(** ** What a replay leaves in its trace *)

Module ReplayTrace.
Section ReplayTrace.
Context {replay : ReplayModel}.

(** The watchers run, in order. *)
Definition watchers_run (tr : list Replayer.replay_action) : list EventWatcher :=
  omap (fun a => match a with Replayer.Run w => Some w | _ => None end) tr.

Definition is_bootstrap (a : Replayer.replay_action) : bool :=
  match a with Replayer.ReplayBootstrap => true | _ => false end.

(** How often the simulation was bootstrapped. *)
Definition bootstraps (tr : list Replayer.replay_action) : nat :=
  length (List.filter is_bootstrap tr).

(** The body of the pruning loop of [MCSFinder.simulate], and of the
    replay inside it. *)
Definition prune_one (st : Replayer.state) (event_watcher : EventWatcher)
  : Replayer.state :=
  Replayer.increment_round (Replayer.run st event_watcher).

Definition prune_run (d : EventDag) (st : Replayer.state) (pruned_event : Event)
  : Replayer.state :=
  foldl prune_one (Replayer.bootstrap st)
        (dag_event_watchers d (Some pruned_event)).

(** From [st] to [st'] the replayer is left as it is, and every clock
    value handed out is [v]. *)
Definition reads_only (v : SyncTime) (st st' : Replayer.state) : Prop :=
  Replayer.self st' = Replayer.self st /\
  exists later, Replayer.trace st' = Replayer.trace st ++ later /\
                Forall (fun a => a = v) (Replayer.answers later).

End ReplayTrace.
End ReplayTrace.

(** ** Interleaved reports and collections *)

Module PendingBalance.
Import ReplaySyncCallback.

(** No call of [calls] collects the key [p] while none of it is
    outstanding, [n] being outstanding at the start. *)
Fixpoint balanced (p : PendingStateChange) (n : nat) (calls : list call) : bool :=
  match calls with
  | [] => true
  | x :: calls =>
      if reports p x then balanced p (S n) calls
      else if collects p x then
             match n with
             | O => false
             | S m => balanced p m calls
             end
           else balanced p n calls
  end.

End PendingBalance.

(** ** What a round breaks and what it mends *)

Module RoundGuard.
Section RoundGuard.
Context {ent : Entities} {model : SimulationModel}.

Definition crashed_switch (a : action) : option Switch :=
  match a with CrashSwitch s => Some s | _ => None end.

Definition recovered_switch (a : action) : option Switch :=
  match a with RecoverSwitch s => Some s | _ => None end.

Definition severed_link (a : action) : option Link :=
  match a with SeverLink l => Some l | _ => None end.

Definition repaired_link (a : action) : option Link :=
  match a with RepairLink l => Some l | _ => None end.

Definition killed_controller (a : action) : option Controller :=
  match a with Kill c => Some c | _ => None end.

Definition started_controller (a : action) : option Controller :=
  match a with Start c => Some c | _ => None end.

Section Apart.
Context {X : Type} (down up : action -> option X).

(** A call that neither breaks nor mends. *)
Definition neutral (a : action) : Prop := down a = None /\ up a = None.

(** A call that breaks nothing and mends nothing of [acc]. *)
Definition spares (acc : list X) (a : action) : Prop :=
  down a = None /\ forall y, up a = Some y -> y ∉ acc.

(** Nothing broken in [t] is mended in [t]. *)
Definition apart (t : list action) : Prop :=
  forall x, x ∈ omap down t -> x ∉ omap up t.

Definition keeps_apart (w w' : world) : Prop :=
  exists t, w_trace w' = w_trace w ++ t /\ apart t.

End Apart.
End RoundGuard.
End RoundGuard.

(** ** Rounds completed *)

Module Rounds.
Section Rounds.
Context {ent : Entities} {model : SimulationModel}.

(** How often the run slept: the fuzzer sleeps once at the end of each
    round it completes, and nowhere else. *)
Definition sleeps (t : list action) : nat := length (List.filter is_sleep t).

(** What a computation adds to the trace holds one sleep if it returns
    and none if it raises. *)
Definition sleeps_once {A} (m : M A) : Prop :=
  forall w r w', m w = (r, w') ->
    exists t, w_trace w' = w_trace w ++ t /\
              sleeps t = match r with Ok _ => 1%nat | Raise _ => 0%nat end.

End Rounds.
End Rounds.

(** ** What the interactive loop asks of the simulation *)

Module Operator.
Section Operator.
Context {ent : Entities} {model : SimulationModel}.

(** The calls the interactive loop can make inside its [try]: the sleep
    between rounds, the invariant checks, the trace injection, the
    decisions on dataplane events and the scheduling of receipts, with
    their records. *)
Definition operator_call (a : action) : Prop :=
  match a with
  | Sleep _ | CheckLoops | CheckBlackholes | CheckRoutingConsistency
  | CheckConnectivity | CheckCorrespondence | InjectTraceEvent
  | PermitDpEvent _ | DropDpEvent _ | DelayDpEvent _ | Schedule _
  | LogInputEvent (TrafficInjection _) | LogInputEvent (DataplanePermit _)
  | LogInputEvent (DataplaneDrop _)
  | LogInputEvent (ControlMessageReceive _ _ _) => True
  | _ => False
  end.

(** The dataplane event a call decides on. *)
Definition decided (a : action) : option DpEvent :=
  match a with
  | PermitDpEvent e | DropDpEvent e | DelayDpEvent e => Some e
  | _ => None
  end.

(** What scheduling all of [receipts] leaves in the trace. *)
Definition scheduled (self : Interactive.t) (receipts : list PendingReceive)
  : list action :=
  flat_map (fun pending_receipt =>
              Schedule pending_receipt ::
              (if Interactive._input_logger self
               then [LogInputEvent
                       (ControlMessageReceive
                          (receipt_fingerprint pending_receipt)
                          (receipt_dpid pending_receipt)
                          (receipt_controller_id pending_receipt))]
               else []))
           receipts.

(** Nothing but the random source has changed. *)
Definition untouched (w w' : world) : Prop :=
  w_simulation w' = w_simulation w /\
  w_logical_time w' = w_logical_time w /\
  w_stdin w' = w_stdin w /\
  w_trace w' = w_trace w.

End Operator.

(** Two receipts pending, two dataplane events queued. *)
Definition two_receipts : Scenario.network :=
  Scenario.mkNetwork [5; 6]%nat [] [] [3; 4]%nat [] [] [] [] [] [] [] false true.

End Operator.

(** * The entities ([sts/entities.py])

    Exceptions of the entity classes that the control flows do not raise.
    [Other] is an exception raised inside a collaborator (a process that
    cannot be spawned, an ssh session that breaks). *)

Inductive py_exn : Type :=
| Builtin (e : exn)
| KeyError
| RuntimeError
| NotImplementedError
| Other (name : string).

Inductive result (A : Type) : Type :=
| Return (a : A)
| Throw (e : py_exn).
Arguments Return {A} a.
Arguments Throw {A} e.

(** ** Controllers (entities.py, lines 482-875)

    [sts.util.procutils], [subprocess] and paramiko are outside the
    sources: the operating system is a state with the calls the
    controllers make on it.  What is logged is left out. *)

Inductive cmdline : Type :=
| Args (argv : list string)      (* an argument vector *)
| Shell (cmd : string).          (* a command line, with [shell=True] *)

Class Platform : Type := {
  OS : Type;
  Popen : Type;                  (* process handles *)
  Transport : Type;              (* [paramiko.Transport] *)
  Popen_eq_dec :: EqDecision Popen;
  Popen_countable :: Countable Popen;
  (* [popen_filtered(prefix, cmd, cwd)] *)
  popen_filtered : string -> cmdline -> string -> OS -> result Popen * OS;
  (* [kill_procs(procs)] *)
  kill_procs : list (option Popen) -> OS -> result unit * OS;
  (* [launch_namespace(cmd, address, cid, host_ip_addr_str=
       IPAddressSpace.find_unclaimed_address(ip_prefix=address))]:
     the process of the triple it returns *)
  launch_namespace : string -> string -> string -> OS -> result Popen * OS;
  (* [process.poll()] *)
  poll : Popen -> OS -> option Z * OS;
  (* [process.stdout.read(100)] *)
  stdout_read : Popen -> OS -> string * OS;
  (* the body of the [try] of [execute_remote_command]: the [ssh_client]
     property, [open_channel], [exec_command], the receive loop and
     [close]; it returns the reply and the client the property cached *)
  session : string -> option Transport -> OS
            -> result string * option Transport * OS
}.

Module ControllerState.
Inductive t : Type := ALIVE | STARTING | DEAD.

#[global] Instance eq_dec : EqDecision t.
Proof. solve_decision. Defined.
End ControllerState.

(** [sts.simulation_state.ControllerConfig], as far as it is read. *)
Record ControllerConfig : Type := {
  address : string;
  label : string;
  config_cid : string;
  start_cmd : string;
  kill_cmd : string;
  restart_cmd : string;
  expanded_start_cmd : list string;
  expanded_kill_cmd : list string;
  expanded_restart_cmd : list string;
  cwd : string;
  launch_in_network_namespace : bool
}.

(** [" ".join(words)] *)
Definition join (words : list string) : string := String.concat " " words.

(** The calls made on the operating system, in order. *)
Inductive os_call : Type :=
| PopenFiltered (cmd : cmdline)
| KillProcs
| LaunchNamespace (cmd : string)
| Poll
| StdoutRead
| Session (cmd : string).

(** The class attribute [Controller._active_processes], the operating
    system, and the calls made so far. *)
Record env `{Platform} : Type := mkEnv {
  _active_processes : gset Popen;
  os : OS;
  os_calls : list os_call
}.
Arguments mkEnv {_} _ _ _.

(** The answer of [check_status]; the text of the failures is
    ["Controller %s: Alive, but no controller process found"],
    ["Controller %s: Alive, but controller process terminated with return
    code %d"] and ["Alive, but no controller process found!"]. *)
Inductive status : Type :=
| StatusOK                                   (* [(True, "OK")] *)
| NoProcess (cid : string)
| Terminated (cid : string) (rc : Z)
| NoRemoteProcess.

Definition status_ok (s : status) : bool :=
  match s with StatusOK => true | _ => false end.

Module Controller.
Section Controller.
Context `{Platform}.
Import ControllerState.

Record t : Type := mkController {
  config : ControllerConfig;
  state : ControllerState.t;
  process : option Popen
}.

Definition _register_proc (proc : Popen) (e : env) : env :=
  mkEnv ({[ proc ]} ∪ _active_processes e) (os e) (os_calls e).

(** [self._active_processes.discard(proc)]; discarding [None] from a set
    of processes changes nothing. *)
Definition _unregister_proc (proc : option Popen) (e : env) : env :=
  match proc with
  | Some p => mkEnv (_active_processes e ∖ {[ p ]}) (os e) (os_calls e)
  | None => e
  end.

Definition init (controller_config : ControllerConfig) : t :=
  mkController controller_config DEAD None.

(** A call on the operating system: recorded, then made. *)
Definition os_do {A} (c : os_call) (f : OS -> A * OS) (e : env) : A * env :=
  let '(a, os') := f (os e) in
  (a, mkEnv (_active_processes e) os' (os_calls e ++ [c])).

Definition kill (self : t) (e : env) : result unit * t * env :=
  if decide (state self ≠ ALIVE) then (Return tt, self, e)
  else
    match os_do KillProcs (kill_procs [process self]) e with
    | (Throw err, e) => (Throw err, self, e)
    | (Return _, e) =>
        let after_cmd : result unit * env :=
          if decide (kill_cmd (config self) ≠ "") then
            match os_do (PopenFiltered (Args (expanded_kill_cmd (config self))))
                    (popen_filtered ("[" +:+ label (config self) +:+ "]")
                       (Args (expanded_kill_cmd (config self)))
                       (cwd (config self))) e with
            | (Return _, e) => (Return tt, e)
            | (Throw err, e) => (Throw err, e)
            end
          else (Return tt, e) in
        match after_cmd with
        | (Throw err, e) => (Throw err, self, e)
        | (Return _, e) =>
            let e := _unregister_proc (process self) e in
            (Return tt, mkController (config self) DEAD None, e)
        end
    end.

Definition start (self : t) (e : env) : result unit * t * env :=
  if decide (state self ≠ DEAD) then (Return tt, self, e)
  else if decide (start_cmd (config self) = "") then
    (Throw RuntimeError, self, e)
  else
    let launched :=
      if launch_in_network_namespace (config self) then
        os_do (LaunchNamespace (join (expanded_start_cmd (config self))))
              (launch_namespace (join (expanded_start_cmd (config self)))
                 (address (config self)) (config_cid (config self))) e
      else
        os_do (PopenFiltered (Args (expanded_start_cmd (config self))))
              (popen_filtered ("[" +:+ label (config self) +:+ "]")
                 (Args (expanded_start_cmd (config self)))
                 (cwd (config self))) e in
    match launched with
    | (Throw err, e) => (Throw err, self, e)
    | (Return proc, e) =>
        let e := _register_proc proc e in
        (Return tt, mkController (config self) ALIVE (Some proc), e)
    end.

Definition restart (self : t) (e : env) : result unit * t * env :=
  if decide (state self ≠ DEAD) then (Return tt, self, e)
  else start self e.

Definition check_status (self : t) (e : env) : status * t * env :=
  if decide (state self = DEAD) then (StatusOK, self, e)
  else
    match process self with
    | None => (NoProcess (config_cid (config self)), self, e)
    | Some proc =>
        let '(rc, e) := os_do Poll (poll proc) e in
        match rc with
        | Some rc => (Terminated (config_cid (config self)) rc, self, e)
        | None => (StatusOK, self, e)
        end
    end.

Definition block_peer (self : t) : result unit := Throw NotImplementedError.
Definition unblock_peer (self : t) : result unit := Throw NotImplementedError.

(** Calls on one controller, for reasoning about sequences of them. *)
Inductive call : Type := Kill | Start | Restart | CheckStatus.

Definition step (st : t * env) (c : call) : t * env :=
  match c with
  | Kill => let '(_, self, e) := kill st.1 st.2 in (self, e)
  | Start => let '(_, self, e) := start st.1 st.2 in (self, e)
  | Restart => let '(_, self, e) := restart st.1 st.2 in (self, e)
  | CheckStatus => let '(_, self, e) := check_status st.1 st.2 in (self, e)
  end.

Definition run (calls : list call) (st : t * env) : t * env :=
  foldl step st calls.

(** The object and the registry agree: the controller is alive exactly
    when it holds a process, which is then registered, and it is never
    starting. *)
Definition consistent (st : t * env) : Prop :=
  (state st.1 = ALIVE <-> is_Some (process st.1)) /\
  state st.1 <> STARTING /\
  forall p, process st.1 = Some p -> p ∈ _active_processes st.2.

End Controller.
End Controller.

(** ** [VMController] and its subclasses (entities.py, lines 696-875) *)

(** [needle in hay] on strings *)
Fixpoint contains (needle hay : string) : bool :=
  String.prefix needle hay ||
  match hay with
  | EmptyString => false
  | String _ hay' => contains needle hay'
  end.

Module VMController.
Section VMController.
Context `{Platform}.
Import ControllerState.

(** The class of the object: the methods below dispatch on it where a
    subclass overrides them. *)
Inductive class : Type := VM | BigSwitch | ONOS.

Record t : Type := mkVMController {
  klass : class;
  config : ControllerConfig;
  state : ControllerState.t;
  _ssh_client : option Transport;
  commands : gmap string string;
  alive_status_string : string
}.

Definition with_state (self : t) (s : ControllerState.t) : t :=
  mkVMController (klass self) (config self) s (_ssh_client self)
                 (commands self) (alive_status_string self).

Definition with_ssh_client (self : t) (c : option Transport) : t :=
  mkVMController (klass self) (config self) (state self) c
                 (commands self) (alive_status_string self).

(** [VMController.populate_commands], on the empty [self.commands] *)
Definition vm_populate_commands (config : ControllerConfig)
  : result (gmap string string) :=
  if decide (start_cmd config = "") then Throw RuntimeError
  else if decide (kill_cmd config = "") then Throw RuntimeError
  else if decide (restart_cmd config = "") then Throw RuntimeError
  else Return (<["check" := ""]>
               (<["restart" := join (expanded_restart_cmd config)]>
               (<["kill" := join (expanded_kill_cmd config)]>
               (<["start" := join (expanded_start_cmd config)]> ∅)))).

Definition populate_commands (k : class) (config : ControllerConfig)
  : result (gmap string string) :=
  match k with
  | VM => vm_populate_commands config
  | BigSwitch =>
      if decide (start_cmd config = "") then Throw RuntimeError
      else Return (<["check" := "service floodlight status"]>
                   (<["restart" :=
                        "service floodlight start; initctl stop bscmon"]>
                   (<["kill" := "service floodlight stop"]>
                   (<["start" := join (expanded_start_cmd config)]> ∅))))
  | ONOS =>
      match vm_populate_commands config with
      | Return commands =>
          Return (<["check" := "cd ONOS; ./start-onos.sh status"]> commands)
      | Throw err => Throw err
      end
  end.

(** [__init__] of the three classes: the commands are populated before
    [alive_status_string] is set. *)
Definition init (k : class) (controller_config : ControllerConfig) : result t :=
  match populate_commands k controller_config with
  | Throw err => Throw err
  | Return commands =>
      Return (mkVMController k controller_config DEAD None commands
                match k with
                | VM => ""
                | BigSwitch => "start/running"
                | ONOS => "1 instance of onos running"
                end)
  end.

(** [self.commands[key]] *)
Definition command (self : t) (key : string) : result string :=
  match commands self !! key with
  | Some cmd => Return cmd
  | None => Throw KeyError
  end.

(** The [while True] of [execute_local_command]: [process.poll] is the
    bound method, never [None], so the test is [output == '']. *)
Fixpoint read_output (fuel : nat) (process : Popen) (output : string) (e : env)
  : option (string * env) :=
  match fuel with
  | O => None
  | S fuel' =>
      let '(chunk, e) := Controller.os_do StdoutRead (stdout_read process) e in
      let output := (output +:+ chunk)%string in
      (* [process.poll is not None]: the bound method is an object *)
      let poll_is_not_None := true in
      if bool_decide (output = ""%string) && poll_is_not_None
      then Some (output, e)
      else read_output fuel' process output e
  end.

(** [None] when the loop is still running after [fuel] reads. *)
Definition execute_local_command (fuel : nat) (self : t) (cmd : string)
    (e : env) : option (result string * env) :=
  match Controller.os_do (PopenFiltered (Shell cmd))
          (popen_filtered ("[" +:+ label (config self) +:+ "]") (Shell cmd)
                          (cwd (config self))) e with
  | (Throw err, e) => Some (Throw err, e)
  | (Return process, e) =>
      match read_output fuel process "" e with
      | Some (output, e) => Some (Return output, e)
      | None => None
      end
  end.

(** [execute_remote_command]: the bare [except] catches whatever the
    session raises. *)
Fixpoint remote_attempts (max_iterations : nat) (cmd : string)
    (client : option Transport) (e : env) : string * option Transport * env :=
  match max_iterations with
  | O => (""%string, client, e)
  | S max_iterations' =>
      let '(r, client', os') := session cmd client (os e) in
      let e := mkEnv (_active_processes e) os' (os_calls e ++ [Session cmd]) in
      match r with
      | Return reply => (reply, client', e)
      | Throw _ => remote_attempts max_iterations' cmd None e
      end
  end.

Definition execute_remote_command (self : t) (cmd : string) (e : env)
  : string * t * env :=
  let '(reply, client, e) := remote_attempts 10 cmd (_ssh_client self) e in
  (reply, with_ssh_client self client, e).

(** The commands of [kill], [start] and [restart] run locally, except
    where [BigSwitchController] overrides the method. *)
Definition kill (fuel : nat) (self : t) (e : env)
  : option (result unit * t * env) :=
  if decide (state self ≠ ALIVE) then Some (Return tt, self, e)
  else
    match command self "kill" with
    | Throw err => Some (Throw err, self, e)
    | Return kill_cmd =>
        match klass self with
        | BigSwitch =>
            let '(_, self, e) := execute_remote_command self kill_cmd e in
            Some (Return tt, with_state self DEAD, e)
        | _ =>
            match execute_local_command fuel self kill_cmd e with
            | None => None
            | Some (Throw err, e) => Some (Throw err, self, e)
            | Some (Return _, e) => Some (Return tt, with_state self DEAD, e)
            end
        end
    end.

(** [VMController.start] *)
Definition vm_start (fuel : nat) (self : t) (e : env)
  : option (result unit * t * env) :=
  if decide (state self ≠ DEAD) then Some (Return tt, self, e)
  else
    match command self "start" with
    | Throw err => Some (Throw err, self, e)
    | Return start_cmd =>
        match execute_local_command fuel self start_cmd e with
        | None => None
        | Some (Throw err, e) => Some (Throw err, self, e)
        | Some (Return _, e) => Some (Return tt, with_state self STARTING, e)
        end
    end.

(** [BigSwitchController.start] runs the restart command remotely after
    [super().start()] has returned. *)
Definition start (fuel : nat) (self : t) (e : env)
  : option (result unit * t * env) :=
  match klass self with
  | BigSwitch =>
      match vm_start fuel self e with
      | None => None
      | Some (Throw err, self, e) => Some (Throw err, self, e)
      | Some (Return _, self, e) =>
          match command self "restart" with
          | Throw err => Some (Throw err, self, e)
          | Return restart_cmd =>
              let '(_, self, e) := execute_remote_command self restart_cmd e in
              Some (Return tt, self, e)
          end
      end
  | _ => vm_start fuel self e
  end.

Definition restart (fuel : nat) (self : t) (e : env)
  : option (result unit * t * env) :=
  if decide (state self ≠ DEAD) then Some (Return tt, self, e)
  else
    match command self "restart" with
    | Throw err => Some (Throw err, self, e)
    | Return restart_cmd =>
        match klass self with
        | BigSwitch =>
            let '(_, self, e) := execute_remote_command self restart_cmd e in
            Some (Return tt, with_state self STARTING, e)
        | _ =>
            match execute_local_command fuel self restart_cmd e with
            | None => None
            | Some (Throw err, e) => Some (Throw err, self, e)
            | Some (Return _, e) =>
                Some (Return tt, with_state self STARTING, e)
            end
        end
    end.

Definition check_status (self : t) (e : env) : result status * t * env :=
  match command self "check" with
  | Throw err => (Throw err, self, e)
  | Return check_cmd =>
      if decide (state self = STARTING) then (Return StatusOK, self, e)
      else
        let '(remote_status, self, e) :=
          execute_remote_command self check_cmd e in
        let actual_state :=
          if contains (alive_status_string self) remote_status
          then ALIVE else DEAD in
        let self :=
          if bool_decide (state self = DEAD) && bool_decide (actual_state = ALIVE)
          then with_state self ALIVE else self in
        if bool_decide (state self = ALIVE) && bool_decide (actual_state = DEAD)
        then (Return NoRemoteProcess, self, e)
        else (Return StatusOK, self, e)
  end.

(** Calls on one controller. *)
Inductive call : Type := Kill | Start | Restart | CheckStatus.

(** A call that returned or raised, and where it left the controller;
    [None] if it is still running after [fuel] reads of output. *)
Definition step (fuel : nat) (st : t * env) (c : call) : option (t * env) :=
  match c with
  | Kill => '(_, self, e) ← kill fuel st.1 st.2; Some (self, e)
  | Start => '(_, self, e) ← start fuel st.1 st.2; Some (self, e)
  | Restart => '(_, self, e) ← restart fuel st.1 st.2; Some (self, e)
  | CheckStatus => let '(_, self, e) := check_status st.1 st.2 in Some (self, e)
  end.

Fixpoint run (fuel : nat) (calls : list call) (st : t * env)
  : option (t * env) :=
  match calls with
  | [] => Some st
  | c :: calls => st ← step fuel st c; run fuel calls st
  end.

Definition sessions (calls : list os_call) : nat :=
  length (List.filter (fun c => match c with Session _ => true | _ => false end)
                      calls).

End VMController.
End VMController.

(** ** Two small platforms

    On the first every command is silent and every process keeps
    running; process handles are numbered in the order they are spawned,
    and the remote side answers every command with the status line of a
    running floodlight.  On the second every process prints a line. *)

Module Platforms.

Definition silent : Platform :=
  @Build_Platform nat nat unit _ _
    (fun _ _ _ os => (Return os, S os))
    (fun _ os => (Return tt, os))
    (fun _ _ _ os => (Return os, S os))
    (fun _ os => (None, os))
    (fun _ os => (""%string, os))
    (fun _ _ os => (Return "floodlight start/running"%string, Some tt, os)).

Definition chatty : Platform :=
  @Build_Platform nat nat unit _ _
    (fun _ _ _ os => (Return os, S os))
    (fun _ os => (Return tt, os))
    (fun _ _ _ os => (Return os, S os))
    (fun _ os => (None, os))
    (fun _ os => ("Starting..."%string, os))
    (fun _ _ os => (Throw (Other "socket.error"), None, os)).

Definition floodlight : ControllerConfig := {|
  address := "192.168.56.2";
  label := "c1";
  config_cid := "c1";
  start_cmd := "service floodlight start";
  kill_cmd := "service floodlight stop";
  restart_cmd := "service floodlight restart";
  expanded_start_cmd := ["service"; "floodlight"; "start"];
  expanded_kill_cmd := ["service"; "floodlight"; "stop"];
  expanded_restart_cmd := ["service"; "floodlight"; "restart"];
  cwd := ".";
  launch_in_network_namespace := false
|}.

Definition fresh `{Platform} (os : OS) : env := mkEnv ∅ os [].

End Platforms.

(** ** [FuzzSoftwareSwitch] (entities.py, lines 116-267)

    [NXSoftwareSwitch] (pox) and the connection objects are outside the
    sources.  The parent class keeps [self.connections] and whatever else
    [set_connection] and [send] touch; connections live in the network
    state, where the factory creates them and [close] closes them.  The
    factory and the parent class are taken not to touch the attributes
    that [FuzzSoftwareSwitch] adds. *)

Class SwitchPlatform : Type := {
  Conn : Type;
  Factory : Type;                (* [create_connection] callables *)
  Pox : Type;                    (* the rest of the parent's state *)
  Net : Type;
  Packet : Type;                 (* the arguments of [send] *)
  (* [create_connection(info, self)] *)
  factory_call : Factory -> ControllerConfig -> Net -> result Conn * Net;
  (* [NXSoftwareSwitch.set_connection(conn)], on [self.connections] and
     the rest *)
  pox_set_connection : Conn -> list Conn * Pox -> Net
                       -> result unit * (list Conn * Pox) * Net;
  (* [NXSoftwareSwitch.send], with the arguments of the call *)
  pox_send : Packet -> list Conn * Pox -> Net
             -> result unit * (list Conn * Pox) * Net;
  conn_close : Conn -> Net -> result unit * Net;      (* [connection.close()] *)
  conn_closed : Conn -> Net -> bool;                  (* [conn.closed] *)
  (* [conn.error_handler = self.error_handler] *)
  conn_set_error_handler : Conn -> Net -> Net
}.

(** Computations on a state that may raise. *)
Definition St (S A : Type) : Type := S -> result A * S.

#[export] Instance St_ret S : MRet (St S) := fun A a s => (Return a, s).

#[export] Instance St_bind S : MBind (St S) := fun A B k m s =>
  match m s with
  | (Return a, s') => k a s'
  | (Throw e, s') => (Throw e, s')
  end.

Module FuzzSoftwareSwitch.
Section FuzzSoftwareSwitch.
Context `{SwitchPlatform}.

Record t : Type := mkSwitch {
  failed : bool;
  create_connection : option Factory;
  cid2connection : gmap string Conn;
  controller_info : list ControllerConfig;
  connections : list Conn;       (* of the parent class *)
  pox : Pox
}.

(** Calls on the collaborators, in order. *)
Inductive sw_call : Type :=
| CreateConnection (info : ControllerConfig)
| SetConnection (conn : Conn)
| CloseConnection (conn : Conn)
| SuperSend (packet : Packet).

Record state : Type := mkState {
  self : t;
  net : Net;
  calls : list sw_call
}.

(** [__init__], given what the parent's [__init__] set up. *)
Definition init (parent_connections : list Conn) (parent : Pox) : t :=
  mkSwitch false None ∅ [] parent_connections parent.

Definition add_controller_info (info : ControllerConfig) (self : t) : t :=
  mkSwitch (failed self) (create_connection self) (cid2connection self)
           (controller_info self ++ [info]) (connections self) (pox self).

Definition update (f : t -> t) : St state unit := fun st =>
  (Return tt, mkState (f (self st)) (net st) (calls st)).

Definition read {A} (f : t -> A) : St state A := fun st =>
  (Return (f (self st)), st).

(** [create_connection(info, self)]; calling [None] is a [TypeError]. *)
Definition call_factory (create_connection : option Factory)
    (info : ControllerConfig) : St state Conn := fun st =>
  match create_connection with
  | None => (Throw (Builtin TypeError), st)
  | Some factory =>
      let '(r, net) := factory_call factory info (net st) in
      (r, mkState (self st) net (calls st ++ [CreateConnection info]))
  end.

Definition set_connection (conn : Conn) : St state unit := fun st =>
  let '(r, (connections, pox), net) :=
    pox_set_connection conn (connections (self st), pox (self st)) (net st) in
  (r, mkState (mkSwitch (failed (self st)) (create_connection (self st))
                        (cid2connection (self st)) (controller_info (self st))
                        connections pox)
              net (calls st ++ [SetConnection conn])).

Definition set_error_handler (conn : Conn) : St state unit := fun st =>
  (Return tt, mkState (self st) (conn_set_error_handler conn (net st)) (calls st)).

Definition close (conn : Conn) : St state unit := fun st =>
  let '(r, net) := conn_close conn (net st) in
  (r, mkState (self st) net (calls st ++ [CloseConnection conn])).

Definition with_failed (b : bool) (self : t) : t :=
  mkSwitch b (create_connection self) (cid2connection self)
           (controller_info self) (connections self) (pox self).

Definition with_create_connection (f : option Factory) (self : t) : t :=
  mkSwitch (failed self) f (cid2connection self)
           (controller_info self) (connections self) (pox self).

Definition with_connection (cid : string) (conn : Conn) (self : t) : t :=
  mkSwitch (failed self) (create_connection self)
           (<[cid := conn]> (cid2connection self))
           (controller_info self) (connections self) (pox self).

Definition with_connections (l : list Conn) (self : t) : t :=
  mkSwitch (failed self) (create_connection self) (cid2connection self)
           (controller_info self) l (pox self).

(** The [for info in self.controller_info] of [connect] *)
Fixpoint connect_loop (create_connection : option Factory)
    (down_controller_ids : gset string) (infos : list ControllerConfig)
    (connected_to_at_least_one : bool) : St state bool :=
  match infos with
  | [] => mret connected_to_at_least_one
  | info :: infos =>
      if decide (config_cid info ∉ down_controller_ids) then
        conn ← call_factory create_connection info;
        set_connection conn ;;
        set_error_handler conn ;;
        update (with_connection (config_cid info) conn) ;;
        connect_loop create_connection down_controller_ids infos true
      else
        connect_loop create_connection down_controller_ids infos
                     connected_to_at_least_one
  end.

Definition connect (create_connection : option Factory)
    (down_controller_ids : option (gset string)) : St state bool :=
  let down_controller_ids := default ∅ down_controller_ids in
  update (with_create_connection create_connection) ;;
  infos ← read controller_info;
  connect_loop create_connection down_controller_ids infos false.

Definition send (packet : Packet) : St state unit := fun st =>
  if failed (self st) then (Return tt, st)
  else
    let '(r, (connections, pox), net) :=
      pox_send packet (connections (self st), pox (self st)) (net st) in
    (r, mkState (mkSwitch (failed (self st)) (create_connection (self st))
                          (cid2connection (self st))
                          (controller_info (self st)) connections pox)
                net (calls st ++ [SuperSend packet])).

Definition get_connection (cid : string) : St state Conn := fun st =>
  match cid2connection (self st) !! cid with
  | None => (Throw (Builtin ValueError), st)
  | Some conn => (Return conn, st)
  end.

Definition is_connected_to (cid : string) : St state bool := fun st =>
  match cid2connection (self st) !! cid with
  | Some _ =>
      (conn ← get_connection cid;
       mret (negb (conn_closed conn (net st)))) st
  | None => (Return false, st)
  end.

Fixpoint close_all (conns : list Conn) : St state unit :=
  match conns with
  | [] => mret tt
  | connection :: conns => close connection ;; close_all conns
  end.

Definition fail : St state unit :=
  failed ← read failed;
  if failed : bool then mret tt
  else
    update (with_failed true) ;;
    conns ← read connections;
    close_all conns ;;
    update (with_connections []).

(** [recover]: [None] is the bare [return] of a switch that is up. *)
Definition recover (down_controller_ids : option (gset string))
  : St state (option bool) :=
  failed ← read failed;
  if negb failed then mret None
  else
    create_connection ← read create_connection;
    connected_to_at_least_one ← connect create_connection down_controller_ids;
    (if connected_to_at_least_one : bool then update (with_failed false)
     else mret tt) ;;
    mret (Some connected_to_at_least_one).

(** The controllers [connect] reaches: those that are not down. *)
Definition up (down_controller_ids : option (gset string))
    (infos : list ControllerConfig) : list ControllerConfig :=
  filter (fun info => config_cid info ∉ default ∅ down_controller_ids) infos.

Definition created (l : list sw_call) : list ControllerConfig :=
  omap (fun c => match c with CreateConnection info => Some info | _ => None end) l.

Definition closed_calls (l : list sw_call) : list Conn :=
  omap (fun c => match c with CloseConnection conn => Some conn | _ => None end) l.

End FuzzSoftwareSwitch.
End FuzzSoftwareSwitch.

(** A switch platform with numbered connections: the network state is
    the number of connections created and the list of those closed. *)
Module Wired.

Definition platform : SwitchPlatform :=
  @Build_SwitchPlatform nat unit unit (nat * list nat) string
    (fun _ _ net => (Return net.1, (S net.1, net.2)))
    (fun conn parent net => (Return tt, (parent.1 ++ [conn], parent.2), net))
    (fun _ parent net => (Return tt, parent, net))
    (fun conn net => (Return tt, (net.1, net.2 ++ [conn])))
    (fun conn net => bool_decide (conn ∈ net.2))
    (fun _ net => net).

Definition controller (cid : string) : ControllerConfig := {|
  address := "127.0.0.1";
  label := cid;
  config_cid := cid;
  start_cmd := "./pox.py";
  kill_cmd := "";
  restart_cmd := "";
  expanded_start_cmd := ["./pox.py"];
  expanded_kill_cmd := [];
  expanded_restart_cmd := [];
  cwd := "pox";
  launch_in_network_namespace := false
|}.

(** A switch that knows two controllers and is connected to both. *)
Definition connected : @FuzzSoftwareSwitch.state platform :=
  (FuzzSoftwareSwitch.connect (H := platform) (Some tt) None
     (FuzzSoftwareSwitch.mkState
        (FuzzSoftwareSwitch.add_controller_info (controller "c2")
           (FuzzSoftwareSwitch.add_controller_info (controller "c1")
              (FuzzSoftwareSwitch.init (H := platform) [] tt)))
        (0%nat, []) [])).2.

End Wired.

(** ** [HostInterface] (entities.py, lines 329-390)

    [pox.lib.addresses] is outside the sources: addresses are taken with
    the conversions the class calls on them, the constructors from
    strings may raise, and [int.__hash__] and [str.__hash__] are
    functions into the integers. *)

Class Addresses : Type := {
  EthAddr : Type;
  IPAddr : Type;
  eth_toInt : EthAddr -> Z;                  (* [hw_addr.toInt()] *)
  eth_toStr : EthAddr -> string;             (* [hw_addr.toStr()] *)
  ip_toUnsignedN : IPAddr -> Z;              (* [ip.toUnsignedN()] *)
  ip_toStr : IPAddr -> string;               (* [ip.toStr()] *)
  EthAddr_of_str : string -> result EthAddr; (* [EthAddr(s)] *)
  IPAddr_of_str : string -> result IPAddr;   (* [IPAddr(s)] *)
  int_hash : Z -> Z;
  str_hash : string -> Z
}.

Module HostInterface.
Section HostInterface.
Context `{Addresses}.

Record t : Type := mkHostInterface {
  hw_addr : EthAddr;
  ips : list IPAddr;
  name : string
}.

(** [ip_or_ips]: one address, or a list of them *)
Inductive ip_arg : Type :=
| OneIp (ip : IPAddr)
| Ips (ips : list IPAddr).

Definition init (hw_addr : EthAddr) (ip_or_ips : ip_arg) (name : string) : t :=
  let ip_or_ips :=
    match ip_or_ips with
    | OneIp ip => [ip]
    | Ips ips => ips
    end in
  mkHostInterface hw_addr ip_or_ips name.

Definition port_no (self : t) : string := eth_toStr (hw_addr self).

(** [__eq__] against another [HostInterface] *)
Definition eq (self other : t) : bool :=
  if negb (eth_toInt (hw_addr self) =? eth_toInt (hw_addr other)) then false
  else
    let other_ip_ints := map ip_toUnsignedN (ips other) in
    if negb (forallb (fun ip => bool_decide (ip_toUnsignedN ip ∈ other_ip_ints))
                     (ips self))
    then false
    else if negb (length (ips other) =? length (ips self))%nat then false
    else if negb (String.eqb (name self) (name other)) then false
    else true.

Definition hash (self : t) : Z :=
  let hash_code := int_hash (eth_toInt (hw_addr self)) in
  let hash_code :=
    foldl (fun hash_code ip => hash_code + int_hash (ip_toUnsignedN ip))
          hash_code (ips self) in
  hash_code + str_hash (name self).

(** The dictionary of [to_json] and [from_json]: text under ['name'] and
    ['hw_addr'], a list of texts under ['ips']; a key may be missing. *)
Record json_hash : Type := mkJson {
  json_name : option string;
  json_ips : option (list string);
  json_hw_addr : option string
}.

Definition to_json (self : t) : json_hash :=
  mkJson (Some (name self))
         (Some (map ip_toStr (ips self)))
         (Some (eth_toStr (hw_addr self))).

(** [for ip in json_hash['ips']: ips.append(IPAddr(str(ip)))] *)
Fixpoint parse_ips (texts : list string) (ips : list IPAddr)
  : result (list IPAddr) :=
  match texts with
  | [] => Return ips
  | ip :: texts =>
      match IPAddr_of_str ip with
      | Return a => parse_ips texts (ips ++ [a])
      | Throw err => Throw err
      end
  end.

Definition from_json (json_hash : json_hash) : result t :=
  match json_name json_hash with
  | None => Throw KeyError
  | Some name =>
      match json_ips json_hash with
      | None => Throw KeyError
      | Some texts =>
          match parse_ips texts [] with
          | Throw err => Throw err
          | Return ips =>
              match json_hw_addr json_hash with
              | None => Throw KeyError
              | Some text =>
                  match EthAddr_of_str text with
                  | Throw err => Throw err
                  | Return hw_addr => Return (init hw_addr (Ips ips) name)
                  end
              end
          end
      end
  end.

End HostInterface.

(** Addresses as integers, printed in unary. *)
Fixpoint strokes (n : nat) : string :=
  match n with
  | O => ""
  | S n => ("1" +:+ strokes n)%string
  end.

Definition unary (n : Z) : string := strokes (Z.to_nat n).

Definition tally : Addresses :=
  @Build_Addresses Z Z
    (fun a => a) unary (fun a => a) unary
    (fun s => Return (Z.of_nat (String.length s)))
    (fun s => Return (Z.of_nat (String.length s)))
    (fun n => n) (fun s => Z.of_nat (String.length s)).

End HostInterface.

(** ** [Link] (entities.py, lines 269-315)

    Switches are taken with their [ports] dictionary; switches and ports
    compare by the equality of the model and hash to integers. *)

Class LinkPlatform : Type := {
  SoftwareSwitch : Type;
  ofp_phy_port : Type;
  SoftwareSwitch_eq_dec :: EqDecision SoftwareSwitch;
  ofp_phy_port_eq_dec :: EqDecision ofp_phy_port;
  switch_ports : SoftwareSwitch -> gmap Z ofp_phy_port;   (* [switch.ports] *)
  switch_hash : SoftwareSwitch -> Z;
  port_hash : ofp_phy_port -> Z
}.

Module Link.
Section Link.
Context `{LinkPlatform}.

Record t : Type := mkLink {
  start_software_switch : SoftwareSwitch;
  start_port : ofp_phy_port;
  end_software_switch : SoftwareSwitch;
  end_port : ofp_phy_port
}.

(** What is passed for a port: a number, a port, [None] or anything
    else. *)
Inductive port_arg : Type :=
| PortNumber (n : Z)
| PhyPort (p : ofp_phy_port)
| NoPort
| NotAPort.

(** [assert_type(name, port, ofp_phy_port, none_ok=False)] *)
Definition assert_type (port : port_arg) : result ofp_phy_port :=
  match port with
  | PhyPort p => Return p
  | _ => Throw (Builtin AssertionError)
  end.

Definition init (start_software_switch : SoftwareSwitch) (start_port : port_arg)
    (end_software_switch : SoftwareSwitch) (end_port : port_arg) : result t :=
  let start_port' :=
    match start_port with
    | PortNumber n =>
        match switch_ports start_software_switch !! n with
        | Some p => Return (PhyPort p)
        | None => Throw (Builtin AssertionError)
        end
    | _ => Return start_port
    end in
  match start_port' with
  | Throw err => Throw err
  | Return start_port =>
      let end_port' :=
        match end_port with
        | PortNumber n =>
            (* [assert(end_port in start_software_switch.ports)] *)
            match switch_ports start_software_switch !! n with
            | None => Throw (Builtin AssertionError)
            | Some _ =>
                match switch_ports end_software_switch !! n with
                | Some p => Return (PhyPort p)
                | None => Throw KeyError
                end
            end
        | _ => Return end_port
        end in
      match end_port' with
      | Throw err => Throw err
      | Return end_port =>
          match assert_type start_port with
          | Throw err => Throw err
          | Return start_port =>
              match assert_type end_port with
              | Throw err => Throw err
              | Return end_port =>
                  Return (mkLink start_software_switch start_port
                                 end_software_switch end_port)
              end
          end
      end
  end.

Definition eq (self other : t) : bool :=
  bool_decide (start_software_switch self = start_software_switch other) &&
  bool_decide (start_port self = start_port other) &&
  bool_decide (end_software_switch self = end_software_switch other) &&
  bool_decide (end_port self = end_port other).

Definition ne (self other : t) : bool := negb (eq self other).

Definition hash (self : t) : Z :=
  switch_hash (start_software_switch self) + port_hash (start_port self) +
  switch_hash (end_software_switch self) + port_hash (end_port self).

Definition reversed_link (self : t) : result t :=
  init (end_software_switch self) (PhyPort (end_port self))
       (start_software_switch self) (PhyPort (start_port self)).

End Link.

(** Two switches, numbered, with ports named by their number: switch 1
    has ports 1 and 2, switch 2 has ports 2 and 3. *)
Definition two_switches : LinkPlatform :=
  @Build_LinkPlatform nat Z _ _
    (fun s => match s with
              | 1%nat => {[ 1 := 1; 2 := 2 ]}
              | _ => {[ 2 := 2; 3 := 3 ]}
              end)
    Z.of_nat (fun p => p).

End Link.

(** ** [ConnectionlessOFConnection] (entities.py, lines 82-113) *)

Module ConnectionlessOFConnection.
Section ConnectionlessOFConnection.
Context {Message Handler : Type}.

(** [__init__] sets [on_message_received], not [on_message_handler]: the
    latter attribute exists once [set_message_handler] has run.
    [handled] are the calls made on the handlers. *)
Record t : Type := mkConnectionless {
  cid : string;
  dpid : Z;
  on_message_handler : option Handler;
  ID : Z;
  handled : list (Handler * Message)
}.

(** [OFConnection.ID += 1; self.ID = OFConnection.ID] *)
Definition init (cid : string) (dpid : Z) (OFConnection_ID : Z) : t * Z :=
  (mkConnectionless cid dpid None (OFConnection_ID + 1) [],
   OFConnection_ID + 1).

Definition closed (self : t) : bool := false.

Definition close (self : t) : t := self.

Definition get_controller_id (self : t) : string := cid self.

Definition set_message_handler (self : t) (handler : Handler) : t :=
  mkConnectionless (cid self) (dpid self) (Some handler) (ID self)
                   (handled self).

Definition send (self : t) (ofp_message : Message) : t := self.

Definition read (self : t) (ofp_message : Message) : outcome unit * t :=
  match on_message_handler self with
  | None => (Raise AttributeError, self)
  | Some handler =>
      (Ok tt, mkConnectionless (cid self) (dpid self) (on_message_handler self)
                (ID self) (handled self ++ [(handler, ofp_message)]))
  end.

Inductive event : Type :=
| SetMessageHandler (handler : Handler)
| Send (ofp_message : Message)
| Read (ofp_message : Message)
| Close.

Definition step (self : t) (e : event) : t :=
  match e with
  | SetMessageHandler h => set_message_handler self h
  | Send m => send self m
  | Read m => (read self m).2
  | Close => close self
  end.

Definition run (events : list event) (self : t) : t := foldl step self events.

(** The reads of [events] that find a handler, each with the handler in
    place when it comes; [current] is the handler at the start. *)
Fixpoint delivered (current : option Handler) (events : list event)
  : list (Handler * Message) :=
  match events with
  | [] => []
  | SetMessageHandler h :: events => delivered (Some h) events
  | Read m :: events =>
      match current with
      | Some h => (h, m) :: delivered current events
      | None => delivered current events
      end
  | _ :: events => delivered current events
  end.

End ConnectionlessOFConnection.
End ConnectionlessOFConnection.
(** * Properties *)

(** ** The pending-state-change multiset *)

Section ReplaySyncCallbackFacts.
Import ReplaySyncCallback.
Implicit Types (c : Counter) (p q : PendingStateChange) (x : call).

Lemma getitem_insert_eq c p v : getitem (<[p := v]> c) p = v.
Proof. unfold getitem. by rewrite lookup_insert_eq. Qed.

Lemma getitem_insert_ne c p q v : p ≠ q -> getitem (<[p := v]> c) q = getitem c q.
Proof. intros. unfold getitem. by rewrite lookup_insert_ne. Qed.

Lemma step_other c p x :
  reports p x = false -> collects p x = false -> step c x !! p = c !! p.
Proof.
  destruct x as [ctl t f n v|q]; simpl; intros Hr Hc.
  - apply bool_decide_eq_false in Hr. unfold state_change.
    by rewrite lookup_insert_ne.
  - apply bool_decide_eq_false in Hc. unfold gc_pending_state_change.
    rewrite getitem_insert_eq. case_match.
    + rewrite lookup_delete_ne by done. by rewrite lookup_insert_ne.
    + by rewrite lookup_insert_ne.
Qed.

Lemma step_report c p x :
  reports p x = true -> step c x !! p = Some (getitem c p + 1).
Proof.
  destruct x as [ctl t f n v|q]; simpl; [|done].
  intros Hr%bool_decide_eq_true. unfold state_change, key_of in *.
  rewrite Hr. by rewrite lookup_insert_eq.
Qed.

Lemma step_collect c p x :
  collects p x = true ->
  step c x !! p = if getitem c p - 1 <=? 0 then None else Some (getitem c p - 1).
Proof.
  destruct x as [ctl t f n v|q]; simpl; [done|].
  intros ->%bool_decide_eq_true. unfold gc_pending_state_change.
  rewrite getitem_insert_eq. case_match.
  - by rewrite lookup_delete_eq.
  - by rewrite lookup_insert_eq.
Qed.

Lemma reports_collects_excl p x : reports p x = true -> collects p x = false.
Proof. by destruct x. Qed.

Lemma count_cons f x calls :
  count f (x :: calls) = ((if f x then 1 else 0) + count f calls)%nat.
Proof.
  unfold count. rewrite filter_cons.
  case_decide as Hd; destruct (f x); simpl; congruence.
Qed.

(** Reports only: the stored count grows by the number of reports. *)
Lemma run_reports p calls : forall c,
  count (collects p) calls = 0%nat ->
  (0 < count (reports p) calls)%nat ->
  run calls c !! p = Some (getitem c p + Z.of_nat (count (reports p) calls)).
Proof.
  induction calls as [|x calls IH]; intros c Hc Hr; [unfold count in Hr; simpl in Hr; lia|].
  rewrite count_cons in Hc, Hr. rewrite count_cons. unfold run in *. simpl.
  destruct (collects p x) eqn:Ec; [lia|].
  destruct (reports p x) eqn:Er.
  - destruct (decide (count (reports p) calls = 0%nat)) as [Hz|Hz].
    + rewrite Hz. clear IH Hr.
      assert (forall c', foldl step c' calls !! p = c' !! p) as ->.
      { revert Hc Hz. clear. induction calls as [|y calls IH]; intros Hc Hz c'; [done|].
        rewrite count_cons in Hc, Hz. simpl.
        destruct (collects p y) eqn:?, (reports p y) eqn:?; try lia.
        rewrite IH by lia. by apply step_other. }
      rewrite step_report by done. f_equal; lia.
    + rewrite IH by lia. unfold getitem at 1. rewrite step_report by done.
      simpl. f_equal; lia.
  - rewrite IH by lia. unfold getitem at 1. rewrite step_other by done.
    fold (getitem c p). f_equal.
Qed.

(** Collections only, as many as the stored count: the key is gone. *)
Lemma run_collects p calls : forall c,
  count (reports p) calls = 0%nat ->
  (0 < count (collects p) calls)%nat ->
  getitem c p = Z.of_nat (count (collects p) calls) ->
  run calls c !! p = None.
Proof.
  induction calls as [|x calls IH]; intros c Hr Hc Hn; [unfold count in Hc; simpl in Hc; lia|].
  rewrite count_cons in Hr, Hc, Hn. unfold run in *. simpl.
  destruct (reports p x) eqn:Er; [lia|].
  destruct (collects p x) eqn:Ec.
  - pose proof (step_collect c p x Ec) as Hs.
    destruct (decide (count (collects p) calls = 0%nat)) as [Hz|Hz].
    + assert (forall c', foldl step c' calls !! p = c' !! p) as ->.
      { revert Hr Hz. clear. induction calls as [|y calls IH]; intros Hr Hz c'; [done|].
        rewrite count_cons in Hr, Hz. simpl.
        destruct (collects p y) eqn:?, (reports p y) eqn:?; try lia.
        rewrite IH by lia. by apply step_other. }
      rewrite Hs. rewrite Hz in Hn. case_match; [done|lia].
    + apply IH; [lia|lia|]. unfold getitem at 1. rewrite Hs.
      case_match; simpl; lia.
  - apply IH; [lia|lia|]. unfold getitem at 1. rewrite step_other by done.
    fold (getitem c p). lia.
Qed.

(** C5: [k > 0] reports of one key and no collection of it leave the key
    pending with count [k]; [k] collections of it (and no further report)
    then bring the count to zero and remove the key from the storage.
    Calls about other keys may be interleaved at will. *)
Theorem pending_state_change_counts p (k : nat) (calls1 calls2 : list call) :
  (0 < k)%nat ->
  count (reports p) calls1 = k -> count (collects p) calls1 = 0%nat ->
  count (reports p) calls2 = 0%nat -> count (collects p) calls2 = k ->
  let c1 := run calls1 ∅ in
  let c2 := run calls2 c1 in
  state_change_pending c1 p = true /\ getitem c1 p = Z.of_nat k /\
  getitem c2 p = 0 /\ c2 !! p = None.
Proof.
  intros Hk Hr1 Hc1 Hr2 Hc2 c1 c2.
  assert (c1 !! p = Some (Z.of_nat k)) as H1.
  { subst c1. rewrite run_reports by lia. unfold getitem.
    rewrite lookup_empty. simpl. f_equal. lia. }
  assert (getitem c1 p = Z.of_nat k) as G1 by (unfold getitem; by rewrite H1).
  assert (c2 !! p = None) as H2.
  { subst c2. apply run_collects; [done|lia|]. rewrite G1. by rewrite Hc2. }
  repeat split; try done.
  - unfold state_change_pending. rewrite G1. apply Z.ltb_lt. lia.
  - unfold getitem. by rewrite H2.
Qed.

(** Every call keeps the stored counts positive. *)
Lemma step_positive c x : positive_counts c -> positive_counts (step c x).
Proof.
  intros Hc. destruct x as [ctl t f n v|q]; simpl.
  - unfold state_change. apply map_Forall_insert_2; [|done].
    unfold getitem. destruct (c !! _) eqn:E; simpl; [|lia].
    apply Hc in E. lia.
  - unfold gc_pending_state_change. rewrite getitem_insert_eq.
    case_match eqn:E.
    + rewrite delete_insert_eq. by apply map_Forall_delete.
    + apply map_Forall_insert_2; [|done]. apply Z.leb_gt in E. lia.
Qed.

Lemma run_positive calls : forall c,
  positive_counts c -> positive_counts (run calls c).
Proof.
  induction calls as [|x calls IH]; intros c Hc; [done|].
  apply IH. by apply step_positive.
Qed.

Lemma gc_absent c p : c !! p = None -> gc_pending_state_change c p = c.
Proof.
  intros Hp. unfold gc_pending_state_change. rewrite getitem_insert_eq.
  unfold getitem. rewrite Hp. simpl.
  rewrite delete_insert_eq. by apply delete_id.
Qed.

(** C10: after any sequence of [state_change] and
    [gc_pending_state_change] calls on a fresh callback every stored key
    has a strictly positive count; collecting a key that has no
    outstanding report leaves the storage as it was, with the key absent. *)
Theorem pending_counts_stay_positive (calls : list call) :
  let c := run calls ∅ in
  positive_counts c /\
  (forall p, getitem c p = 0 ->
     gc_pending_state_change c p = c /\ c !! p = None) /\
  (forall p, positive_counts (gc_pending_state_change c p)).
Proof.
  intros c.
  assert (positive_counts c) as Hpos.
  { apply run_positive. apply map_Forall_empty. }
  split; [done|]. split.
  - intros p Hz.
    assert (c !! p = None) as Hnone.
    { destruct (c !! p) as [v|] eqn:E; [|done].
      pose proof (Hpos p v E) as Hv. simpl in Hv.
      unfold getitem in Hz. rewrite E in Hz. simpl in Hz. lia. }
    split; [by apply gc_absent|done].
  - intros p. by apply (step_positive c (Gc p)).
Qed.

End ReplaySyncCallbackFacts.

Section ReplaySyncCallbackWitnesses.
Import ReplaySyncCallback.

Lemma pending_state_change_counts_witness :
  let ctl := {| uuid := "c1" |} in
  let t0 := mkSyncTime 3 250 in
  let p := key_of ctl t0 "fp" "role" "master" in
  let other := key_of ctl t0 "fp" "role" "slave" in
  let calls1 := [StateChange ctl t0 "fp" "role" "master";
                 StateChange ctl t0 "fp" "role" "slave";
                 StateChange ctl t0 "fp" "role" "master"] in
  let calls2 := [Gc p; Gc other; Gc p] in
  state_change_pending (run calls1 ∅) p = true /\
  getitem (run calls1 ∅) p = 2 /\
  getitem (run calls2 (run calls1 ∅)) p = 0 /\
  run calls2 (run calls1 ∅) !! p = None.
Proof.
  intros ctl t0 p other calls1 calls2.
  apply (pending_state_change_counts p 2 calls1 calls2);
    [lia | vm_compute; reflexivity ..].
Defined.

Lemma pending_counts_stay_positive_witness :
  let p := mkPendingStateChange "c1" (mkSyncTime 3 250) "fp" "role" "master" in
  gc_pending_state_change (run [Gc p] ∅) p = run [Gc p] ∅ /\
  run [Gc p] ∅ !! p = None.
Proof.
  intros p.
  apply (pending_counts_stay_positive [Gc p]). vm_compute. reflexivity.
Defined.

End ReplaySyncCallbackWitnesses.

(** ** Interpolated time *)

Section SyncTimeOrder.

Ltac sync_time_lia :=
  unfold SyncTime_le, SyncTime_lt, SyncTime_leb, SyncTime_ltb,
         Replayer.interpolate, Replayer.time_epsilon_microseconds in *;
  repeat match goal with t : SyncTime |- _ => destruct t end;
  simpl in *;
  rewrite ?orb_true_iff, ?andb_true_iff, ?Z.ltb_lt, ?Z.leb_le, ?Z.eqb_eq in *;
  lia.

Lemma SyncTime_le_refl a : SyncTime_le a a.
Proof. sync_time_lia. Qed.

Lemma SyncTime_le_trans a b c :
  SyncTime_le a b -> SyncTime_le b c -> SyncTime_le a c.
Proof. sync_time_lia. Qed.

#[global] Instance SyncTime_le_transitive : Transitive SyncTime_le.
Proof. intros a b c. apply SyncTime_le_trans. Qed.

Lemma interpolate_mono a b :
  SyncTime_le a b -> SyncTime_le (Replayer.interpolate a) (Replayer.interpolate b).
Proof. sync_time_lia. Qed.

Lemma interpolate_le a :
  0 <= microSeconds a -> SyncTime_le (Replayer.interpolate a) a.
Proof. sync_time_lia. Qed.

Lemma interpolate_lt a :
  0 < microSeconds a -> SyncTime_lt (Replayer.interpolate a) a.
Proof. sync_time_lia. Qed.

Lemma replicate_sorted n a : StronglySorted SyncTime_le (replicate n a).
Proof.
  induction n as [|n IH]; simpl; constructor; [done|].
  apply Forall_forall. intros x Hx. apply elem_of_replicate in Hx as [-> _].
  apply SyncTime_le_refl.
Qed.

(** On a full second the clamp at zero hands out the landmark itself. *)
Lemma interpolate_on_the_second s :
  Replayer.interpolate (mkSyncTime s 0) = mkSyncTime s 0.
Proof. reflexivity. Qed.

End SyncTimeOrder.

Section ReplayerFacts.
Context {replay : ReplayModel}.
Import Replayer.

Lemma answers_app tr1 tr2 : answers (tr1 ++ tr2) = answers tr1 ++ answers tr2.
Proof. apply omap_app. Qed.

Lemma landmark_reads_app first tr1 tr2 :
  landmark_reads first (tr1 ++ tr2)
  = landmark_reads first tr1 ++ landmark_reads first tr2.
Proof. apply omap_app. Qed.

Lemma answers_clock_reads self during n :
  answers (clock_reads self during n) = replicate n (interpolated_time self).
Proof.
  unfold clock_reads. simpl. induction n as [|n IH]; [done|].
  simpl. by rewrite <- IH.
Qed.

Lemma landmark_reads_clock_reads first self during n :
  landmark_reads first (clock_reads self during n)
  = replicate n (from_option watcher_event first during,
                 interpolated_time self).
Proof.
  unfold clock_reads. simpl. induction n as [|n IH]; [done|].
  simpl. rewrite <- IH. by destruct during.
Qed.

Lemma replay_one_answers first st w :
  exists n,
    answers (trace (replay_one st w))
    = answers (trace st)
      ++ replicate n (interpolate (event_time (watcher_event w))) /\
    landmark_reads first (trace (replay_one st w))
    = landmark_reads first (trace st)
      ++ replicate n (watcher_event w,
                      interpolate (event_time (watcher_event w))).
Proof.
  eexists. unfold replay_one, increment_round, run.
  cbn [trace self simulation].
  rewrite !answers_app, !landmark_reads_app.
  rewrite answers_clock_reads, landmark_reads_clock_reads.
  cbn [answers landmark_reads omap list_omap app interpolated_time
       compute_interpolated_time from_option].
  split; reflexivity.
Qed.

(** The reads handed out while the remaining watchers [ws] are replayed
    stay in order, provided the earlier answers are all at most the
    interpolation of [lo] and [lo] is at most the remaining landmarks. *)
Lemma replay_loop_sorted ws : forall st lo,
  StronglySorted SyncTime_le (answers (trace st)) ->
  Forall (fun v => SyncTime_le v (interpolate lo)) (answers (trace st)) ->
  StronglySorted SyncTime_le
    (lo :: map (fun w => event_time (watcher_event w)) ws) ->
  StronglySorted SyncTime_le (answers (trace (foldl replay_one st ws))).
Proof.
  induction ws as [|w ws IH]; intros st lo Hs Hb Hws; [done|].
  simpl. simpl in Hws.
  apply StronglySorted_inv in Hws as [Hws Hlo].
  apply Forall_cons in Hlo as [Hlo_w Hlo_ws].
  destruct (replay_one_answers (watcher_event w) st w) as (n & Ha & _).
  apply (IH _ (event_time (watcher_event w))); [| |done].
  - rewrite Ha. apply StronglySorted_app_2; [|done|apply replicate_sorted].
    intros x1 x2 H1 H2. apply elem_of_replicate in H2 as [-> _].
    rewrite Forall_forall in Hb.
    eapply SyncTime_le_trans; [by apply Hb|]. by apply interpolate_mono.
  - rewrite Ha. apply Forall_app. split.
    + eapply Forall_impl; [exact Hb|]. intros v Hv. simpl in Hv.
      eapply SyncTime_le_trans; [exact Hv|]. by apply interpolate_mono.
    + apply Forall_forall. intros x Hx. apply elem_of_replicate in Hx as [-> _].
      apply SyncTime_le_refl.
Qed.

(** Every read is the interpolation of the landmark it was answered
    before. *)
Lemma replay_loop_reads first ws : forall st,
  Forall (fun '(e, v) => v = interpolate (event_time e))
         (landmark_reads first (trace st)) ->
  Forall (fun '(e, v) => v = interpolate (event_time e))
         (landmark_reads first (trace (foldl replay_one st ws))).
Proof.
  induction ws as [|w ws IH]; intros st Hst; [done|].
  simpl. apply IH.
  destruct (replay_one_answers first st w) as (n & _ & Hr). rewrite Hr.
  apply Forall_app. split; [done|].
  apply Forall_forall. intros [e v] Hx.
  by apply elem_of_replicate in Hx as [[= -> ->] _].
Qed.

Lemma simulate_unfold self sim :
  simulate self sim
  = foldl replay_one (bootstrap (mkState self sim []))
          (dag_event_watchers (dag self) None).
Proof. reflexivity. Qed.


(** [MCSFinder.simulate] returns the empty list it created, whatever was
    replayed. *)
Lemma mcs_finder_returns_nothing self sim : (MCSFinder.simulate self sim).1 = [].
Proof. reflexivity. Qed.

End ReplayerFacts.

Section ReplayScenarios.
Import Scenario.
#[local] Existing Instance replay_model.



(** C1 on scenario A: the control run reproduces the violation, which
    needs events 2 and 4, and [MCSFinder.simulate] still returns the empty
    list: the result of a pruned run is never looked at and nothing is
    ever added to [mcs]. *)
Theorem mcs_finder_scenario_A :
  let self := Replayer.mkReplayer five_events (mkSyncTime 10 500) in
  Replayer.init five_events = Ok self /\
  violation_reproduces (Replayer.simulation (Replayer.simulate self [])) = true /\
  (MCSFinder.simulate self []).1 = [] /\
  (MCSFinder.simulate self []).1 <> required_events.
Proof.
  intros self. split; [reflexivity|]. split; [vm_compute; reflexivity|].
  split; [reflexivity|]. discriminate.
Qed.

End ReplayScenarios.

(** ** The deferred connection *)

Section DeferredOFConnectionFacts.
Context {Message Handler : Type}.
Import DeferredOFConnection.
Implicit Types (self : @t Message Handler) (e : @event Message Handler).

Lemma step_cid_dpid self e :
  cid (step self e) = cid self /\ dpid (step self e) = dpid self.
Proof.
  destruct e; simpl; try done.
  unfold allow_message_receipt. by destruct (true_on_message_handler self).
Qed.

Lemma step_written self e :
  written (step self e) = written self ++ released_sends [e].
Proof.
  destruct e; simpl; rewrite ?app_nil_r; try done.
  unfold allow_message_receipt.
  destruct (true_on_message_handler self); simpl; by rewrite ?app_nil_r.
Qed.

Lemma step_buffer self e :
  pending_receives (openflow_buffer (step self e))
  = pending_receives (openflow_buffer self)
    ++ map (fun m => (dpid self, cid self, m)) (arrivals [e]) /\
  pending_sends (openflow_buffer (step self e))
  = pending_sends (openflow_buffer self)
    ++ map (fun m => (dpid self, cid self, m)) (switch_sends [e]).
Proof.
  destruct e; simpl; rewrite ?app_nil_r; try done.
  unfold allow_message_receipt.
  destruct (true_on_message_handler self); simpl; by rewrite ?app_nil_r.
Qed.

Lemma step_handled self e :
  exists hs, handled (step self e) = handled self ++ hs /\
    map snd hs `sublist_of` released_receipts [e] /\
    (is_Some (true_on_message_handler self) ->
       map snd hs = released_receipts [e]) /\
    (is_Some (true_on_message_handler self) ->
       is_Some (true_on_message_handler (step self e))).
Proof.
  destruct e as [m|m|h|m|m]; simpl;
    try (exists []; rewrite app_nil_r; by repeat split).
  unfold allow_message_receipt.
  destruct (true_on_message_handler self) as [h|]; simpl.
  - exists [(h, m)]. by repeat split.
  - exists []. rewrite app_nil_r. repeat split; try done;
      first [apply sublist_nil_l | by intros [? ?]].
Qed.

Lemma released_receipts_cons e events :
  released_receipts (e :: events)
  = released_receipts [e] ++ released_receipts events.
Proof. unfold released_receipts. simpl. by destruct e. Qed.

Lemma released_sends_cons e events :
  released_sends (e :: events) = released_sends [e] ++ released_sends events.
Proof. unfold released_sends. simpl. by destruct e. Qed.

Lemma arrivals_cons e events :
  arrivals (e :: events) = arrivals [e] ++ arrivals events.
Proof. unfold arrivals. simpl. by destruct e. Qed.

Lemma switch_sends_cons e events :
  switch_sends (e :: events) = switch_sends [e] ++ switch_sends events.
Proof. unfold switch_sends. simpl. by destruct e. Qed.

Lemma run_released events : forall self,
  written (run events self) = written self ++ released_sends events /\
  pending_receives (openflow_buffer (run events self))
  = pending_receives (openflow_buffer self)
    ++ map (fun m => (dpid self, cid self, m)) (arrivals events) /\
  pending_sends (openflow_buffer (run events self))
  = pending_sends (openflow_buffer self)
    ++ map (fun m => (dpid self, cid self, m)) (switch_sends events) /\
  exists hs, handled (run events self) = handled self ++ hs /\
    map snd hs `sublist_of` released_receipts events /\
    (is_Some (true_on_message_handler self) ->
       map snd hs = released_receipts events).
Proof.
  induction events as [|e events IH]; intros self.
  - simpl. rewrite !app_nil_r.
    split; [done|]. split; [done|]. split; [done|].
    exists []. rewrite app_nil_r. by repeat split.
  - unfold run in *. cbn [foldl].
    rewrite (released_sends_cons e events), (arrivals_cons e events),
            (switch_sends_cons e events).
    destruct (IH (step self e)) as (Hw & Hr & Hs & hs2 & Hh & Hsub & Heq).
    destruct (step_handled self e) as (hs1 & Hh1 & Hsub1 & Heq1 & Hkeep).
    destruct (step_buffer self e) as [Hr1 Hs1].
    destruct (step_cid_dpid self e) as [Hc Hd].
    rewrite Hw, Hr, Hs, Hh, Hh1, Hr1, Hs1, Hc, Hd, step_written.
    rewrite !map_app, <- !app_assoc.
    split; [done|]. split; [done|]. split; [done|].
    exists (hs1 ++ hs2). rewrite (released_receipts_cons e events), map_app.
    split; [done|]. split.
    + by apply sublist_app.
    + intros Hsome. rewrite Heq1 by done. rewrite Heq by auto. done.
Qed.

(** C2: a message arriving on the connection, from the controller or
    from the switch, is only inserted into the openflow buffer; nothing is
    handed to the switch's true handler or written to the controller
    then.  Over any sequence of events on the connection the messages
    written to the controller are exactly those released by
    [allow_message_send], the calls on the true handler are those of
    [allow_message_receipt] (all of them once a handler is set), and the
    buffer has received every arrival and every send. *)
Theorem deferred_connection_interposes self (ofp_msg : Message)
    (events : list event) :
  (let self' := on_message_received self ofp_msg in
   openflow_buffer self'
   = buffer_insert_pending_receipt (dpid self) (cid self) ofp_msg
                                   (openflow_buffer self) /\
   handled self' = handled self /\ written self' = written self) /\
  (let self' := send self ofp_msg in
   openflow_buffer self'
   = buffer_insert_pending_send (dpid self) (cid self) ofp_msg
                                (openflow_buffer self) /\
   handled self' = handled self /\ written self' = written self) /\
  (let self' := run events self in
   written self' = written self ++ released_sends events /\
   pending_receives (openflow_buffer self')
   = pending_receives (openflow_buffer self)
     ++ map (fun m => (dpid self, cid self, m)) (arrivals events) /\
   pending_sends (openflow_buffer self')
   = pending_sends (openflow_buffer self)
     ++ map (fun m => (dpid self, cid self, m)) (switch_sends events) /\
   exists hs, handled self' = handled self ++ hs /\
     map snd hs `sublist_of` released_receipts events /\
     (is_Some (true_on_message_handler self) ->
        map snd hs = released_receipts events)).
Proof.
  split; [by repeat split|]. split; [by repeat split|].
  apply run_released.
Qed.

End DeferredOFConnectionFacts.

Lemma deferred_connection_interposes_witness :
  let self := DeferredOFConnection.set_message_handler
                (DeferredOFConnection.init "c1" 1
                   (DeferredOFConnection.mkBuffer [] []))
                "switch_handler"%string in
  let events := [DeferredOFConnection.Arrives "flow_mod"%string;
                 DeferredOFConnection.Sends "packet_in"%string;
                 DeferredOFConnection.AllowMessageReceipt "flow_mod"%string] in
  exists hs,
    DeferredOFConnection.handled (DeferredOFConnection.run events self)
    = DeferredOFConnection.handled self ++ hs /\
    map snd hs `sublist_of` DeferredOFConnection.released_receipts events /\
    map snd hs = ["flow_mod"%string].
Proof.
  intros self events.
  destruct (deferred_connection_interposes self "flow_mod"%string events)
    as (_ & _ & _ & _ & _ & hs & Hh & Hsub & Heq).
  exists hs. split; [exact Hh|]. split; [exact Hsub|].
  apply Heq. by eexists.
Defined.

(** ** Runs of the fuzzer and of the interactive loop *)

Section MonadFacts.
Context {ent : Entities} {model : SimulationModel}.
Implicit Types (w : world) (P : action -> Prop).

Lemma bind_unfold {A B} (m : M A) (k : A -> M B) w :
  (m ≫= k) w = match m w with
               | (Ok a, w') => k a w'
               | (Raise e, w') => (Raise e, w')
               end.
Proof. reflexivity. Qed.

#[global] Instance evolves_refl P : Reflexive (evolves P).
Proof.
  intros w. split; [exists []; by rewrite app_nil_r|]. split; [done|].
  reflexivity.
Qed.

#[global] Instance evolves_trans P : Transitive (evolves P).
Proof.
  intros w1 w2 w3 ((t1 & E1 & F1) & T1 & S1) ((t2 & E2 & F2) & T2 & S2).
  split; [|split].
  - exists (t1 ++ t2). rewrite E2, E1, app_assoc. split; [done|].
    by apply Forall_app.
  - congruence.
  - by etrans.
Qed.

Lemma evolves_weaken P Q w w' :
  (forall a, P a -> Q a) -> evolves P w w' -> evolves Q w w'.
Proof.
  intros HPQ ((t & E & F) & T & S). split; [|done].
  exists t. split; [done|]. by eapply Forall_impl.
Qed.

Section Preserves.
Context (R : world -> world -> Prop) `{!Reflexive R, !Transitive R}.

Lemma preserves_ret {A} (a : A) : preserves R (mret a).
Proof. intros w. simpl. reflexivity. Qed.

Lemma preserves_raise {A} e : preserves R (raise (A := A) e).
Proof. intros w. simpl. reflexivity. Qed.

Lemma preserves_raise_bind {A B} e (k : A -> M B) :
  preserves R (raise e ≫= k).
Proof. intros w. simpl. reflexivity. Qed.

Lemma preserves_bind {A B} (m : M A) (k : A -> M B) :
  preserves R m -> (forall a, preserves R (k a)) -> preserves R (m ≫= k).
Proof.
  intros Hm Hk w. rewrite bind_unfold. specialize (Hm w).
  destruct (m w) as [[a|e] w']; simpl in *; [|done].
  etrans; [exact Hm|]. apply Hk.
Qed.

Lemma preserves_for_each {X} (xs : list X) (body : X -> M unit) :
  (forall x, preserves R (body x)) -> preserves R (for_each xs body).
Proof.
  intros Hb. induction xs as [|x xs IH]; simpl.
  - apply preserves_ret.
  - apply preserves_bind; [apply Hb|]. intros _. apply IH.
Qed.

Lemma preserves_for_fold {X S} (xs : list X) (body : X -> S -> M S) :
  (forall x acc, preserves R (body x acc)) ->
  forall acc, preserves R (for_fold xs acc body).
Proof.
  intros Hb. induction xs as [|x xs IH]; intros acc; simpl.
  - apply preserves_ret.
  - apply preserves_bind; [apply Hb|]. intros acc'. apply IH.
Qed.

Lemma preserves_ask {A} (f : Sim -> A) : preserves R (ask f).
Proof. intros w. simpl. reflexivity. Qed.

Lemma preserves_get_logical_time : preserves R get_logical_time.
Proof. intros w. simpl. reflexivity. Qed.

Lemma preserves_with_world {A} (f : world -> M A) :
  (forall w0, preserves R (f w0)) -> preserves R (with_world f).
Proof. intros Hf w. apply Hf. Qed.

Lemma preserves_try_finally {A} (body : M A) (final : M unit) :
  preserves R body -> preserves R final -> preserves R (try_finally body final).
Proof.
  intros Hb Hf w. unfold try_finally. specialize (Hb w).
  destruct (body w) as [r w']. specialize (Hf w'). simpl in *.
  destruct (final w') as [[[]|e] w'']; simpl in *; by etrans.
Qed.

End Preserves.

Lemma evolves_call P a : P a -> preserves (evolves P) (call a).
Proof.
  intros Ha w. unfold call. destruct (sim_step a (w_simulation w)) as [r s].
  split; [|done]. exists [a]. split; [done|]. by constructor.
Qed.

Lemma evolves_emit P a : P a -> preserves (evolves P) (emit a).
Proof.
  intros Ha w. split; [|done]. exists [a]. split; [done|].
  by constructor.
Qed.

Lemma evolves_random P : preserves (evolves P) random.
Proof.
  intros w. unfold random. destruct (random_random (w_random w)) as [r g].
  simpl. split; [exists []; by rewrite app_nil_r|done].
Qed.

Lemma evolves_raw_input P : preserves (evolves P) raw_input.
Proof.
  intros w. unfold raw_input. destruct (w_stdin w) as [|line rest] eqn:E; simpl.
  - reflexivity.
  - split; [exists []; by rewrite app_nil_r|]. split; [done|].
    rewrite E. by apply suffix_cons_r.
Qed.

End MonadFacts.

(** Taking a definition apart into the steps above. *)
Ltac evolve_step :=
  lazymatch goal with
  | |- preserves _ (mret _) => apply preserves_ret; apply _
  | |- preserves _ (raise _) => apply preserves_raise; apply _
  | |- preserves _ (raise _ ≫= _) => apply preserves_raise_bind; apply _
  | |- preserves _ (_ ≫= _) => apply preserves_bind; [apply _| |intros]
  | |- preserves _ (with_world _) => apply preserves_with_world; intros
  | |- preserves _ (for_each _ _) => apply preserves_for_each; [apply _..|intros]
  | |- preserves _ (for_fold _ _ _) => apply preserves_for_fold; [apply _..|intros]
  | |- preserves _ (ask _) => apply preserves_ask; apply _
  | |- preserves _ get_logical_time => apply preserves_get_logical_time; apply _
  | |- preserves _ random => apply evolves_random
  | |- preserves _ raw_input => apply evolves_raw_input
  | |- preserves _ (call _) => apply evolves_call
  | |- preserves _ (emit _) => apply evolves_emit
  | |- preserves _ (if ?b then _ else _) => destruct b
  | |- preserves _ (match ?x with _ => _ end) => destruct x
  end.

Ltac evolve := repeat evolve_step.

Section FuzzerSteps.
Context {ent : Entities} {model : SimulationModel}.
Import Fuzzer.
Implicit Types (self : Fuzzer.t) (w : world).

Ltac side := try (repeat split; (done || discriminate)).

Lemma check_dataplane_calls self :
  preserves (evolves (check_call Dataplane)) (check_dataplane self).
Proof. unfold check_dataplane, _log_input_event. evolve; side. Qed.

Lemma check_tcp_connections_calls self :
  preserves (evolves (check_call ControlChannel)) (check_tcp_connections self).
Proof.
  unfold check_tcp_connections, _log_input_event, self_topology.
  evolve; side.
Qed.

Lemma check_message_receipts_calls self :
  preserves (evolves (check_call MessageReceipts)) (check_message_receipts self).
Proof. unfold check_message_receipts, _log_input_event. evolve; side. Qed.

Lemma crash_switches_calls self :
  preserves (evolves (check_call SwitchFailures)) (crash_switches self).
Proof. unfold crash_switches, _log_input_event. evolve; side. Qed.

Lemma restart_switches_calls self crashed :
  preserves (evolves (check_call SwitchFailures)) (restart_switches self crashed).
Proof. unfold restart_switches, _log_input_event. evolve; side. Qed.

Lemma sever_links_calls self :
  preserves (evolves (check_call LinkFailures)) (sever_links self).
Proof.
  unfold sever_links, _log_input_event, link_endpoints. evolve; side.
Qed.

Lemma repair_links_calls self cut :
  preserves (evolves (check_call LinkFailures)) (repair_links self cut).
Proof.
  unfold repair_links, _log_input_event, link_endpoints. evolve; side.
Qed.

Lemma traffic_generator_generate_calls P traffic_type host :
  P (Generate traffic_type host) ->
  preserves (evolves P) (traffic_generator_generate traffic_type host).
Proof.
  intros HP w. unfold traffic_generator_generate.
  destruct (generate _ _ _ _) as [dp_event g].
  destruct (sim_step _ _) as [r s]. simpl.
  split; [|done]. exists [Generate traffic_type host]. split; [done|].
  by constructor.
Qed.

Lemma fuzz_traffic_calls self :
  preserves (evolves (check_call Traffic)) (fuzz_traffic self).
Proof.
  unfold fuzz_traffic, _log_input_event. evolve; side.
  apply traffic_generator_generate_calls. side.
Qed.

Lemma crash_controllers_calls self :
  preserves (evolves (check_call ControllerFailures)) (crash_controllers self).
Proof. unfold crash_controllers, _log_input_event. evolve; side. Qed.

Lemma reboot_controllers_calls self crashed :
  preserves (evolves (check_call ControllerFailures))
            (reboot_controllers self crashed).
Proof. unfold reboot_controllers, _log_input_event. evolve; side. Qed.

Lemma keepalive_calls polls :
  preserves (evolves (check_call Periodic)) (keepalive polls).
Proof. induction polls as [|n IH]; simpl; evolve; side. exact IH. Qed.

Lemma maybe_check_correspondence_calls self :
  preserves (evolves (check_call Periodic)) (maybe_check_correspondence self).
Proof.
  unfold maybe_check_correspondence. evolve; side. apply keepalive_calls.
Qed.

Lemma maybe_inject_trace_event_calls self :
  preserves (evolves (check_call Periodic)) (maybe_inject_trace_event self).
Proof. unfold maybe_inject_trace_event, _log_input_event. evolve; side. Qed.

End FuzzerSteps.

(** ** The order of the checks within a round *)

Section RoundOrder.
Context {ent : Entities} {model : SimulationModel}.
Import Fuzzer.
Implicit Types (self : Fuzzer.t) (w : world) (rank : check -> nat).

Lemma classified_app t1 t2 : classified (t1 ++ t2) = classified t1 ++ classified t2.
Proof. apply omap_app. Qed.

Lemma check_call_classified k t :
  Forall (check_call k) t -> Forall (fun c => c = k) (classified t).
Proof.
  induction 1 as [|a t [Ha _] _ IH]; [constructor|].
  unfold classified. simpl. destruct (check_of a) as [c|]; [|exact IH].
  constructor; [exact Ha|exact IH].
Qed.

Lemma staged_of_evolves rank k w w' :
  evolves (check_call k) w w' -> staged rank (rank k) (rank k) w w'.
Proof.
  intros ((t & E & F) & _). exists t. split; [done|].
  apply check_call_classified in F. unfold in_order, within. split.
  - induction F as [|c cs -> F IH]; constructor; [exact IH|].
    eapply Forall_impl; [exact F|]. intros c ->. done.
  - eapply Forall_impl; [exact F|]. intros c ->. lia.
Qed.

Lemma staged_same_trace rank lo hi w w' :
  w_trace w' = w_trace w -> staged rank lo hi w w'.
Proof.
  intros E. exists []. rewrite app_nil_r. split; [done|].
  split; constructor.
Qed.

Lemma staged_weaken rank lo hi lo' hi' w w' :
  (lo' <= lo)%nat -> (hi <= hi')%nat ->
  staged rank lo hi w w' -> staged rank lo' hi' w w'.
Proof.
  intros Hlo Hhi (t & E & O & W). exists t. split; [done|]. split; [done|].
  eapply Forall_impl; [exact W|]. simpl. intros c ?. lia.
Qed.

Lemma staged_seq rank lo1 hi1 lo2 hi2 w1 w2 w3 :
  (hi1 <= lo2)%nat ->
  staged rank lo1 hi1 w1 w2 -> staged rank lo2 hi2 w2 w3 ->
  staged rank (Nat.min lo1 lo2) (Nat.max hi1 hi2) w1 w3.
Proof.
  intros Hle (t1 & E1 & O1 & W1) (t2 & E2 & O2 & W2).
  exists (t1 ++ t2). rewrite E2, E1, app_assoc. split; [done|].
  unfold in_order, within in *. rewrite classified_app. split.
  - apply StronglySorted_app_2; [|done|done].
    intros c1 c2 H1 H2. rewrite Forall_forall in W1, W2.
    specialize (W1 _ H1). specialize (W2 _ H2). lia.
  - apply Forall_app. split.
    + eapply Forall_impl; [exact W1|]. simpl. intros c ?. lia.
    + eapply Forall_impl; [exact W2|]. simpl. intros c ?. lia.
Qed.

(** Sequencing two stages, the first ranked below the second; an error in
    the first leaves what it did. *)
Lemma preserves_bind_staged rank lo1 hi1 lo2 hi2 {A B}
    (m : M A) (k : A -> M B) :
  (hi1 <= lo2)%nat ->
  preserves (staged rank lo1 hi1) m ->
  (forall a, preserves (staged rank lo2 hi2) (k a)) ->
  preserves (staged rank (Nat.min lo1 lo2) (Nat.max hi1 hi2)) (m ≫= k).
Proof.
  intros Hle Hm Hk w. rewrite bind_unfold. specialize (Hm w).
  destruct (m w) as [[a|e] w']; simpl in *.
  - eapply staged_seq; [exact Hle|exact Hm|apply Hk].
  - eapply staged_weaken; [| |exact Hm]; lia.
Qed.

Lemma staged_check rank k {A} (m : M A) :
  preserves (evolves (check_call k)) m ->
  preserves (staged rank (rank k) (rank k)) m.
Proof. intros Hm w. apply staged_of_evolves, Hm. Qed.

Lemma check_switch_crashes_staged self :
  preserves (staged code_order 3 4) (check_switch_crashes self).
Proof.
  unfold check_switch_crashes.
  apply (preserves_bind_staged code_order 3 3 3 4); [lia| |intros crashed].
  { apply (staged_check code_order SwitchFailures), crash_switches_calls. }
  apply (preserves_bind_staged code_order 3 3 4 4); [lia| |intros _].
  { apply (staged_check code_order SwitchFailures), restart_switches_calls. }
  apply (preserves_bind_staged code_order 4 4 4 4); [lia| |intros cut].
  { apply (staged_check code_order LinkFailures), sever_links_calls. }
  apply (staged_check code_order LinkFailures), repair_links_calls.
Qed.

Lemma check_controllers_staged self :
  preserves (staged code_order 6 6) (check_controllers self).
Proof.
  unfold check_controllers.
  apply (preserves_bind_staged code_order 6 6 6 6); [lia| |intros crashed].
  { apply (staged_check code_order ControllerFailures), crash_controllers_calls. }
  apply (staged_check code_order ControllerFailures), reboot_controllers_calls.
Qed.

Lemma trigger_events_staged self :
  preserves (staged code_order 0 6) (trigger_events self).
Proof.
  unfold trigger_events.
  apply (preserves_bind_staged code_order 0 0 1 6); [lia| |intros _].
  { apply (staged_check code_order Dataplane), check_dataplane_calls. }
  apply (preserves_bind_staged code_order 1 1 2 6); [lia| |intros _].
  { apply (staged_check code_order ControlChannel), check_tcp_connections_calls. }
  apply (preserves_bind_staged code_order 2 2 3 6); [lia| |intros _].
  { apply (staged_check code_order MessageReceipts),
      check_message_receipts_calls. }
  apply (preserves_bind_staged code_order 3 4 5 6); [lia| |intros _].
  { apply check_switch_crashes_staged. }
  apply (preserves_bind_staged code_order 5 5 6 6); [lia| |intros _].
  { apply (staged_check code_order Traffic), fuzz_traffic_calls. }
  apply check_controllers_staged.
Qed.

Lemma round_staged self : preserves (staged code_order 0 7) (round self).
Proof.
  unfold round.
  apply (preserves_bind_staged code_order 0 0 0 7); [lia| |intros now].
  { intros w. by apply staged_same_trace. }
  apply (preserves_bind_staged code_order 0 0 0 7); [lia| |intros _].
  { intros w. by apply staged_same_trace. }
  apply (preserves_bind_staged code_order 0 6 7 7); [lia| |intros _].
  { apply trigger_events_staged. }
  apply (preserves_bind_staged code_order 7 7 7 7); [lia| |intros _].
  { apply (staged_check code_order Periodic), maybe_check_correspondence_calls. }
  apply (preserves_bind_staged code_order 7 7 7 7); [lia| |intros _].
  { apply (staged_check code_order Periodic), maybe_inject_trace_event_calls. }
  intros w. exists [Sleep (delay self)]. split; [done|]. split; constructor.
Qed.


End RoundOrder.

Section RoundOrderScenario.
Import Scenario.
#[local] Existing Instance entities.
#[local] Existing Instance model.


End RoundOrderScenario.

(** ** Dropping every dataplane event *)

Section DropEverything.
Context {ent : Entities} {model : SimulationModel}.
Import Fuzzer.
Implicit Types (self : Fuzzer.t) (w : world).

Lemma Qltb_false_at_zero (r rate : Q) :
  (rate == 0)%Q -> (0 <= r)%Q -> Qltb r rate = false.
Proof.
  intros Hrate Hr. unfold Qltb. apply negb_false_iff.
  apply Qle_bool_iff. rewrite Hrate. exact Hr.
Qed.

Lemma Qltb_true_at_one (r rate : Q) :
  (rate == 1)%Q -> (r < 1)%Q -> Qltb r rate = true.
Proof.
  intros Hrate Hr. unfold Qltb. apply negb_true_iff.
  destruct (Qle_bool rate r) eqn:E; [|done].
  apply Qle_bool_iff in E. rewrite Hrate in E.
  exfalso. by apply (Qlt_not_le r 1).
Qed.

Section WithRates.
Context (self : Fuzzer.t).
Context (no_delay : (dataplane_delay_rate (params self) == 0)%Q).
Context (all_drop : (dataplane_drop_rate (params self) == 1)%Q).
(** [random()] returns a float in [0.0, 1.0). *)
Context (random_range :
  forall g, (0 <= (random_random g).1)%Q /\ ((random_random g).1 < 1)%Q).
(** [drop_dp_event] returns. *)
Context (drop_returns :
  forall dp_event s, (sim_step (DropDpEvent dp_event) s).1 = Ok tt).

Lemma check_dataplane_loop_drops events : forall w,
  let body := fun dp_event =>
    r ← random;
    if Qltb r (dataplane_delay_rate (params self)) then
      call (DelayDpEvent dp_event)
    else
      r' ← random;
      if Qltb r' (dataplane_drop_rate (params self)) then
        call (DropDpEvent dp_event) ;;
        _log_input_event self (DataplaneDrop (dp_fingerprint dp_event))
      else
        ok ← ask (fun s => ok_to_send s dp_event);
        if ok : bool then
          call (PermitDpEvent dp_event) ;;
          _log_input_event self (DataplanePermit (dp_fingerprint dp_event))
        else mret tt in
  (for_each events body w).1 = Ok tt /\
  w_trace (for_each events body w).2 = w_trace w ++ dropped self events.
Proof.
  induction events as [|e events IH]; intros w body.
  - simpl. by rewrite app_nil_r.
  - simpl. rewrite bind_unfold.
    assert (exists w', body e w = (Ok tt, w') /\
              w_trace w' = w_trace w ++ dropped self [e]) as (w' & Eb & Htr).
    { subst body. cbv beta. rewrite bind_unfold. unfold random at 1.
      pose proof (random_range (w_random w)) as [H0 _].
      destruct (random_random (w_random w)) as [r g]. simpl in H0.
      rewrite (Qltb_false_at_zero r _ no_delay H0).
      rewrite bind_unfold. unfold random at 1. cbn [w_random].
      pose proof (random_range g) as [_ H1].
      destruct (random_random g) as [r' g']. simpl in H1.
      rewrite (Qltb_true_at_one r' _ all_drop H1).
      rewrite bind_unfold. unfold call at 1. cbn [w_simulation].
      pose proof (drop_returns e (w_simulation w)) as Hdrop.
      destruct (sim_step (DropDpEvent e) (w_simulation w)) as [[[]|err] s];
        [clear Hdrop|done].
      unfold _log_input_event, dropped.
      destruct (_input_logger self); (eexists; split; [reflexivity|]); simpl.
      - by rewrite <- app_assoc.
      - done. }
    rewrite Eb.
    destruct (IH w') as [IHok IHtr]. fold body in IHok, IHtr.
    split; [exact IHok|]. rewrite IHtr, Htr. unfold dropped. simpl.
    rewrite app_nil_r, <- app_assoc. done.
Qed.

Lemma check_dataplane_drops w :
  (check_dataplane self w).1 = Ok tt /\
  w_trace (check_dataplane self w).2
  = w_trace w ++ dropped self (queued_dataplane_events (w_simulation w)).
Proof.
  unfold check_dataplane. rewrite bind_unfold. unfold ask at 1.
  apply check_dataplane_loop_drops.
Qed.

Lemma round_drops w :
  exists rest,
    w_trace (round self w).2
    = w_trace w ++ dropped self (queued_dataplane_events (w_simulation w))
      ++ rest.
Proof.
  unfold round, trigger_events. rewrite bind_unfold. unfold get_logical_time at 1.
  rewrite bind_unfold. unfold set_logical_time at 1.
  set (w1 := mkWorld _ _ _ _ _).
  rewrite bind_unfold. rewrite bind_unfold.
  destruct (check_dataplane_drops w1) as [Hok Htr].
  destruct (check_dataplane self w1) as [[[]|err] w2] eqn:E; simpl in Hok, Htr;
    [|done].
  set (rest_of_round := (check_tcp_connections self ;; _)).
  set (end_of_round := (maybe_check_correspondence self ;; _)).
  assert (exists t, w_trace ((rest_of_round ≫= fun _ => end_of_round) w2).2
                    = w_trace w2 ++ t) as [t Ht].
  { assert (preserves (evolves (fun _ => True))
                      (rest_of_round ≫= fun _ => end_of_round)) as Hp.
    { subst rest_of_round end_of_round.
      pose proof (fun k => evolves_weaken (check_call k) (fun _ => True)) as Hw.
      apply preserves_bind; [apply _| |intros _].
      - apply preserves_bind; [apply _| |intros _].
        { intros w0. eapply Hw; [done|apply check_tcp_connections_calls]. }
        apply preserves_bind; [apply _| |intros _].
        { intros w0. eapply Hw; [done|apply check_message_receipts_calls]. }
        apply preserves_bind; [apply _| |intros _].
        { unfold check_switch_crashes.
          apply preserves_bind; [apply _| |intros ?].
          { intros w0. eapply Hw; [done|apply crash_switches_calls]. }
          apply preserves_bind; [apply _| |intros _].
          { intros w0. eapply Hw; [done|apply restart_switches_calls]. }
          apply preserves_bind; [apply _| |intros ?].
          { intros w0. eapply Hw; [done|apply sever_links_calls]. }
          intros w0. eapply Hw; [done|apply repair_links_calls]. }
        apply preserves_bind; [apply _| |intros _].
        { intros w0. eapply Hw; [done|apply fuzz_traffic_calls]. }
        unfold check_controllers.
        apply preserves_bind; [apply _| |intros ?].
        { intros w0. eapply Hw; [done|apply crash_controllers_calls]. }
        intros w0. eapply Hw; [done|apply reboot_controllers_calls].
      - apply preserves_bind; [apply _| |intros _].
        { intros w0. eapply Hw; [done|apply maybe_check_correspondence_calls]. }
        apply preserves_bind; [apply _| |intros _].
        { intros w0. eapply Hw; [done|apply maybe_inject_trace_event_calls]. }
        by apply evolves_emit. }
    destruct (Hp w2) as ((t & Ht & _) & _). by exists t. }
  exists t. rewrite bind_unfold in Ht.
  destruct (rest_of_round w2) as [[[]|err] w3]; simpl in *;
    rewrite Ht, Htr; subst w1; simpl; by rewrite <- app_assoc.
Qed.

End WithRates.


End DropEverything.

Section DropEverythingScenario.
Import Scenario.
#[local] Existing Instance entities.
#[local] Existing Instance model.



End DropEverythingScenario.

(** ** Blocking control channels *)

Section ControlChannels.
Context {ent : Entities} {model : SimulationModel}.
Import Fuzzer.

(** Whatever is drawn, [check_tcp_connections] makes no call and writes
    no record: a draw below a rate stops at [self.topology]. *)
Lemma check_tcp_connections_never_calls (self : Fuzzer.t) w :
  w_trace (check_tcp_connections self w).2 = w_trace w.
Proof.
  assert (preserves (evolves (fun _ => False)) (check_tcp_connections self)) as Hp.
  { unfold check_tcp_connections, self_topology. evolve. }
  destruct (Hp w) as ((t & E & F) & _).
  destruct t as [|a t]; [by rewrite app_nil_r in E|].
  by apply Forall_cons in F as [[] _].
Qed.

End ControlChannels.

Section ControlChannelsScenario.
Import Scenario.
#[local] Existing Instance entities.
#[local] Existing Instance model.

(** C8 at the failing input: one unblocked control channel and
    [controlplane_block_rate = 1.0].  The draw is below the rate, the
    lookup of [self.topology] raises, the connection is not blocked,
    nothing is logged, and the round ends with the error. *)
Theorem block_connection_raises :
  let self := fuzzer block_everything 1 true in
  let w := start self one_channel in
  unblocked_controller_connections (w_simulation w) = [(1, 7)]%nat /\
  (Fuzzer.check_tcp_connections self w).1 = Raise AttributeError /\
  w_trace (Fuzzer.check_tcp_connections self w).2 = [] /\
  (Fuzzer.round self w).1 = Raise AttributeError /\
  w_trace (Fuzzer.round self w).2 = [] /\
  unblocked_controller_connections (w_simulation (Fuzzer.round self w).2)
  = [(1, 7)]%nat.
Proof.
  intros self w. repeat split; vm_compute; reflexivity.
Qed.

End ControlChannelsScenario.

(** ** Closing the input logger *)

Section FuzzerLoop.
Context {ent : Entities} {model : SimulationModel}.
Import Fuzzer.
Implicit Types (self : Fuzzer.t) (w : world).

Lemma check_call_body k a : check_call k a -> body_call a.
Proof. by intros (_ & ? & _). Qed.

(** What a round does once the counter is advanced. *)
Lemma round_tail_calls self :
  preserves (evolves body_call)
    (trigger_events self ;; maybe_check_correspondence self ;;
     maybe_inject_trace_event self ;; emit (Sleep (delay self))).
Proof.
  pose proof (fun k => evolves_weaken (check_call k) body_call) as Hw.
  pose proof check_call_body as Hb.
  apply preserves_bind; [apply _| |intros _].
  { unfold trigger_events.
    apply preserves_bind; [apply _| |intros _].
    { intros w0. eapply Hw; [apply Hb|apply check_dataplane_calls]. }
    apply preserves_bind; [apply _| |intros _].
    { intros w0. eapply Hw; [apply Hb|apply check_tcp_connections_calls]. }
    apply preserves_bind; [apply _| |intros _].
    { intros w0. eapply Hw; [apply Hb|apply check_message_receipts_calls]. }
    apply preserves_bind; [apply _| |intros _].
    { unfold check_switch_crashes.
      apply preserves_bind; [apply _| |intros ?].
      { intros w0. eapply Hw; [apply Hb|apply crash_switches_calls]. }
      apply preserves_bind; [apply _| |intros _].
      { intros w0. eapply Hw; [apply Hb|apply restart_switches_calls]. }
      apply preserves_bind; [apply _| |intros ?].
      { intros w0. eapply Hw; [apply Hb|apply sever_links_calls]. }
      intros w0. eapply Hw; [apply Hb|apply repair_links_calls]. }
    apply preserves_bind; [apply _| |intros _].
    { intros w0. eapply Hw; [apply Hb|apply fuzz_traffic_calls]. }
    unfold check_controllers.
    apply preserves_bind; [apply _| |intros ?].
    { intros w0. eapply Hw; [apply Hb|apply crash_controllers_calls]. }
    intros w0. eapply Hw; [apply Hb|apply reboot_controllers_calls]. }
  apply preserves_bind; [apply _| |intros _].
  { intros w0. eapply Hw; [apply Hb|apply maybe_check_correspondence_calls]. }
  apply preserves_bind; [apply _| |intros _].
  { intros w0. eapply Hw; [apply Hb|apply maybe_inject_trace_event_calls]. }
  by apply evolves_emit.
Qed.

Lemma round_unfold self w :
  round self w
  = (trigger_events self ;; maybe_check_correspondence self ;;
     maybe_inject_trace_event self ;; emit (Sleep (delay self)))
      (mkWorld (w_simulation w) (w_random w) (w_logical_time w + 1)
               (w_stdin w) (w_trace w)).
Proof. reflexivity. Qed.

(** A round, completed or not, adds one to the counter and makes no call
    on the logger's [close]. *)
Lemma round_spec self w :
  (exists t, w_trace (round self w).2 = w_trace w ++ t /\ Forall body_call t) /\
  w_logical_time (round self w).2 = w_logical_time w + 1.
Proof.
  rewrite round_unfold.
  set (w1 := mkWorld _ _ _ _ _).
  destruct (round_tail_calls self w1) as ((t & E & F) & T & _).
  split; [by exists t|]. rewrite T. done.
Qed.

Lemma while_rounds_S self e fuel w :
  while_rounds self e (S fuel) w
  = if w_logical_time w <? e then
      match round self w with
      | (Ok _, w1) => while_rounds self e fuel w1
      | (Raise err, w1) => (Raise err, w1)
      end
    else (Ok tt, w).
Proof.
  simpl. rewrite bind_unfold. unfold get_logical_time.
  destruct (w_logical_time w <? e); [|done]. by rewrite bind_unfold.
Qed.

Lemma while_rounds_spec self e fuel : forall w,
  (exists t, w_trace (while_rounds self e fuel w).2 = w_trace w ++ t /\
             Forall body_call t) /\
  ((while_rounds self e fuel w).1 = Ok tt ->
   (Z.to_nat (e - w_logical_time w) <= fuel)%nat ->
   e <= w_logical_time (while_rounds self e fuel w).2).
Proof.
  induction fuel as [|fuel IH]; intros w.
  - simpl. split; [exists []; by rewrite app_nil_r|]. lia.
  - rewrite while_rounds_S.
    destruct (w_logical_time w <? e) eqn:Hlt.
    + apply Z.ltb_lt in Hlt.
      destruct (round_spec self w) as ((t1 & E1 & F1) & T1).
      destruct (round self w) as [[[]|err] w1]; simpl in *.
      * destruct (IH w1) as ((t2 & E2 & F2) & Hexit). split.
        { exists (t1 ++ t2). rewrite E2, E1, app_assoc. split; [done|].
          by apply Forall_app. }
        intros Hok Hfuel. apply Hexit; [done|]. rewrite T1. lia.
      * split; [by exists t1|]. done.
    + apply Z.ltb_ge in Hlt. simpl.
      split; [exists []; by rewrite app_nil_r|]. lia.
Qed.

(** More fuel than [end_time - logical_time] changes nothing. *)
Lemma while_rounds_fuel self e fuel : forall w,
  (Z.to_nat (e - w_logical_time w) <= fuel)%nat ->
  while_rounds self e fuel w
  = while_rounds self e (Z.to_nat (e - w_logical_time w)) w.
Proof.
  induction fuel as [|fuel IH]; intros w Hfuel.
  - by replace (Z.to_nat (e - w_logical_time w)) with 0%nat by lia.
  - destruct (Z.to_nat (e - w_logical_time w)) as [|n] eqn:En.
    + rewrite while_rounds_S.
      destruct (w_logical_time w <? e) eqn:Hlt; [|done].
      apply Z.ltb_lt in Hlt. lia.
    + rewrite !while_rounds_S.
      destruct (w_logical_time w <? e) eqn:Hlt; [|done].
      destruct (round_spec self w) as (_ & T1).
      destruct (round self w) as [[[]|err] w1]; simpl in *; [|done].
      assert (Z.to_nat (e - w_logical_time w1) = n) as En1 by lia.
      rewrite IH by lia. by rewrite En1.
Qed.

Lemma fuzzer_loop_closes self w :
  _input_logger self = true ->
  exists t, w_trace (loop self w).2 = w_trace w ++ t ++ [LoggerClose] /\
            Forall body_call t.
Proof.
  intros Hlogger. unfold loop, with_world, try_finally. rewrite Hlogger.
  set (e := end_time self (w_logical_time w)).
  destruct (while_rounds_spec self e (Z.to_nat (e - w_logical_time w)) w)
    as ((t & E & F) & _).
  destruct (while_rounds self e _ w) as [r w1]. simpl in *.
  exists t. rewrite E, <- app_assoc. done.
Qed.

End FuzzerLoop.

Section InteractiveLoop.
Context {ent : Entities} {model : SimulationModel}.
Import Interactive.
Implicit Types (self : Interactive.t) (w : world).

Ltac side := try (repeat split; (done || discriminate)).

Lemma suffix_shorter {A} (l1 l2 : list A) :
  l1 `suffix_of` l2 -> (length l1 <= length l2)%nat.
Proof. intros [k ->]. rewrite length_app. lia. Qed.

Lemma invariant_check_prompt_calls self :
  preserves (evolves body_call) (invariant_check_prompt self).
Proof. unfold invariant_check_prompt, invariant_check. evolve; side. Qed.

Lemma feed_trace_events_calls self fuel :
  preserves (evolves body_call) (feed_trace_events self fuel).
Proof.
  induction fuel as [|fuel IH]; simpl; unfold _log_input_event; evolve; side.
  all: exact IH.
Qed.

Lemma dataplane_trace_prompt_calls self :
  preserves (evolves body_call) (dataplane_trace_prompt self).
Proof.
  unfold dataplane_trace_prompt. evolve; side. apply feed_trace_events_calls.
Qed.

Lemma interactive_check_dataplane_calls self :
  preserves (evolves body_call) (check_dataplane self).
Proof. unfold check_dataplane, _log_input_event. evolve; side. Qed.

Lemma interactive_check_message_receipts_calls self :
  preserves (evolves body_call) (check_message_receipts self).
Proof. unfold check_message_receipts, _log_input_event. evolve; side. Qed.

(** The prompt for an invariant check reads at least one line. *)
Lemma invariant_check_prompt_reads self w :
  match invariant_check_prompt self w with
  | (Ok _, w') => (length (w_stdin w') < length (w_stdin w))%nat
  | (Raise _, _) => True
  end.
Proof.
  unfold invariant_check_prompt. rewrite bind_unfold. unfold raw_input at 1.
  destruct (w_stdin w) as [|line rest] eqn:E; [done|].
  set (w1 := mkWorld _ _ _ _ _).
  match goal with |- context [?k w1] => set (m := k) end.
  assert (preserves (evolves body_call) m) as Hm.
  { subst m. unfold invariant_check. evolve; side. }
  destruct (Hm w1) as (_ & _ & Hs). apply suffix_shorter in Hs.
  destruct (m w1) as [[[]|err] w2]; [|done]. simpl in *. lia.
Qed.

Lemma loop_body_unfold self w :
  loop_body self w
  = turn_tail self
      (mkWorld (w_simulation w) (w_random w) (w_logical_time w + 1)
               (w_stdin w) (w_trace w ++ [Sleep (5 # 100)])).
Proof. reflexivity. Qed.

Lemma turn_tail_calls self : preserves (evolves body_call) (turn_tail self).
Proof.
  unfold turn_tail.
  apply preserves_bind; [apply _|apply invariant_check_prompt_calls|intros _].
  apply preserves_bind; [apply _|apply dataplane_trace_prompt_calls|intros _].
  apply preserves_bind;
    [apply _|apply interactive_check_dataplane_calls|intros _].
  apply preserves_bind;
    [apply _|apply interactive_check_message_receipts_calls|intros _].
  evolve.
Qed.

(** A turn makes no call on the logger's [close], and one that completes
    has read at least one line. *)
Lemma loop_body_spec self w :
  match loop_body self w with
  | (r, w') =>
      (exists t, w_trace w' = w_trace w ++ t /\ Forall body_call t) /\
      (length (w_stdin w') <= length (w_stdin w))%nat /\
      (forall c, r = Ok c -> (length (w_stdin w') < length (w_stdin w))%nat)
  end.
Proof.
  rewrite loop_body_unfold. set (w1 := mkWorld _ _ _ _ _).
  destruct (turn_tail_calls self w1) as ((t & E & F) & _ & Hs).
  apply suffix_shorter in Hs.
  assert (forall c, (turn_tail self w1).1 = Ok c ->
            (length (w_stdin (turn_tail self w1).2) < length (w_stdin w1))%nat)
    as Hstrict.
  { intros c. unfold turn_tail. rewrite bind_unfold.
    pose proof (invariant_check_prompt_reads self w1) as Hr.
    destruct (invariant_check_prompt self w1) as [[[]|err] w2]; [|done].
    match goal with |- context [?k w2] => set (m := k) end.
    assert (preserves (evolves body_call) m) as Hm.
    { subst m.
      apply preserves_bind; [apply _|apply dataplane_trace_prompt_calls|intros _].
      apply preserves_bind;
        [apply _|apply interactive_check_dataplane_calls|intros _].
      apply preserves_bind;
        [apply _|apply interactive_check_message_receipts_calls|intros _].
      evolve. }
    destruct (Hm w2) as (_ & _ & Hs2). apply suffix_shorter in Hs2.
    intros _. lia. }
  destruct (turn_tail self w1) as [r w']. simpl in *. split; [|split].
  - exists (Sleep (5 # 100) :: t). split.
    + rewrite E. subst w1. simpl. by rewrite <- app_assoc.
    + constructor; [done|exact F].
  - exact Hs.
  - intros c ->. by apply (Hstrict c).
Qed.

Lemma while_true_S self fuel w :
  while_true self (S fuel) w
  = match loop_body self w with
    | (Ok true, w1) => while_true self fuel w1
    | (Ok false, w1) => (Ok tt, w1)
    | (Raise err, w1) => (Raise err, w1)
    end.
Proof.
  simpl. rewrite bind_unfold.
  by destruct (loop_body self w) as [[[]|err] w1].
Qed.

Lemma while_true_calls self fuel : forall w,
  exists t, w_trace (while_true self fuel w).2 = w_trace w ++ t /\
            Forall body_call t.
Proof.
  induction fuel as [|fuel IH]; intros w.
  - exists []. simpl. by rewrite app_nil_r.
  - rewrite while_true_S. pose proof (loop_body_spec self w) as Hb.
    destruct (loop_body self w) as [[[]|err] w1];
      destruct Hb as ((t1 & E1 & F1) & _); simpl; try by exists t1.
    destruct (IH w1) as (t2 & E2 & F2).
    exists (t1 ++ t2). rewrite E2, E1, app_assoc. split; [done|].
    by apply Forall_app.
Qed.

(** With more turns allowed than there are lines of input, the number of
    turns allowed does not matter. *)
Lemma while_true_fuel self bound : forall w fuel1 fuel2,
  (length (w_stdin w) < fuel1 <= bound)%nat ->
  (length (w_stdin w) < fuel2 <= bound)%nat ->
  while_true self fuel1 w = while_true self fuel2 w.
Proof.
  induction bound as [|bound IH]; intros w fuel1 fuel2 H1 H2; [lia|].
  destruct fuel1 as [|fuel1]; [lia|]. destruct fuel2 as [|fuel2]; [lia|].
  rewrite !while_true_S. pose proof (loop_body_spec self w) as Hb.
  destruct (loop_body self w) as [[[]|err] w1]; try done.
  destruct Hb as (_ & _ & Hs). specialize (Hs true eq_refl).
  apply IH; lia.
Qed.

Lemma interactive_loop_closes self w :
  _input_logger self = true ->
  exists t, w_trace (loop self w).2 = w_trace w ++ t ++ [LoggerClose] /\
            Forall body_call t.
Proof.
  intros Hlogger. unfold loop, with_world, try_finally. rewrite Hlogger.
  destruct (while_true_calls self (S (length (w_stdin w))) w) as (t & E & F).
  destruct (while_true self _ w) as [r w1]. simpl in *.
  exists t. rewrite E, <- app_assoc. done.
Qed.

End InteractiveLoop.

Section TracePrompt.
Context {ent : Entities} {model : SimulationModel}.
Import Interactive.
Implicit Types (self : Interactive.t) (w : world).

Lemma feed_one_calls self : preserves (evolves body_call) (feed_one self).
Proof.
  unfold feed_one, _log_input_event. evolve; repeat split; done || discriminate.
Qed.

Lemma feed_trace_events_S self fuel w :
  feed_trace_events self (S fuel) w
  = match w_stdin w with
    | [] => (Raise EOFError, w)
    | answer :: rest =>
        let w1 := mkWorld (w_simulation w) (w_random w) (w_logical_time w)
                          rest (w_trace w) in
        if PyStr.declines_default answer "n" then
          match feed_one self w1 with
          | (Ok _, w2) => feed_trace_events self fuel w2
          | (Raise err, w2) => (Raise err, w2)
          end
        else (Ok tt, w1)
    end.
Proof.
  simpl. rewrite bind_unfold. unfold raw_input.
  destruct (w_stdin w) as [|answer rest]; [done|]. cbv zeta.
  destruct (PyStr.declines_default answer "n"); [|done].
  unfold feed_one. rewrite !bind_unfold. unfold ask. rewrite !bind_unfold.
  unfold call. cbn [w_simulation].
  destruct (sim_step InjectTraceEvent (w_simulation w)) as [[[]|err] s];
    [|done].
  rewrite ?bind_unfold.
  by destruct (_log_input_event self _ _) as [[[]|err] w2].
Qed.

(** The trace prompt reads a line per turn: more turns than lines are
    never taken. *)
Lemma feed_trace_events_fuel self bound : forall w fuel1 fuel2,
  (length (w_stdin w) < fuel1 <= bound)%nat ->
  (length (w_stdin w) < fuel2 <= bound)%nat ->
  feed_trace_events self fuel1 w = feed_trace_events self fuel2 w.
Proof.
  induction bound as [|bound IH]; intros w fuel1 fuel2 H1 H2; [lia|].
  destruct fuel1 as [|fuel1]; [lia|]. destruct fuel2 as [|fuel2]; [lia|].
  rewrite !feed_trace_events_S.
  destruct (w_stdin w) as [|answer rest] eqn:E; [done|]. cbv zeta.
  destruct (PyStr.declines_default answer "n"); [|done].
  set (w1 := mkWorld _ _ _ _ _).
  destruct (feed_one_calls self w1) as (_ & _ & Hs).
  apply suffix_shorter in Hs.
  destruct (feed_one self w1) as [[[]|err] w2]; [|done].
  simpl in *. apply IH; lia.
Qed.

End TracePrompt.

Section LoggerClose.
Context {ent : Entities} {model : SimulationModel}.

Lemma body_calls_exclude_close (t : list action) :
  Forall body_call t -> LoggerClose ∉ t.
Proof.
  intros F Hin. rewrite Forall_forall in F. by apply (F _ Hin).
Qed.

(** C9: when the fuzzer, or the interactive flow, was built with an
    input logger, a run of its loop calls the logger's [close] exactly
    once, as the last thing it does, whether the loop ran out of rounds
    (or the operator ended the session) or a round raised an error.  The
    loops do end: allowing more rounds than the round budget, or more
    turns than there are lines of input, changes nothing. *)
Theorem input_logger_closed_exactly_once :
  (forall (self : Fuzzer.t) (w : world),
     Fuzzer._input_logger self = true ->
     exists t, w_trace (Fuzzer.loop self w).2 = w_trace w ++ t ++ [LoggerClose] /\
               LoggerClose ∉ t) /\
  (forall (self : Interactive.t) (w : world),
     Interactive._input_logger self = true ->
     exists t, w_trace (Interactive.loop self w).2
               = w_trace w ++ t ++ [LoggerClose] /\
               LoggerClose ∉ t) /\
  (forall (self : Fuzzer.t) (w : world) (fuel : nat),
     let e := Fuzzer.end_time self (w_logical_time w) in
     (Z.to_nat (e - w_logical_time w) <= fuel)%nat ->
     Fuzzer.while_rounds self e fuel w
     = Fuzzer.while_rounds self e (Z.to_nat (e - w_logical_time w)) w) /\
  (forall (self : Interactive.t) (w : world) (fuel : nat),
     (length (w_stdin w) < fuel)%nat ->
     Interactive.while_true self fuel w
     = Interactive.while_true self (S (length (w_stdin w))) w).
Proof.
  split; [|split; [|split]].
  - intros self w Hlogger.
    destruct (fuzzer_loop_closes self w Hlogger) as (t & E & F).
    exists t. split; [done|]. by apply body_calls_exclude_close.
  - intros self w Hlogger.
    destruct (interactive_loop_closes self w Hlogger) as (t & E & F).
    exists t. split; [done|]. by apply body_calls_exclude_close.
  - intros self w fuel e Hfuel. by apply while_rounds_fuel.
  - intros self w fuel Hfuel. apply (while_true_fuel self fuel); lia.
Qed.

End LoggerClose.

Section LoggerCloseScenario.
Import Scenario.
#[local] Existing Instance entities.
#[local] Existing Instance model.

(** The two ways out of the fuzzer's loop: the round budget, and an
    error (here the one of [check_tcp_connections]). *)
Lemma fuzzer_loop_exits_closed :
  let self := fuzzer drop_everything 2 true in
  let self' := fuzzer block_everything 3 true in
  Fuzzer.loop self (start self two_packets)
  = (Ok tt,
     mkWorld (mkNetwork [] [] [] [] [] [] [] [] [] [] [] false true)
             4%nat 2 []
             [DropDpEvent 5%nat; LogInputEvent (DataplaneDrop 5%nat);
              DropDpEvent 6%nat; LogInputEvent (DataplaneDrop 6%nat);
              Sleep (1 # 10); Sleep (1 # 10); LoggerClose]) /\
  (Fuzzer.loop self' (start self' one_channel)).1 = Raise AttributeError /\
  w_trace (Fuzzer.loop self' (start self' one_channel)).2 = [LoggerClose].
Proof. intros self self'. repeat split; vm_compute; reflexivity. Qed.

(** The ways out of the interactive loop: the operator declines another
    round, or the input ends. *)
Lemma interactive_loop_exits_closed :
  let self := Interactive.init true in
  let w answers := Interactive.initial_world (model := model)
                     two_packets 0%nat answers in
  (Interactive.loop self (w ["n"; "d"; ""; "no"]%string)).1 = Ok tt /\
  w_trace (Interactive.loop self (w ["n"; "d"; ""; "no"]%string)).2
  = [Sleep (5 # 100); DropDpEvent 5%nat; LogInputEvent (DataplaneDrop 5%nat);
     PermitDpEvent 6%nat; LogInputEvent (DataplanePermit 6%nat);
     LoggerClose] /\
  (Interactive.loop self (w ["y"; "l"]%string)).1 = Raise AttributeError /\
  w_trace (Interactive.loop self (w ["y"; "l"]%string)).2
  = [Sleep (5 # 100); LoggerClose] /\
  (Interactive.loop self (w ["n"]%string)).1 = Raise EOFError /\
  w_trace (Interactive.loop self (w ["n"]%string)).2
  = [Sleep (5 # 100); LoggerClose].
Proof. intros self w. repeat split; vm_compute; reflexivity. Qed.

Lemma input_logger_closed_exactly_once_witness :
  let self := fuzzer block_everything 3 true in
  exists t, w_trace (Fuzzer.loop self (start self one_channel)).2
            = w_trace (start self one_channel) ++ t ++ [LoggerClose] /\
            LoggerClose ∉ t.
Proof.
  intros self.
  apply (proj1 (@input_logger_closed_exactly_once entities model)).
  reflexivity.
Defined.

End LoggerCloseScenario.

(** ** Determinism of the fuzzer *)

Section Respects.
Context {ent : Entities} {model : SimulationModel}.
Implicit Types (w : world).

Lemma no_sleep_snoc (t : list action) a :
  no_sleep (t ++ [a]) = no_sleep t ++ (if is_sleep a then [] else [a]).
Proof.
  unfold no_sleep. rewrite filter_app. f_equal.
  rewrite filter_cons. destruct (is_sleep a); by case_decide.
Qed.

Lemma logged_cons a (t : list action) :
  logged (a :: t)
  = match a with LogInputEvent r => [r] | _ => [] end ++ logged t.
Proof. by destruct a. Qed.

Lemma logged_no_sleep (t : list action) : logged (no_sleep t) = logged t.
Proof.
  induction t as [|a t IH]; [done|].
  unfold no_sleep in *. rewrite filter_cons.
  case_decide as Hd; rewrite !logged_cons, IH; [done|].
  destruct a; try done; exfalso; by apply Hd.
Qed.

Ltac agree :=
  split; [try done|];
  unfold same_but_sleep; simpl; rewrite ?no_sleep_snoc; simpl;
  rewrite ?app_nil_r; repeat split; congruence.

Lemma respects_ret {A} (a : A) : respects (mret a) (mret a).
Proof. by intros w1 w2 H. Qed.

Lemma respects_raise {A} e : respects (raise (A := A) e) (raise e).
Proof. by intros w1 w2 H. Qed.

Lemma respects_raise_bind {A B} e (k1 k2 : A -> M B) :
  respects (raise e ≫= k1) (raise e ≫= k2).
Proof. by intros w1 w2 H. Qed.

Lemma respects_bind {A B} (m1 m2 : M A) (k1 k2 : A -> M B) :
  respects m1 m2 -> (forall a, respects (k1 a) (k2 a)) ->
  respects (m1 ≫= k1) (m2 ≫= k2).
Proof.
  intros Hm Hk w1 w2 H. rewrite !bind_unfold.
  destruct (Hm w1 w2 H) as [Hr Hw].
  destruct (m1 w1) as [[a1|e1] w1'], (m2 w2) as [[a2|e2] w2'];
    simpl in *; try done.
  - injection Hr as ->. by apply Hk.
  - injection Hr as ->. by split.
Qed.

Lemma respects_for_each {X} (xs : list X) (b1 b2 : X -> M unit) :
  (forall x, respects (b1 x) (b2 x)) ->
  respects (for_each xs b1) (for_each xs b2).
Proof.
  intros Hb. induction xs as [|x xs IH]; simpl.
  - apply respects_ret.
  - apply respects_bind; [apply Hb|]. intros _. apply IH.
Qed.

Lemma respects_for_fold {X S} (xs : list X) (b1 b2 : X -> S -> M S) :
  (forall x acc, respects (b1 x acc) (b2 x acc)) ->
  forall acc, respects (for_fold xs acc b1) (for_fold xs acc b2).
Proof.
  intros Hb. induction xs as [|x xs IH]; intros acc; simpl.
  - apply respects_ret.
  - apply respects_bind; [apply Hb|]. intros acc'. apply IH.
Qed.

Lemma respects_ask {A} (f : Sim -> A) : respects (ask f) (ask f).
Proof.
  intros w1 w2 (Hs & Hr & Ht & Hi & Htr). unfold ask. simpl. rewrite Hs.
  by repeat split.
Qed.

Lemma respects_get_logical_time : respects get_logical_time get_logical_time.
Proof.
  intros w1 w2 (Hs & Hr & Ht & Hi & Htr). unfold get_logical_time. simpl.
  rewrite Ht. by repeat split.
Qed.

Lemma respects_set_logical_time t :
  respects (set_logical_time t) (set_logical_time t).
Proof.
  intros w1 w2 (Hs & Hr & Ht & Hi & Htr). unfold set_logical_time. agree.
Qed.

Lemma respects_random : respects random random.
Proof.
  intros w1 w2 (Hs & Hr & Ht & Hi & Htr). unfold random. rewrite Hr.
  destruct (random_random (w_random w2)) as [r g]. agree.
Qed.

Lemma respects_call a : respects (call a) (call a).
Proof.
  intros w1 w2 (Hs & Hr & Ht & Hi & Htr). unfold call. rewrite Hs.
  destruct (sim_step a (w_simulation w2)) as [r s]. agree.
Qed.

Lemma respects_emit a : respects (emit a) (emit a).
Proof.
  intros w1 w2 (Hs & Hr & Ht & Hi & Htr). unfold emit. agree.
Qed.

Lemma respects_sleep d1 d2 : respects (emit (Sleep d1)) (emit (Sleep d2)).
Proof.
  intros w1 w2 (Hs & Hr & Ht & Hi & Htr). unfold emit. agree.
Qed.

Lemma respects_generate traffic_type host :
  respects (Fuzzer.traffic_generator_generate traffic_type host)
           (Fuzzer.traffic_generator_generate traffic_type host).
Proof.
  intros w1 w2 (Hs & Hr & Ht & Hi & Htr).
  unfold Fuzzer.traffic_generator_generate. rewrite Hs, Hr.
  destruct (generate _ _ _ _) as [dp_event g].
  destruct (sim_step _ _) as [r s]. agree.
Qed.

Lemma respects_try_finally {A} (b1 b2 : M A) (f1 f2 : M unit) :
  respects b1 b2 -> respects f1 f2 ->
  respects (try_finally b1 f1) (try_finally b2 f2).
Proof.
  intros Hb Hf w1 w2 H. unfold try_finally.
  destruct (Hb w1 w2 H) as [Hr Hw].
  destruct (b1 w1) as [r1 w1'], (b2 w2) as [r2 w2']. simpl in *. subst r2.
  destruct (Hf w1' w2' Hw) as [Hr' Hw'].
  destruct (f1 w1') as [[[]|e1] w1''], (f2 w2') as [[[]|e2] w2''];
    simpl in *; try done.
  by injection Hr' as ->.
Qed.

Lemma respects_with_world {A} (f1 f2 : world -> M A) :
  (forall w1 w2, same_but_sleep w1 w2 -> respects (f1 w1) (f2 w2)) ->
  respects (with_world f1) (with_world f2).
Proof. intros Hf w1 w2 H. by apply Hf. Qed.

End Respects.

Ltac respect_step :=
  lazymatch goal with
  | |- respects (mret _) _ => apply respects_ret
  | |- respects (raise _) _ => apply respects_raise
  | |- respects (raise _ ≫= _) _ => apply respects_raise_bind
  | |- respects (_ ≫= _) _ => apply respects_bind; [|intros]
  | |- respects (for_each _ _) _ => apply respects_for_each; intros
  | |- respects (for_fold _ _ _) _ => apply respects_for_fold; intros
  | |- respects (ask _) _ => apply respects_ask
  | |- respects get_logical_time _ => apply respects_get_logical_time
  | |- respects (set_logical_time _) _ => apply respects_set_logical_time
  | |- respects random _ => apply respects_random
  | |- respects (call _) _ => apply respects_call
  | |- respects (emit (Sleep _)) _ => apply respects_sleep
  | |- respects (emit _) _ => apply respects_emit
  | |- respects (Fuzzer.traffic_generator_generate _ _) _ =>
      apply respects_generate
  | |- respects (if ?b then _ else _) _ => destruct b
  | |- respects (match ?x with _ => _ end) _ => destruct x
  end.

Ltac respect := repeat respect_step.

Section FuzzerDeterminism.
Context {ent : Entities} {model : SimulationModel}.
Import Fuzzer.
Implicit Types (self : Fuzzer.t) (w : world).

Lemma trigger_events_respects self :
  respects (trigger_events self) (trigger_events self).
Proof.
  unfold trigger_events, check_dataplane, check_tcp_connections,
    check_message_receipts, check_switch_crashes, crash_switches,
    restart_switches, sever_links, repair_links, link_endpoints, fuzz_traffic,
    check_controllers, crash_controllers, reboot_controllers,
    _log_input_event, self_topology.
  respect.
Qed.

Lemma keepalive_respects polls : respects (keepalive polls) (keepalive polls).
Proof. induction polls as [|n IH]; simpl; respect. exact IH. Qed.

Lemma maybe_check_correspondence_respects self :
  respects (maybe_check_correspondence self) (maybe_check_correspondence self).
Proof.
  unfold maybe_check_correspondence. respect; apply keepalive_respects.
Qed.

Lemma maybe_inject_trace_event_respects self :
  respects (maybe_inject_trace_event self) (maybe_inject_trace_event self).
Proof. unfold maybe_inject_trace_event, _log_input_event. respect. Qed.

Section TwoFuzzers.
Context (self1 self2 : Fuzzer.t) (alike : same_but_delay self1 self2).

Lemma trigger_events_alike : trigger_events self1 = trigger_events self2.
Proof.
  destruct self1, self2, alike as (? & ? & ? & ? & ? & ? & ?).
  simpl in *. by subst.
Qed.

Lemma maybe_check_correspondence_alike :
  maybe_check_correspondence self1 = maybe_check_correspondence self2.
Proof.
  destruct self1, self2, alike as (? & ? & ? & ? & ? & ? & ?).
  simpl in *. by subst.
Qed.

Lemma maybe_inject_trace_event_alike :
  maybe_inject_trace_event self1 = maybe_inject_trace_event self2.
Proof.
  destruct self1, self2, alike as (? & ? & ? & ? & ? & ? & ?).
  simpl in *. by subst.
Qed.

Lemma round_respects : respects (round self1) (round self2).
Proof.
  unfold round.
  rewrite <- trigger_events_alike, <- maybe_check_correspondence_alike,
          <- maybe_inject_trace_event_alike.
  apply respects_bind; [apply respects_get_logical_time|intros now].
  apply respects_bind; [apply respects_set_logical_time|intros _].
  apply respects_bind; [apply trigger_events_respects|intros _].
  apply respects_bind; [apply maybe_check_correspondence_respects|intros _].
  apply respects_bind; [apply maybe_inject_trace_event_respects|intros _].
  apply respects_sleep.
Qed.

Lemma while_rounds_respects e fuel :
  respects (while_rounds self1 e fuel) (while_rounds self2 e fuel).
Proof.
  induction fuel as [|fuel IH]; simpl.
  - apply respects_ret.
  - apply respects_bind; [apply respects_get_logical_time|intros now].
    destruct (now <? e); [|apply respects_ret].
    apply respects_bind; [apply round_respects|intros _]. exact IH.
Qed.

Lemma loop_respects : respects (loop self1) (loop self2).
Proof.
  unfold loop. apply respects_with_world. intros w1 w2 (_ & _ & Ht & _).
  destruct alike as (_ & _ & _ & Hsteps & _ & Hlogger & _).
  unfold end_time. rewrite Ht, Hsteps, Hlogger.
  apply respects_try_finally; [apply while_rounds_respects|].
  destruct (_input_logger self2); [apply respects_emit|apply respects_ret].
Qed.

Lemma simulate_respects : respects (simulate self1) (simulate self2).
Proof.
  unfold simulate.
  apply respects_bind; [apply respects_call|intros _].
  apply respects_bind; [apply respects_ask|intros buffered].
  destruct buffered; [apply loop_respects|apply respects_raise].
Qed.

End TwoFuzzers.


End FuzzerDeterminism.

Section FuzzerDeterminismScenario.
Import Scenario.
#[local] Existing Instance entities.
#[local] Existing Instance model.


End FuzzerDeterminismScenario.

(** * Further properties of the control flows and the entities *)

(** ** What the replayer and the MCS finder replay *)

Section ReplayOrder.
Context {replay : ReplayModel}.
Import Replayer ReplayTrace.
Implicit Types (st : state) (tr : list replay_action).

Lemma watchers_run_app tr1 tr2 :
  watchers_run (tr1 ++ tr2) = watchers_run tr1 ++ watchers_run tr2.
Proof. apply omap_app. Qed.

Lemma bootstraps_app tr1 tr2 :
  bootstraps (tr1 ++ tr2) = (bootstraps tr1 + bootstraps tr2)%nat.
Proof. unfold bootstraps. by rewrite List.filter_app, length_app. Qed.

Lemma clock_reads_run_nothing self during n :
  watchers_run (clock_reads self during n) = [] /\
  bootstraps (clock_reads self during n) = 0%nat.
Proof.
  unfold clock_reads. simpl. by induction n as [|n [IH1 IH2]].
Qed.

Lemma run_trace st w :
  watchers_run (trace (run st w)) = watchers_run (trace st) ++ [w] /\
  bootstraps (trace (run st w)) = bootstraps (trace st) /\
  self (run st w) = self st /\
  simulation (run st w) = watcher_run w (simulation st).
Proof.
  unfold run. cbn [trace self simulation].
  rewrite !watchers_run_app, !bootstraps_app.
  destruct (clock_reads_run_nothing (self st) (Some w)
              (watcher_clock_reads w (simulation st))) as [-> ->].
  rewrite app_nil_r. repeat split. unfold bootstraps. simpl. lia.
Qed.

Lemma bootstrap_trace st :
  watchers_run (trace (bootstrap st)) = watchers_run (trace st) /\
  bootstraps (trace (bootstrap st)) = S (bootstraps (trace st)) /\
  self (bootstrap st) = self st /\
  simulation (bootstrap st) = replay_bootstrap (simulation st).
Proof.
  unfold bootstrap. cbn [trace self simulation].
  rewrite !watchers_run_app, !bootstraps_app.
  destruct (clock_reads_run_nothing (self st) None
              (bootstrap_clock_reads (simulation st))) as [-> ->].
  rewrite !app_nil_r. repeat split. unfold bootstraps at 2. simpl. lia.
Qed.

Lemma replay_loop_runs ws : forall st,
  watchers_run (trace (foldl replay_one st ws)) = watchers_run (trace st) ++ ws /\
  bootstraps (trace (foldl replay_one st ws)) = bootstraps (trace st) /\
  simulation (foldl replay_one st ws)
  = foldl (fun s w => watcher_run w s) (simulation st) ws.
Proof.
  induction ws as [|w ws IH]; intros st; simpl.
  - by rewrite app_nil_r.
  - destruct (IH (replay_one st w)) as (-> & -> & ->).
    unfold replay_one, increment_round.
    set (st' := mkState _ _ _).
    destruct (run_trace st' w) as (-> & -> & _ & ->). subst st'. simpl.
    by rewrite <- app_assoc.
Qed.

Lemma replay_loop_head ws a : forall st,
  head (trace st) = Some a ->
  head (trace (foldl replay_one st ws)) = Some a.
Proof.
  induction ws as [|w ws IH]; intros st Hh; [done|].
  simpl. apply IH. unfold replay_one, increment_round, run. simpl.
  destruct (trace st); [done|]. exact Hh.
Qed.

Lemma simulate_runs (self : t) (sim : ReplaySim) :
  watchers_run (trace (simulate self sim)) = dag_event_watchers (dag self) None /\
  bootstraps (trace (simulate self sim)) = 1%nat /\
  simulation (simulate self sim)
  = foldl (fun s w => watcher_run w s) (replay_bootstrap sim)
          (dag_event_watchers (dag self) None).
Proof.
  rewrite simulate_unfold.
  destruct (replay_loop_runs (dag_event_watchers (dag self) None)
              (bootstrap (mkState self sim []))) as (Hr & Hb & Hs).
  destruct (bootstrap_trace (mkState self sim [])) as (Hr0 & Hb0 & _ & Hs0).
  by rewrite Hr, Hb, Hs, Hr0, Hb0, Hs0.
Qed.

(** X1: one pass of the replayer bootstraps the simulation once, first of
    all, and then runs the watchers of the full DAG view, each once and in
    the order of the view; the simulation it ends with is the one these
    runs produce in turn. *)
Theorem replayer_runs_each_watcher_once (self : t) (sim : ReplaySim) :
  let st := simulate self sim in
  head (trace st) = Some ReplayBootstrap /\
  bootstraps (trace st) = 1%nat /\
  watchers_run (trace st) = dag_event_watchers (dag self) None /\
  simulation st
  = foldl (fun s w => watcher_run w s) (replay_bootstrap sim)
          (dag_event_watchers (dag self) None).
Proof.
  intros st. subst st.
  destruct (simulate_runs self sim) as (Hr & Hb & Hs).
  split; [|done].
  rewrite simulate_unfold. by apply replay_loop_head.
Qed.

Lemma prune_loop_runs ws : forall st,
  watchers_run (trace (foldl prune_one st ws)) = watchers_run (trace st) ++ ws /\
  bootstraps (trace (foldl prune_one st ws)) = bootstraps (trace st) /\
  self (foldl prune_one st ws) = self st.
Proof.
  induction ws as [|w ws IH]; intros st; simpl.
  - by rewrite app_nil_r.
  - destruct (IH (prune_one st w)) as (-> & -> & ->).
    unfold prune_one, increment_round.
    destruct (run_trace st w) as (-> & -> & -> & _).
    by rewrite <- app_assoc.
Qed.

Lemma mcs_finder_unfold (self : t) sim :
  (MCSFinder.simulate self sim).2
  = foldl (prune_run (dag self)) (simulate self sim) (dag_events (dag self)).
Proof. reflexivity. Qed.

Lemma prune_runs_trace d es : forall st,
  watchers_run (trace (foldl (prune_run d) st es))
  = watchers_run (trace st)
    ++ concat (map (fun e => dag_event_watchers d (Some e)) es) /\
  bootstraps (trace (foldl (prune_run d) st es))
  = (bootstraps (trace st) + length es)%nat /\
  self (foldl (prune_run d) st es) = self st.
Proof.
  induction es as [|e es IH]; intros st; simpl.
  - rewrite app_nil_r. repeat split. lia.
  - destruct (IH (prune_run d st e)) as (-> & -> & ->).
    unfold prune_run.
    destruct (prune_loop_runs (dag_event_watchers d (Some e)) (bootstrap st))
      as (-> & -> & ->).
    destruct (bootstrap_trace st) as (-> & -> & -> & _).
    rewrite <- app_assoc. repeat split. lia.
Qed.

(** X2: the MCS finder replays the full view once and then, for every
    event of the DAG in order, the view pruned of that event, each replay
    after a bootstrap of its own: one bootstrap more than there are
    events. *)
Theorem mcs_finder_replays_every_pruned_view (self : t) (sim : ReplaySim) :
  let tr := trace (MCSFinder.simulate self sim).2 in
  watchers_run tr
  = dag_event_watchers (dag self) None
    ++ concat (map (fun e => dag_event_watchers (dag self) (Some e))
                   (dag_events (dag self))) /\
  bootstraps tr = S (length (dag_events (dag self))).
Proof.
  intros tr. subst tr. rewrite mcs_finder_unfold.
  destruct (prune_runs_trace (dag self) (dag_events (dag self))
              (simulate self sim)) as (-> & -> & _).
  destruct (simulate_runs self sim) as (-> & -> & _).
  done.
Qed.

Lemma replay_loop_self ws : forall st,
  self (foldl replay_one st ws)
  = match last ws with
    | Some w => mkReplayer (dag (self st))
                           (interpolate (event_time (watcher_event w)))
    | None => self st
    end.
Proof.
  induction ws as [|w ws IH]; intros st; [done|].
  simpl foldl. rewrite IH. destruct ws as [|w' ws]; [done|].
  rewrite last_cons_cons. destruct (last (w' :: ws)) eqn:E; [done|].
  by apply last_None in E.
Qed.

Lemma reads_only_trans v st1 st2 st3 :
  reads_only v st1 st2 -> reads_only v st2 st3 -> reads_only v st1 st3.
Proof.
  intros [Hs1 (l1 & Ht1 & Hf1)] [Hs2 (l2 & Ht2 & Hf2)]. split; [congruence|].
  exists (l1 ++ l2). rewrite Ht2, Ht1, <- app_assoc. split; [done|].
  rewrite answers_app. by apply Forall_app.
Qed.

Lemma reads_only_step st st' (later : list replay_action) n during :
  self st' = self st ->
  answers later = [] ->
  trace st' = trace st ++ later ++ clock_reads (self st) during n ->
  reads_only (interpolated_time (self st)) st st'.
Proof.
  intros Hs Hl Ht. split; [done|]. eexists. split; [exact Ht|].
  rewrite answers_app, Hl, answers_clock_reads. simpl.
  apply Forall_forall. intros x Hx. by apply elem_of_replicate in Hx as [-> _].
Qed.

Lemma prune_loop_reads ws : forall st,
  reads_only (interpolated_time (self st)) st (foldl prune_one st ws).
Proof.
  induction ws as [|w ws IH]; intros st; simpl.
  - split; [done|]. exists []. by rewrite app_nil_r.
  - assert (reads_only (interpolated_time (self st)) st (prune_one st w)) as H1
      by (by eapply (reads_only_step _ _ [Run w])).
    eapply reads_only_trans; [exact H1|].
    destruct H1 as [<- _]. apply IH.
Qed.

Lemma prune_runs_reads d es : forall st,
  reads_only (interpolated_time (self st)) st (foldl (prune_run d) st es).
Proof.
  induction es as [|e es IH]; intros st; simpl.
  - split; [done|]. exists []. by rewrite app_nil_r.
  - assert (reads_only (interpolated_time (self st)) st (prune_run d st e)) as H1.
    { eapply reads_only_trans.
      - by eapply (reads_only_step st (bootstrap st) [ReplayBootstrap]).
      - apply (prune_loop_reads _ (bootstrap st)). }
    eapply reads_only_trans; [exact H1|].
    destruct H1 as [<- _]. apply IH.
Qed.

(** X3: the pruned replays of the MCS finder never recompute the
    interpolated time.  Everything they add to the trace comes after the
    control run, and every clock value handed out there is the one the
    control run ended with: the interpolation of the last event of the
    full view (or the initial time, if the view is empty). *)
Theorem mcs_finder_pruned_clock_is_frozen (self0 : t) (sim : ReplaySim) :
  let control := simulate self0 sim in
  let frozen :=
    match last (dag_event_watchers (dag self0) None) with
    | Some w => interpolate (event_time (watcher_event w))
    | None => interpolated_time self0
    end in
  exists pruned,
    trace (MCSFinder.simulate self0 sim).2 = trace control ++ pruned /\
    Forall (fun v => v = frozen) (answers pruned).
Proof.
  intros control frozen. rewrite mcs_finder_unfold.
  destruct (prune_runs_reads (dag self0) (dag_events (dag self0)) control)
    as [_ (pruned & Ht & Hf)].
  exists pruned. split; [exact Ht|].
  assert (interpolated_time (self control) = frozen) as <-; [|exact Hf].
  subst control frozen. rewrite simulate_unfold, replay_loop_self.
  by destruct (last _).
Qed.

End ReplayOrder.

(** ** Reports and collections of state changes, interleaved *)

Section PendingRoundTrip.
Import ReplaySyncCallback PendingBalance.
Implicit Types (c : Counter) (p q : PendingStateChange) (x : call).

(** X4: on a storage without dead entries, reporting a state change and
    collecting it again gives back the very same storage, whether the key
    was pending before or not. *)
Theorem report_then_collect_restores c controller time fingerprint name value :
  positive_counts c ->
  gc_pending_state_change
    (state_change c controller time fingerprint name value)
    (key_of controller time fingerprint name value) = c.
Proof.
  intros Hpos. unfold state_change, gc_pending_state_change, key_of.
  set (p := mkPendingStateChange _ _ _ _ _).
  rewrite !getitem_insert_eq, insert_insert_eq.
  unfold getitem. destruct (c !! p) as [v|] eqn:E; simpl.
  - pose proof (Hpos p v E) as Hv. simpl in Hv.
    replace (v + 1 - 1) with v by lia.
    destruct (v <=? 0) eqn:Ev; [apply Z.leb_le in Ev; lia|].
    by apply insert_id.
  - simpl. rewrite delete_insert_eq. by apply delete_id.
Qed.

Lemma report_then_collect_restores_witness :
  let ctl := {| uuid := "c1" |} in
  let c := run [StateChange ctl (mkSyncTime 3 250) "fp" "role" "master"] ∅ in
  gc_pending_state_change
    (state_change c ctl (mkSyncTime 3 250) "fp" "role" "master")
    (key_of ctl (mkSyncTime 3 250) "fp" "role" "master") = c.
Proof.
  intros ctl c. apply report_then_collect_restores.
  subst c. apply run_positive, map_Forall_empty.
Defined.

Lemma getitem_step_other c p x :
  reports p x = false -> collects p x = false ->
  getitem (step c x) p = getitem c p.
Proof. intros Hr Hc. unfold getitem. by rewrite step_other. Qed.

Lemma balanced_run p calls : forall (n : nat) c,
  getitem c p = Z.of_nat n ->
  balanced p n calls = true ->
  getitem (run calls c) p
  = Z.of_nat n + Z.of_nat (count (reports p) calls)
    - Z.of_nat (count (collects p) calls).
Proof.
  induction calls as [|x calls IH]; intros n c Hn Hb.
  - unfold count. simpl. lia.
  - rewrite !count_cons. unfold run in *. simpl in Hb |- *.
    destruct (reports p x) eqn:Er.
    + rewrite (reports_collects_excl _ _ Er).
      rewrite (IH (S n)); [lia| |done].
      unfold getitem at 1. rewrite step_report by done. simpl. lia.
    + destruct (collects p x) eqn:Ec.
      * destruct n as [|m]; [done|].
        rewrite (IH m); [lia| |done].
        unfold getitem at 1. rewrite step_collect by done.
        case_match eqn:E; simpl; [apply Z.leb_le in E|]; lia.
      * rewrite (IH n); [lia| |done]. by rewrite getitem_step_other.
Qed.

(** X5: however reports and collections of a key are interleaved (with
    each other and with calls about other keys), as long as no collection
    comes while nothing of the key is outstanding, a fresh callback ends
    with the reports minus the collections as the count of the key, and
    the key is pending exactly when that difference is positive. *)
Theorem balanced_calls_count p (calls : list call) :
  balanced p 0 calls = true ->
  getitem (run calls ∅) p
  = Z.of_nat (count (reports p) calls) - Z.of_nat (count (collects p) calls) /\
  (state_change_pending (run calls ∅) p = true <->
   (count (collects p) calls < count (reports p) calls)%nat).
Proof.
  intros Hb.
  pose proof (balanced_run p calls 0 ∅ eq_refl Hb) as H.
  split; [rewrite H; lia|].
  unfold state_change_pending. rewrite H, Z.ltb_lt. lia.
Qed.

Lemma balanced_calls_count_witness :
  let ctl := {| uuid := "c1" |} in
  let p := key_of ctl (mkSyncTime 3 250) "fp" "role" "master" in
  let calls := [StateChange ctl (mkSyncTime 3 250) "fp" "role" "master";
                Gc p;
                StateChange ctl (mkSyncTime 3 250) "fp" "role" "master";
                StateChange ctl (mkSyncTime 3 250) "fp" "role" "slave";
                StateChange ctl (mkSyncTime 3 250) "fp" "role" "master";
                Gc p] in
  getitem (run calls ∅) p = 1.
Proof.
  intros ctl p calls.
  destruct (balanced_calls_count p calls) as [H _];
    [vm_compute; reflexivity|].
  rewrite H. vm_compute. reflexivity.
Defined.

End PendingRoundTrip.

(** ** A round does not mend what it has just broken *)

Section Guard.
Context {ent : Entities} {model : SimulationModel}.
Import Fuzzer RoundGuard.

Section Apart.
Context {X : Type} (down up : action -> option X).

Lemma omap_nothing {Y} (f : action -> option Y) (t : list action) :
  Forall (fun a => f a = None) t -> omap f t = [].
Proof.
  induction 1 as [|a t Ha _ IH]; [done|]. simpl. by rewrite Ha.
Qed.

Lemma apart_no_up t : Forall (fun a => up a = None) t -> apart down up t.
Proof. intros H x _. rewrite (omap_nothing up t H). apply not_elem_of_nil. Qed.

Lemma neutral_no_up t : Forall (neutral down up) t -> Forall (fun a => up a = None) t.
Proof. intros H. eapply Forall_impl; [exact H|]. by intros a [_ ?]. Qed.

Lemma neutral_no_down t :
  Forall (neutral down up) t -> Forall (fun a => down a = None) t.
Proof. intros H. eapply Forall_impl; [exact H|]. by intros a [? _]. Qed.

Lemma apart_app_l t1 t2 :
  Forall (neutral down up) t1 -> apart down up t2 -> apart down up (t1 ++ t2).
Proof.
  intros H1 H2 x. rewrite !omap_app.
  rewrite (omap_nothing down t1), (omap_nothing up t1);
    [apply H2|by apply neutral_no_up|by apply neutral_no_down].
Qed.

Lemma apart_app_r t1 t2 :
  apart down up t1 -> Forall (neutral down up) t2 -> apart down up (t1 ++ t2).
Proof.
  intros H1 H2 x. rewrite !omap_app.
  rewrite (omap_nothing down t2), (omap_nothing up t2), !app_nil_r;
    [apply H1|by apply neutral_no_up|by apply neutral_no_down].
Qed.

Lemma keeps_apart_neutral w w' :
  evolves (neutral down up) w w' -> keeps_apart down up w w'.
Proof.
  intros ((t & E & F) & _). exists t. split; [done|].
  by apply apart_no_up, neutral_no_up.
Qed.

Lemma keeps_apart_bind_l {A B} (m : M A) (k : A -> M B) :
  preserves (evolves (neutral down up)) m ->
  (forall a, preserves (keeps_apart down up) (k a)) ->
  preserves (keeps_apart down up) (m ≫= k).
Proof.
  intros Hm Hk w. rewrite bind_unfold. specialize (Hm w).
  destruct (m w) as [[a|e] w1]; simpl in *.
  - destruct Hm as ((t1 & E1 & F1) & _).
    destruct (Hk a w1) as (t2 & E2 & A2).
    exists (t1 ++ t2). rewrite E2, E1, app_assoc. split; [done|].
    by apply apart_app_l.
  - by apply keeps_apart_neutral.
Qed.

Lemma keeps_apart_bind_r {A B} (m : M A) (k : A -> M B) :
  preserves (keeps_apart down up) m ->
  (forall a, preserves (evolves (neutral down up)) (k a)) ->
  preserves (keeps_apart down up) (m ≫= k).
Proof.
  intros Hm Hk w. rewrite bind_unfold. specialize (Hm w).
  destruct (m w) as [[a|e] w1]; simpl in *; [|done].
  destruct Hm as (t1 & E1 & A1).
  destruct (Hk a w1) as ((t2 & E2 & F2) & _).
  exists (t1 ++ t2). rewrite E2, E1, app_assoc. split; [done|].
  by apply apart_app_r.
Qed.

(** A stage that breaks and returns what it broke, then a stage that
    spares what it is given. *)
Lemma keeps_apart_pair {B} (stageA : M (list X)) (stageB : list X -> M B) :
  preserves (evolves (fun a => up a = None)) stageA ->
  (forall w acc w', stageA w = (Ok acc, w') ->
     exists t, w_trace w' = w_trace w ++ t /\ Forall (fun x => x ∈ acc) (omap down t)) ->
  (forall acc, preserves (evolves (spares down up acc)) (stageB acc)) ->
  preserves (keeps_apart down up) (stageA ≫= stageB).
Proof.
  intros HA Hacc HB w. rewrite bind_unfold. specialize (HA w).
  destruct (stageA w) as [[acc|e] w1] eqn:EA; simpl in *.
  - destruct (Hacc w acc w1 EA) as (t1 & E1 & F1).
    destruct HA as ((t1' & E1' & U1) & _).
    assert (t1' = t1) as -> by (rewrite E1 in E1'; by apply app_inv_head in E1').
    destruct (HB acc w1) as ((t2 & E2 & F2) & _).
    exists (t1 ++ t2). rewrite E2, E1, app_assoc. split; [done|].
    intros x. rewrite !omap_app.
    rewrite (omap_nothing up t1 U1).
    rewrite (omap_nothing down t2), app_nil_r;
      [|eapply Forall_impl; [exact F2|]; by intros a [? _]].
    intros Hx. simpl. rewrite Forall_forall in F1. specialize (F1 x Hx).
    intros Hy. apply list_elem_of_omap in Hy as (a & Ha & Hup).
    rewrite Forall_forall in F2. destruct (F2 a Ha) as [_ Hs].
    by apply (Hs x).
  - destruct HA as ((t & E & F) & _). exists t. split; [done|].
    by apply apart_no_up.
Qed.

(** A loop that fills a set holds, at its end, all that its calls broke. *)
Lemma for_fold_collects {I} (xs : list I) (body : I -> list X -> M (list X)) :
  (forall i acc w acc' w', body i acc w = (Ok acc', w') ->
     exists t, w_trace w' = w_trace w ++ t /\ acc ⊆ acc' /\
               Forall (fun x => x ∈ acc') (omap down t)) ->
  forall acc w acc' w', for_fold xs acc body w = (Ok acc', w') ->
     exists t, w_trace w' = w_trace w ++ t /\ acc ⊆ acc' /\
               Forall (fun x => x ∈ acc') (omap down t).
Proof.
  intros Hb. induction xs as [|i xs IH]; intros acc w acc' w' H.
  - injection H as <- <-. exists []. by rewrite app_nil_r.
  - simpl in H. rewrite bind_unfold in H.
    destruct (body i acc w) as [[acc1|e] w1] eqn:E1; [|done].
    destruct (Hb _ _ _ _ _ E1) as (t1 & T1 & S1 & F1).
    destruct (IH _ _ _ _ H) as (t2 & T2 & S2 & F2).
    exists (t1 ++ t2). rewrite T2, T1, app_assoc. split; [done|].
    split; [set_solver|]. rewrite omap_app. apply Forall_app. split; [|done].
    eapply Forall_impl; [exact F1|]. set_solver.
Qed.

Lemma neutral_of_check (kind k : check) a :
  (forall x, down a = Some x -> check_of a = Some kind) ->
  (forall x, up a = Some x -> check_of a = Some kind) ->
  k <> kind -> check_call k a -> neutral down up a.
Proof.
  intros Hd Hu Hk [Hc _]. split.
  - destruct (down a) as [x|] eqn:E; [|done].
    rewrite (Hd x eq_refl) in Hc. congruence.
  - destruct (up a) as [x|] eqn:E; [|done].
    rewrite (Hu x eq_refl) in Hc. congruence.
Qed.

Lemma spares_of_neutral acc a : neutral down up a -> spares down up acc a.
Proof. intros [Hd Hu]. split; [done|]. intros y. by rewrite Hu. Qed.

End Apart.

(** As [evolve], keeping the outcome of every test. *)
Ltac evolve_eqn_step :=
  lazymatch goal with
  | |- preserves _ (mret _) => apply preserves_ret; apply _
  | |- preserves _ (raise _) => apply preserves_raise; apply _
  | |- preserves _ (raise _ ≫= _) => apply preserves_raise_bind; apply _
  | |- preserves _ (_ ≫= _) => apply preserves_bind; [apply _| |intros]
  | |- preserves _ (for_each _ _) => apply preserves_for_each; [apply _..|intros]
  | |- preserves _ (for_fold _ _ _) => apply preserves_for_fold; [apply _..|intros]
  | |- preserves _ (ask _) => apply preserves_ask; apply _
  | |- preserves _ random => apply evolves_random
  | |- preserves _ (call _) => apply evolves_call
  | |- preserves _ (emit _) => apply evolves_emit
  | |- preserves _ (if ?b then _ else _) => destruct b eqn:?
  | |- preserves _ (match ?x with _ => _ end) => destruct x eqn:?
  end.

Ltac evolve_eqn := repeat evolve_eqn_step.

Ltac collect H :=
  unfold _log_input_event, link_endpoints in H;
  unfold mbind, M_bind, mret, M_ret, random, call, emit, raise in H;
  repeat (simpl in H; first
    [ match type of H with
      | context [random_random ?g] => destruct (random_random g) as [? ?]
      end
    | match type of H with
      | context [sim_step ?a ?s] => destruct (sim_step a s) as [[[]|?] ?]
      end
    | match type of H with
      | context [if ?b then _ else _] => destruct b eqn:?
      end
    | match type of H with
      | context [port ?x] => destruct (port x) eqn:?
      end ]);
  simplify_eq; simpl;
  eexists;
  (split; [rewrite <- ?app_assoc; reflexivity || (symmetry; apply app_nil_r)|]);
  (split; [set_solver|]); simpl; repeat constructor; set_solver.

Ltac from_check kind L :=
  intros w0; eapply evolves_weaken; [|apply L];
  intros a Ha; (try apply spares_of_neutral);
  eapply (neutral_of_check _ _ kind _ a); [| | |exact Ha];
  [by destruct a|by destruct a|done].

Implicit Types (self : Fuzzer.t) (w : world).

(** *** Switches *)

Lemma crash_switches_collects self w acc w' :
  crash_switches self w = (Ok acc, w') ->
  exists t, w_trace w' = w_trace w ++ t /\
            Forall (fun x => x ∈ acc) (omap crashed_switch t).
Proof.
  intros H. unfold crash_switches in H. rewrite bind_unfold in H. simpl in H.
  eapply (for_fold_collects crashed_switch) in H as (t & ? & _ & ?); [by exists t|].
  clear. intros i acc w acc' w' H. collect H.
Qed.

Lemma crash_switches_mends_nothing self :
  preserves (evolves (fun a => recovered_switch a = None)) (crash_switches self).
Proof. unfold crash_switches, _log_input_event. evolve; done. Qed.

Lemma restart_switches_spares self crashed :
  preserves (evolves (spares crashed_switch recovered_switch crashed))
            (restart_switches self crashed).
Proof.
  unfold restart_switches, _log_input_event. evolve_eqn; try (split; done).
  split; [done|]. intros y [= <-]. by eapply bool_decide_eq_false.
Qed.

Lemma check_switch_crashes_switches self :
  preserves (keeps_apart crashed_switch recovered_switch)
            (check_switch_crashes self).
Proof.
  unfold check_switch_crashes. apply keeps_apart_pair.
  - apply crash_switches_mends_nothing.
  - apply crash_switches_collects.
  - intros crashed. apply preserves_bind; [apply _| |intros _].
    + apply restart_switches_spares.
    + apply preserves_bind; [apply _| |intros cut].
      * from_check SwitchFailures (sever_links_calls self).
      * from_check SwitchFailures (repair_links_calls self cut).
Qed.

(** *** Links *)

Lemma sever_links_collects self w acc w' :
  sever_links self w = (Ok acc, w') ->
  exists t, w_trace w' = w_trace w ++ t /\
            Forall (fun x => x ∈ acc) (omap severed_link t).
Proof.
  intros H. unfold sever_links in H. rewrite bind_unfold in H. simpl in H.
  eapply (for_fold_collects severed_link) in H as (t & ? & _ & ?); [by exists t|].
  clear. intros i acc w acc' w' H. collect H.
Qed.

Lemma sever_links_mends_nothing self :
  preserves (evolves (fun a => repaired_link a = None)) (sever_links self).
Proof. unfold sever_links, _log_input_event, link_endpoints. evolve; done. Qed.

Lemma repair_links_spares self cut :
  preserves (evolves (spares severed_link repaired_link cut))
            (repair_links self cut).
Proof.
  unfold repair_links, _log_input_event, link_endpoints.
  evolve_eqn; try (split; done).
  split; [done|]. intros y [= <-]. by eapply bool_decide_eq_false.
Qed.

Lemma check_switch_crashes_links self :
  preserves (keeps_apart severed_link repaired_link)
            (check_switch_crashes self).
Proof.
  unfold check_switch_crashes. apply keeps_apart_bind_l.
  { from_check LinkFailures (crash_switches_calls self). }
  intros crashed. apply keeps_apart_bind_l.
  { from_check LinkFailures (restart_switches_calls self crashed). }
  intros _. apply keeps_apart_pair.
  - apply sever_links_mends_nothing.
  - apply sever_links_collects.
  - apply repair_links_spares.
Qed.

(** *** Controllers *)

Lemma crash_controllers_collects self w acc w' :
  crash_controllers self w = (Ok acc, w') ->
  exists t, w_trace w' = w_trace w ++ t /\
            Forall (fun x => x ∈ acc) (omap killed_controller t).
Proof.
  intros H. unfold crash_controllers in H. rewrite bind_unfold in H. simpl in H.
  eapply (for_fold_collects killed_controller) in H as (t & ? & _ & ?);
    [by exists t|].
  clear. intros i acc w acc' w' H. collect H.
Qed.

Lemma crash_controllers_mends_nothing self :
  preserves (evolves (fun a => started_controller a = None))
            (crash_controllers self).
Proof. unfold crash_controllers, _log_input_event. evolve; done. Qed.

Lemma reboot_controllers_spares self crashed :
  preserves (evolves (spares killed_controller started_controller crashed))
            (reboot_controllers self crashed).
Proof.
  unfold reboot_controllers, _log_input_event. evolve_eqn; try (split; done).
  split; [done|]. intros y [= <-]. by eapply bool_decide_eq_false.
Qed.

Lemma check_controllers_controllers self :
  preserves (keeps_apart killed_controller started_controller)
            (check_controllers self).
Proof.
  unfold check_controllers. apply keeps_apart_pair.
  - apply crash_controllers_mends_nothing.
  - apply crash_controllers_collects.
  - apply reboot_controllers_spares.
Qed.

(** *** The whole round *)

Lemma check_switch_crashes_calls (P : action -> Prop) self :
  (forall a, check_call SwitchFailures a -> P a) ->
  (forall a, check_call LinkFailures a -> P a) ->
  preserves (evolves P) (check_switch_crashes self).
Proof.
  intros Hs Hl. unfold check_switch_crashes.
  apply preserves_bind; [apply _| |intros crashed].
  { intros w0. eapply evolves_weaken; [exact Hs|apply crash_switches_calls]. }
  apply preserves_bind; [apply _| |intros _].
  { intros w0. eapply evolves_weaken; [exact Hs|apply restart_switches_calls]. }
  apply preserves_bind; [apply _| |intros cut].
  { intros w0. eapply evolves_weaken; [exact Hl|apply sever_links_calls]. }
  intros w0. eapply evolves_weaken; [exact Hl|apply repair_links_calls].
Qed.

Lemma check_controllers_calls (P : action -> Prop) self :
  (forall a, check_call ControllerFailures a -> P a) ->
  preserves (evolves P) (check_controllers self).
Proof.
  intros Hc. unfold check_controllers.
  apply preserves_bind; [apply _| |intros crashed].
  { intros w0. eapply evolves_weaken; [exact Hc|apply crash_controllers_calls]. }
  intros w0. eapply evolves_weaken; [exact Hc|apply reboot_controllers_calls].
Qed.

Ltac neutral_check kind :=
  intros a Ha; eapply (neutral_of_check _ _ kind _ a); [| | |exact Ha];
  [by destruct a|by destruct a|done].

Lemma round_after_events {X} (down up : action -> option X) (kind : check) self :
  kind <> Periodic ->
  (forall a x, down a = Some x -> check_of a = Some kind) ->
  (forall a x, up a = Some x -> check_of a = Some kind) ->
  preserves (keeps_apart down up) (trigger_events self) ->
  preserves (keeps_apart down up) (round self).
Proof.
  intros Hk Hd Hu Ht.
  assert (forall a, check_call Periodic a -> neutral down up a) as Hp.
  { intros a Ha. eapply (neutral_of_check _ _ kind _ a); [| |done|exact Ha];
      [apply Hd|apply Hu]. }
  assert (preserves (keeps_apart down up)
    (trigger_events self ;; maybe_check_correspondence self ;;
     maybe_inject_trace_event self ;; emit (Sleep (delay self)))) as Htail.
  { apply keeps_apart_bind_r; [exact Ht|]. intros _.
    apply preserves_bind; [apply _| |intros _].
    { intros w0. eapply evolves_weaken; [exact Hp|].
      apply maybe_check_correspondence_calls. }
    apply preserves_bind; [apply _| |intros _].
    { intros w0. eapply evolves_weaken; [exact Hp|].
      apply maybe_inject_trace_event_calls. }
    apply evolves_emit. split.
    - destruct (down (Sleep (delay self))) as [x|] eqn:E; [|done].
      by apply Hd in E.
    - destruct (up (Sleep (delay self))) as [x|] eqn:E; [|done].
      by apply Hu in E. }
  intros w. rewrite round_unfold.
  destruct (Htail (mkWorld (w_simulation w) (w_random w) (w_logical_time w + 1)
                           (w_stdin w) (w_trace w))) as (t & E & A).
  exists t. split; [exact E|exact A].
Qed.

Lemma trigger_events_switches self :
  preserves (keeps_apart crashed_switch recovered_switch) (trigger_events self).
Proof.
  unfold trigger_events.
  apply keeps_apart_bind_l.
  { from_check SwitchFailures (check_dataplane_calls self). } intros _.
  apply keeps_apart_bind_l.
  { from_check SwitchFailures (check_tcp_connections_calls self). } intros _.
  apply keeps_apart_bind_l.
  { from_check SwitchFailures (check_message_receipts_calls self). } intros _.
  apply keeps_apart_bind_r; [apply check_switch_crashes_switches|]. intros _.
  apply preserves_bind; [apply _| |intros _].
  { from_check SwitchFailures (fuzz_traffic_calls self). }
  apply check_controllers_calls. neutral_check SwitchFailures.
Qed.

Lemma trigger_events_links self :
  preserves (keeps_apart severed_link repaired_link) (trigger_events self).
Proof.
  unfold trigger_events.
  apply keeps_apart_bind_l.
  { from_check LinkFailures (check_dataplane_calls self). } intros _.
  apply keeps_apart_bind_l.
  { from_check LinkFailures (check_tcp_connections_calls self). } intros _.
  apply keeps_apart_bind_l.
  { from_check LinkFailures (check_message_receipts_calls self). } intros _.
  apply keeps_apart_bind_r; [apply check_switch_crashes_links|]. intros _.
  apply preserves_bind; [apply _| |intros _].
  { from_check LinkFailures (fuzz_traffic_calls self). }
  apply check_controllers_calls. neutral_check LinkFailures.
Qed.

Lemma trigger_events_controllers self :
  preserves (keeps_apart killed_controller started_controller)
            (trigger_events self).
Proof.
  unfold trigger_events.
  apply keeps_apart_bind_l.
  { from_check ControllerFailures (check_dataplane_calls self). } intros _.
  apply keeps_apart_bind_l.
  { from_check ControllerFailures (check_tcp_connections_calls self). } intros _.
  apply keeps_apart_bind_l.
  { from_check ControllerFailures (check_message_receipts_calls self). } intros _.
  apply keeps_apart_bind_l.
  { apply check_switch_crashes_calls; neutral_check ControllerFailures. }
  intros _. apply keeps_apart_bind_l.
  { from_check ControllerFailures (fuzz_traffic_calls self). } intros _.
  apply check_controllers_controllers.
Qed.

Lemma apart_elem_of {X} (down up : action -> option X) (t : list action)
    (broken mended : action) x :
  down broken = Some x -> up mended = Some x ->
  apart down up t -> broken ∈ t -> mended ∉ t.
Proof.
  intros Hd Hu Ha Hb Hm. apply (Ha x); apply list_elem_of_omap; eauto.
Qed.

(** X6: within one round the fuzzer never recovers a switch it has
    crashed in that round, never repairs a link it has severed in that
    round and never starts a controller it has killed in that round,
    whatever the rates, the draws and the state of the simulation, and
    also when the round ends in an exception. *)
Theorem round_never_mends_what_it_broke self w :
  exists t, w_trace (round self w).2 = w_trace w ++ t /\
    (forall s, CrashSwitch s ∈ t -> RecoverSwitch s ∉ t) /\
    (forall l, SeverLink l ∈ t -> RepairLink l ∉ t) /\
    (forall c, Kill c ∈ t -> Start c ∉ t).
Proof.
  destruct (round_after_events crashed_switch recovered_switch SwitchFailures
              self) with (w := w) as (t & E & Hs);
    [done|by intros []..|apply trigger_events_switches|].
  destruct (round_after_events severed_link repaired_link LinkFailures
              self) with (w := w) as (t2 & E2 & Hl);
    [done|by intros []..|apply trigger_events_links|].
  destruct (round_after_events killed_controller started_controller
              ControllerFailures self) with (w := w) as (t3 & E3 & Hc);
    [done|by intros []..|apply trigger_events_controllers|].
  assert (t2 = t) as -> by (rewrite E in E2; by apply app_inv_head in E2).
  assert (t3 = t) as -> by (rewrite E in E3; by apply app_inv_head in E3).
  exists t. split; [done|]. split; [|split].
  - intros s. by apply (apart_elem_of crashed_switch recovered_switch _ _ _ s).
  - intros l. by apply (apart_elem_of severed_link repaired_link _ _ _ l).
  - intros c. by apply (apart_elem_of killed_controller started_controller _ _ _ c).
Qed.

End Guard.

(** ** The rounds of a bounded run *)

Section RoundBudget.
Context {ent : Entities} {model : SimulationModel}.
Import Fuzzer Rounds.
Implicit Types (self : Fuzzer.t) (w : world).

Lemma sleeps_app (t1 t2 : list action) :
  sleeps (t1 ++ t2) = (sleeps t1 + sleeps t2)%nat.
Proof. unfold sleeps. by rewrite List.filter_app, length_app. Qed.

Lemma sleeps_none (t : list action) :
  Forall (fun a => is_sleep a = false) t -> sleeps t = 0%nat.
Proof.
  unfold sleeps. induction 1 as [|a t Ha _ IH]; [done|]. simpl. by rewrite Ha.
Qed.

Lemma trigger_events_calls (P : action -> Prop) self :
  (forall k a, check_call k a -> P a) ->
  preserves (evolves P) (trigger_events self).
Proof.
  intros HP. unfold trigger_events.
  apply preserves_bind; [apply _| |intros _].
  { intros w0. eapply evolves_weaken; [apply HP|apply check_dataplane_calls]. }
  apply preserves_bind; [apply _| |intros _].
  { intros w0. eapply evolves_weaken; [apply HP|].
    apply check_tcp_connections_calls. }
  apply preserves_bind; [apply _| |intros _].
  { intros w0. eapply evolves_weaken; [apply HP|].
    apply check_message_receipts_calls. }
  apply preserves_bind; [apply _| |intros _].
  { apply check_switch_crashes_calls; apply HP. }
  apply preserves_bind; [apply _| |intros _].
  { intros w0. eapply evolves_weaken; [apply HP|apply fuzz_traffic_calls]. }
  apply check_controllers_calls; apply HP.
Qed.

Lemma sleeps_once_bind {A B} (m : M A) (k : A -> M B) :
  preserves (evolves (fun a => is_sleep a = false)) m ->
  (forall a, sleeps_once (k a)) -> sleeps_once (m ≫= k).
Proof.
  intros Hm Hk w r w' H. rewrite bind_unfold in H. specialize (Hm w).
  destruct (m w) as [[a|e] w1]; simpl in Hm;
    destruct Hm as ((t1 & E1 & F1) & _).
  - destruct (Hk a w1 r w' H) as (t2 & E2 & S2).
    exists (t1 ++ t2). rewrite E2, E1, app_assoc. split; [done|].
    by rewrite sleeps_app, (sleeps_none t1 F1).
  - injection H as <- <-. exists t1. split; [done|]. by apply sleeps_none.
Qed.

Lemma round_sleeps self w r w' :
  round self w = (r, w') ->
  w_logical_time w' = w_logical_time w + 1 /\
  exists t, w_trace w' = w_trace w ++ t /\
            sleeps t = match r with Ok _ => 1%nat | Raise _ => 0%nat end.
Proof.
  intros H. split.
  { destruct (round_spec self w) as [_ T]. by rewrite H in T. }
  rewrite round_unfold in H. revert H.
  set (w1 := mkWorld _ _ _ _ _). change (w_trace w) with (w_trace w1).
  generalize w1 r w'. clear.
  change (sleeps_once
    (trigger_events self ;; maybe_check_correspondence self ;;
     maybe_inject_trace_event self ;; emit (Sleep (delay self)))).
  assert (forall k a, check_call k a -> is_sleep a = false) as HP
    by (by intros k a (_ & _ & ?)).
  apply sleeps_once_bind; [by apply trigger_events_calls|]. intros _.
  apply sleeps_once_bind.
  { intros w0. eapply evolves_weaken; [apply HP|].
    apply maybe_check_correspondence_calls. }
  intros _. apply sleeps_once_bind.
  { intros w0. eapply evolves_weaken; [apply HP|].
    apply maybe_inject_trace_event_calls. }
  intros _ w r w' [= <- <-]. by exists [Sleep (delay self)].
Qed.

Lemma while_rounds_rounds self e fuel : forall w r w',
  while_rounds self e fuel w = (r, w') ->
  (Z.to_nat (e - w_logical_time w) <= fuel)%nat ->
  exists t, w_trace w' = w_trace w ++ t /\
    match r with
    | Ok _ => Z.of_nat (sleeps t) = Z.max 0 (e - w_logical_time w) /\
              w_logical_time w' = w_logical_time w + Z.max 0 (e - w_logical_time w)
    | Raise _ => Z.of_nat (sleeps t) < e - w_logical_time w /\
                 w_logical_time w' = w_logical_time w + Z.of_nat (sleeps t) + 1
    end.
Proof.
  induction fuel as [|fuel IH]; intros w r w' H Hfuel.
  - injection H as <- <-. exists []. rewrite app_nil_r. split; [done|].
    unfold sleeps. simpl. lia.
  - rewrite while_rounds_S in H.
    destruct (w_logical_time w <? e) eqn:Hlt.
    + apply Z.ltb_lt in Hlt.
      destruct (round self w) as [r1 w1] eqn:Er.
      destruct (round_sleeps self w r1 w1 Er) as (T1 & t1 & E1 & S1).
      destruct r1 as [[]|err].
      * destruct (IH w1 r w' H) as (t2 & E2 & H2); [lia|].
        exists (t1 ++ t2). rewrite E2, E1, app_assoc. split; [done|].
        rewrite sleeps_app, S1. rewrite T1 in H2. destruct r; lia.
      * injection H as <- <-. exists t1. split; [done|]. rewrite S1. simpl. lia.
    + apply Z.ltb_ge in Hlt. injection H as <- <-.
      exists []. rewrite app_nil_r. split; [done|]. unfold sleeps. simpl. lia.
Qed.

(** X7: a fuzzer built with a number of steps other than zero completes
    exactly that many rounds (none for a negative number) when its loop
    returns, sleeping once per round; when a round raises, the loop stops
    there, short of the number, and the failed round has been counted in
    the logical time but not slept after. *)
Theorem loop_makes_the_steps_asked_for self w (n : Z) :
  steps self = Some n -> n <> 0 ->
  exists t, w_trace (loop self w).2 = w_trace w ++ t /\
    match (loop self w).1 with
    | Ok _ =>
        Z.of_nat (sleeps t) = Z.max 0 n /\
        w_logical_time (loop self w).2 = w_logical_time w + Z.max 0 n
    | Raise _ =>
        Z.of_nat (sleeps t) < n /\
        w_logical_time (loop self w).2
        = w_logical_time w + Z.of_nat (sleeps t) + 1
    end.
Proof.
  intros Hsteps Hn. unfold loop, with_world, try_finally, end_time.
  rewrite Hsteps. apply Z.eqb_neq in Hn. rewrite Hn.
  destruct (while_rounds self (w_logical_time w + n)
              (Z.to_nat (w_logical_time w + n - w_logical_time w)) w)
    as [r w1] eqn:E.
  apply while_rounds_rounds in E as (t & Et & Hr); [|lia].
  replace (w_logical_time w + n - w_logical_time w) with n in Hr by lia.
  destruct (_input_logger self); simpl.
  - exists (t ++ [LoggerClose]). rewrite Et, app_assoc. split; [done|].
    rewrite sleeps_app. unfold sleeps at 2 4 6. simpl. rewrite !Nat.add_0_r.
    by destruct r.
  - exists t. split; [done|]. by destruct r.
Qed.

End RoundBudget.

Section RoundBudgetScenario.
Import Scenario.
#[local] Existing Instance entities.
#[local] Existing Instance model.

Lemma loop_makes_the_steps_asked_for_witness :
  let self := fuzzer drop_everything 2 true in
  let w := start self two_packets in
  exists t, w_trace (Fuzzer.loop self w).2 = w_trace w ++ t /\
    match (Fuzzer.loop self w).1 with
    | Ok _ =>
        Z.of_nat (Rounds.sleeps t) = Z.max 0 2 /\
        w_logical_time (Fuzzer.loop self w).2 = w_logical_time w + Z.max 0 2
    | Raise _ =>
        Z.of_nat (Rounds.sleeps t) < 2 /\
        w_logical_time (Fuzzer.loop self w).2
        = w_logical_time w + Z.of_nat (Rounds.sleeps t) + 1
    end.
Proof.
  intros self w.
  apply (loop_makes_the_steps_asked_for self w 2); [reflexivity|lia].
Defined.

End RoundBudgetScenario.

(** ** Control channels are never touched *)

Section Untouched.
Context {ent : Entities} {model : SimulationModel}.
Import Fuzzer Operator.

#[local] Instance untouched_refl : Reflexive untouched.
Proof. by intros w. Qed.

#[local] Instance untouched_trans : Transitive untouched.
Proof.
  intros w1 w2 w3 (? & ? & ? & ?) (? & ? & ? & ?).
  repeat split; congruence.
Qed.

Lemma untouched_random : preserves untouched random.
Proof.
  intros w. unfold random. by destruct (random_random (w_random w)) as [r g].
Qed.

(** X8: [check_tcp_connections] never blocks or unblocks a control
    channel and never writes a record: whatever the rates and the draws,
    the simulation, the trace, the input and the logical time are left as
    they were (a draw below a rate ends the check at the read of the
    attribute [topology], which the fuzzer does not have). *)
Theorem check_tcp_connections_touches_nothing (self : Fuzzer.t) (w : world) :
  untouched w (check_tcp_connections self w).2.
Proof.
  revert w. change (preserves untouched (check_tcp_connections self)).
  unfold check_tcp_connections, self_topology.
  repeat lazymatch goal with
  | |- preserves _ (mret _) => apply preserves_ret; apply _
  | |- preserves _ (raise _ ≫= _) => apply preserves_raise_bind; apply _
  | |- preserves _ (_ ≫= _) => apply preserves_bind; [apply _| |intros]
  | |- preserves _ (for_each _ _) => apply preserves_for_each; [apply _..|intros]
  | |- preserves _ (ask _) => apply preserves_ask; apply _
  | |- preserves _ random => apply untouched_random
  | |- preserves _ (if ?b then _ else _) => destruct b
  | |- preserves _ (match ?x with _ => _ end) => destruct x
  end.
Qed.

End Untouched.

(** ** The interactive loop *)

Section InteractiveFacts.
Context {ent : Entities} {model : SimulationModel}.
Import Interactive Operator.
Implicit Types (self : Interactive.t) (w : world).

(** Taking a run that returned apart, test by test. *)
Ltac run_cases H :=
  unfold Interactive._log_input_event in H;
  unfold mbind, M_bind, mret, M_ret, raw_input, ask, call, emit, raise in H;
  repeat (simpl in H; first
    [ match type of H with
      | context [sim_step ?a ?s] => destruct (sim_step a s) as [[[]|?] ?]
      end
    | match type of H with
      | context [match w_stdin ?w with _ => _ end] =>
          destruct (w_stdin w) as [|? ?] eqn:?
      end
    | match type of H with
      | context [if ?b then _ else _] => destruct b eqn:?
      end ]);
  simplify_eq; simpl.

Lemma for_each_returned {X} (xs : list X) (body : X -> M unit)
    (R : list X -> world -> world -> Prop) :
  (forall w, R [] w w) ->
  (forall x xs w w1 w', body x w = (Ok tt, w1) -> R xs w1 w' -> R (x :: xs) w w') ->
  forall w w', for_each xs body w = (Ok tt, w') -> R xs w w'.
Proof.
  intros Hnil Hcons. induction xs as [|x xs IH]; intros w w' H.
  - injection H as <-. apply Hnil.
  - simpl in H. rewrite bind_unfold in H.
    destruct (body x w) as [[[]|e] w1] eqn:E; [|done].
    eapply Hcons; [exact E|]. by apply IH.
Qed.

Lemma check_message_receipts_returned self w w' :
  check_message_receipts self w = (Ok tt, w') ->
  w_trace w' = w_trace w ++ scheduled self (pending_receives (w_simulation w)).
Proof.
  unfold check_message_receipts. rewrite bind_unfold. unfold ask at 1.
  generalize (pending_receives (w_simulation w)). intros receipts.
  revert w w'.
  apply (for_each_returned receipts _
           (fun xs w w' => w_trace w' = w_trace w ++ scheduled self xs)).
  - intros w. by rewrite app_nil_r.
  - intros x xs w w1 w' H IH. rewrite IH.
    unfold scheduled. simpl. fold (scheduled self xs).
    run_cases H; by rewrite <- ?app_assoc.
Qed.

(** X9: when [check_message_receipts] of the interactive loop returns, it
    has scheduled every pending receipt once, in the order the god
    scheduler listed them, each followed by its record if there is an
    input logger, and has done nothing else. *)
Theorem interactive_schedules_receipts_fifo self w :
  (check_message_receipts self w).1 = Ok tt ->
  w_trace (check_message_receipts self w).2
  = w_trace w ++ scheduled self (pending_receives (w_simulation w)).
Proof.
  intros H. destruct (check_message_receipts self w) as [r w'] eqn:E.
  simpl in *. subst r. by apply (check_message_receipts_returned self).
Qed.

Lemma check_dataplane_returned self w w' :
  check_dataplane self w = (Ok tt, w') ->
  exists t, w_trace w' = w_trace w ++ t /\
    if patch_panel_is_buffered (w_simulation w) then
      omap decided t = queued_dataplane_events (w_simulation w) /\
      length (w_stdin w)
      = (length (queued_dataplane_events (w_simulation w))
         + length (w_stdin w'))%nat
    else t = [] /\ w_stdin w' = w_stdin w.
Proof.
  unfold check_dataplane. rewrite bind_unfold. unfold ask at 1.
  destruct (patch_panel_is_buffered (w_simulation w));
    [|intros [= <-]; exists []; by rewrite app_nil_r].
  rewrite bind_unfold. unfold ask at 1.
  generalize (queued_dataplane_events (w_simulation w)). intros events.
  revert w w'.
  apply (for_each_returned events _
           (fun xs w w' =>
              exists t, w_trace w' = w_trace w ++ t /\
                        omap decided t = xs /\
                        length (w_stdin w) = (length xs + length (w_stdin w'))%nat)).
  - intros w. exists []. by rewrite app_nil_r.
  - intros x xs w w1 w' H (t & Et & Hd & Hl).
    run_cases H;
      (eexists; split; [rewrite Et; simpl; rewrite <- ?app_assoc; reflexivity|]);
      simpl; (split; [done|]); simpl in Hl; lia.
Qed.

(** X10: when [check_dataplane] of the interactive loop returns, it has
    decided (permitted, dropped or delayed) every queued dataplane event
    exactly once, in the order of the queue, and has read one line of
    input for each; over a patch panel that is not buffered it makes no
    decision and reads nothing. *)
Theorem interactive_decides_each_event_once self w :
  (check_dataplane self w).1 = Ok tt ->
  exists t, w_trace (check_dataplane self w).2 = w_trace w ++ t /\
    if patch_panel_is_buffered (w_simulation w) then
      omap decided t = queued_dataplane_events (w_simulation w) /\
      length (w_stdin w)
      = (length (queued_dataplane_events (w_simulation w))
         + length (w_stdin (check_dataplane self w).2))%nat
    else t = [] /\ w_stdin (check_dataplane self w).2 = w_stdin w.
Proof.
  intros H. destruct (check_dataplane self w) as [r w'] eqn:E.
  simpl in *. subst r. by apply (check_dataplane_returned self).
Qed.

Lemma feed_trace_events_operator self fuel :
  preserves (evolves operator_call) (feed_trace_events self fuel).
Proof.
  induction fuel as [|fuel IH]; simpl; [evolve|].
  unfold Interactive._log_input_event.
  apply preserves_bind; [apply _|evolve|intros answer].
  destruct (PyStr.declines_default answer "n"); [|evolve].
  apply preserves_bind; [apply _|evolve|intros dp_event].
  apply preserves_bind; [apply _|evolve; done|intros _].
  apply preserves_bind; [apply _|evolve; done|intros _].
  exact IH.
Qed.

Lemma turn_tail_operator self : preserves (evolves operator_call) (turn_tail self).
Proof.
  unfold turn_tail.
  apply preserves_bind; [apply _| |intros _].
  { unfold invariant_check_prompt, invariant_check. evolve; done. }
  apply preserves_bind; [apply _| |intros _].
  { unfold dataplane_trace_prompt.
    apply preserves_bind; [apply _|evolve|intros has_trace].
    destruct has_trace; [|evolve].
    apply preserves_with_world. intros w0. apply feed_trace_events_operator. }
  apply preserves_bind; [apply _| |intros _].
  { unfold check_dataplane, Interactive._log_input_event. evolve; done. }
  apply preserves_bind; [apply _| |intros _].
  { unfold check_message_receipts, Interactive._log_input_event. evolve; done. }
  evolve.
Qed.

Lemma while_true_operator self fuel : forall w,
  exists t, w_trace (while_true self fuel w).2 = w_trace w ++ t /\
            Forall operator_call t.
Proof.
  induction fuel as [|fuel IH]; intros w.
  - exists []. simpl. by rewrite app_nil_r.
  - rewrite while_true_S, loop_body_unfold.
    set (w1 := mkWorld _ _ _ _ _).
    destruct (turn_tail_operator self w1) as ((t1 & E1 & F1) & _).
    assert (w_trace (turn_tail self w1).2
            = w_trace w ++ Sleep (5 # 100) :: t1) as E1'
      by (rewrite E1; subst w1; simpl; by rewrite <- app_assoc).
    assert (Forall operator_call (Sleep (5 # 100) :: t1)) as F1'
      by (by constructor).
    clear E1 F1. destruct (turn_tail self w1) as [[[]|err] w2]; simpl in *.
    + destruct (IH w2) as (t2 & E2 & F2).
      exists ((Sleep (5 # 100) :: t1) ++ t2). rewrite E2, E1', app_assoc.
      split; [done|]. by apply Forall_app.
    + by eexists.
    + by eexists.
Qed.

(** X11: the interactive loop never injects a failure.  All it asks of
    the simulation, until the logger is closed, is the sleep between
    rounds, an invariant check, the next trace event, a decision on a
    queued dataplane event or the scheduling of a pending receipt: no
    switch, link or controller is crashed or recovered, no control
    channel blocked, no traffic generated, whatever the operator types. *)
Theorem interactive_loop_injects_no_failure self w :
  exists t, w_trace (loop self w).2
            = w_trace w ++ t
              ++ (if Interactive._input_logger self then [LoggerClose] else []) /\
            Forall operator_call t /\
            forall a, a ∈ t ->
              check_of a ≠ Some ControlChannel /\
              check_of a ≠ Some SwitchFailures /\
              check_of a ≠ Some LinkFailures /\
              check_of a ≠ Some ControllerFailures /\
              check_of a ≠ Some Traffic.
Proof.
  unfold loop, with_world, try_finally.
  destruct (while_true_operator self (S (length (w_stdin w))) w) as (t & E & F).
  destruct (while_true self _ w) as [r w1]. simpl in *.
  exists t. split; [|split; [done|]].
  - destruct (Interactive._input_logger self); simpl.
    + by rewrite E, <- app_assoc.
    + by rewrite E, app_nil_r.
  - intros a Ha. rewrite Forall_forall in F. specialize (F a Ha).
    destruct a as [| | | | | | | | | | | | | | | | | | | | | |rec|];
      try destruct rec; simpl in F; try done; repeat split; discriminate.
Qed.

End InteractiveFacts.

Section InteractiveScenario.
Import Scenario Operator.
#[local] Existing Instance entities.
#[local] Existing Instance model.

Lemma interactive_schedules_receipts_fifo_witness :
  let self := Interactive.init true in
  let w := Interactive.initial_world (model := model) two_receipts 0%nat [] in
  w_trace (Interactive.check_message_receipts self w).2
  = [Schedule 3%nat; LogInputEvent (ControlMessageReceive 3%nat 3 "c1");
     Schedule 4%nat; LogInputEvent (ControlMessageReceive 4%nat 4 "c1")].
Proof.
  intros self w.
  apply (interactive_schedules_receipts_fifo self w). vm_compute. reflexivity.
Defined.

Lemma interactive_decides_each_event_once_witness :
  let self := Interactive.init true in
  let w := Interactive.initial_world (model := model) two_receipts 0%nat
             ["d"; "x"; "y"]%string in
  exists t, w_trace (Interactive.check_dataplane self w).2 = w_trace w ++ t /\
    omap decided t = [5; 6]%nat /\
    length (w_stdin w)
    = (2 + length (w_stdin (Interactive.check_dataplane self w).2))%nat.
Proof.
  intros self w.
  apply (interactive_decides_each_event_once self w). vm_compute. reflexivity.
Defined.

End InteractiveScenario.

(** ** Controllers *)

Section ControllerFacts.
Context `{Platform}.
Import ControllerState Controller.

Ltac cases :=
  repeat first [case_decide | case_match]; simplify_eq/=.

Lemma step_consistent st c : consistent st -> consistent (step st c).
Proof.
  destruct st as [self e]. unfold consistent. simpl.
  intros (? & ? & ?).
  destruct c; unfold step, kill, start, restart, start, check_status, os_do,
    _register_proc, _unregister_proc; simpl; cases;
    (split; [|split]); try done; try tauto; simpl;
    try (intros p' ?; simplify_eq; set_solver);
    try (split; [done|by intros [? ?]]);
    try (split; [by intros _; eexists|done]);
    try (match goal with E : process _ = _ |- _ => by rewrite E end).
Qed.

Lemma run_consistent calls : forall st, consistent st -> consistent (run calls st).
Proof.
  induction calls as [|c calls IH]; intros st Hst; [done|].
  apply IH. by apply step_consistent.
Qed.

(** X12: over any sequence of [kill], [start], [restart] and
    [check_status] calls on a controller fresh from [__init__], whether
    they return or raise, the controller is alive exactly when it holds a
    process, that process is registered for the cleanup, and the state is
    never STARTING; so [check_status] never answers that a live
    controller has no process. *)
Theorem controller_state_matches_process (controller_config : ControllerConfig)
    (e : env) (calls : list call) :
  let st := run calls (init controller_config, e) in
  consistent st /\
  forall cid, (check_status st.1 st.2).1.1 ≠ NoProcess cid.
Proof.
  intros st.
  assert (consistent st) as Hc.
  { apply run_consistent. unfold consistent, init. simpl.
    split; [|done]. split; [done|]. by intros [? ?]. }
  split; [exact Hc|]. intros cid.
  destruct Hc as (Halive & Hstarting & _).
  unfold check_status, os_do. cases; try done.
  destruct (state st.1); try done. destruct Halive as [Ha _].
  by destruct (Ha eq_refl).
Qed.

End ControllerFacts.

(** ** Controllers in virtual machines *)

Section VMControllerFacts.
Context `{Platform}.
Import ControllerState VMController.

Ltac cases :=
  repeat first [case_decide | case_match]; simplify_eq/=.

Lemma remote_attempts_calls cmd n : forall client e,
  exists k, (k <= n)%nat /\
    (n ≠ 0%nat -> k ≠ 0%nat) /\
    os_calls (remote_attempts n cmd client e).2
    = os_calls e ++ replicate k (Session cmd) /\
    _active_processes (remote_attempts n cmd client e).2 = _active_processes e.
Proof.
  induction n as [|n IH]; intros client e; simpl.
  - exists 0%nat. simpl. by rewrite app_nil_r.
  - destruct (session cmd client (os e)) as [[[reply|err] client'] os'].
    + exists 1%nat. simpl. repeat split; [lia|done].
    + match goal with |- context [remote_attempts n cmd None ?e1] =>
        destruct (IH None e1) as (k & Hk & _ & Hc & Hr) end.
      exists (S k). simpl in *. rewrite Hc, Hr, <- app_assoc.
      repeat split; [lia|done].
Qed.

Lemma remote_attempts_all_raise cmd n :
  (forall client os, exists err, (session cmd client os).1.1 = Throw err) ->
  forall client e,
    (remote_attempts n cmd client e).1.1 = ""%string /\
    os_calls (remote_attempts n cmd client e).2
    = os_calls e ++ replicate n (Session cmd) /\
    (n ≠ 0%nat -> (remote_attempts n cmd client e).1.2 = None).
Proof.
  intros Hraise. induction n as [|n IH]; intros client e; simpl.
  - by rewrite app_nil_r.
  - destruct (Hraise client (os e)) as [err Herr].
    destruct (session cmd client (os e)) as [[r client'] os'].
    simpl in Herr. subst r.
    match goal with |- context [remote_attempts n cmd None ?e1] =>
      destruct (IH None e1) as (Hr & Hc & Hn) end.
    rewrite Hr, Hc. simpl. rewrite <- app_assoc. repeat split.
    intros _. destruct n as [|n]; [done|]. by apply Hn.
Qed.

Lemma execute_remote_command_calls (self : t) (cmd : string) (e : env) :
  exists k, (1 <= k <= 10)%nat /\
    os_calls (execute_remote_command self cmd e).2
    = os_calls e ++ replicate k (Session cmd).
Proof.
  unfold execute_remote_command.
  destruct (remote_attempts_calls cmd 10 (_ssh_client self) e)
    as (k & Hk & Hk0 & Hc & _).
  destruct (remote_attempts 10 cmd (_ssh_client self) e) as [[reply client] e'].
  simpl in *. exists k. split; [|done].
  destruct k; [by destruct Hk0|lia].
Qed.

(** X13: [execute_remote_command] opens at least one and at most ten
    sessions, each for the command it was given, and touches nothing else
    of the controller than the cached ssh client; if every session
    raises, it has tried ten times, returns the empty string and has
    dropped the client. *)
Theorem execute_remote_command_tries_ten_times (self : t) (cmd : string)
    (e : env) :
  let r := execute_remote_command self cmd e in
  (exists k, (1 <= k <= 10)%nat /\
     os_calls r.2 = os_calls e ++ replicate k (Session cmd)) /\
  _active_processes r.2 = _active_processes e /\
  with_ssh_client r.1.2 (_ssh_client self) = self /\
  ((forall client os, exists err, (session cmd client os).1.1 = Throw err) ->
   r.1.1 = ""%string /\ _ssh_client r.1.2 = None /\
   os_calls r.2 = os_calls e ++ replicate 10 (Session cmd)).
Proof.
  intros r. subst r. unfold execute_remote_command.
  destruct (remote_attempts_calls cmd 10 (_ssh_client self) e)
    as (k & Hk & Hk0 & Hc & Hr).
  pose proof (remote_attempts_all_raise cmd 10) as Hall.
  destruct (remote_attempts 10 cmd (_ssh_client self) e)
    as [[reply client] e'] eqn:E.
  simpl in *. split; [|split; [done|split]].
  - exists k. split; [|done]. split; [|done].
    destruct k; [by destruct Hk0|lia].
  - by destruct self.
  - intros Hraise. specialize (Hall Hraise (_ssh_client self) e).
    rewrite E in Hall. simpl in Hall. destruct Hall as (-> & Hc' & Hn).
    split; [done|]. split; [by apply Hn|done].
Qed.

Lemma append_empty (s1 s2 : string) : (s1 +:+ s2)%string = ""%string -> s1 = ""%string.
Proof. by destruct s1. Qed.

Lemma read_output_hangs fuel process : forall output e,
  output ≠ ""%string -> read_output fuel process output e = None.
Proof.
  induction fuel as [|fuel IH]; intros output e Hne; [done|].
  simpl. unfold Controller.os_do.
  destruct (stdout_read process (os e)) as [chunk os'].
  rewrite bool_decide_eq_false_2 by (intros E; by apply append_empty in E).
  simpl. apply IH. intros E. by apply append_empty in E.
Qed.

(** X14: [execute_local_command] can only return the empty string, after
    one read of the output of the process it spawned; once the first read
    delivers anything, the loop never ends, however long it is run. *)
Theorem execute_local_command_returns_nothing_or_hangs (self : t)
    (cmd : string) (e : env) :
  (forall fuel output e',
     execute_local_command fuel self cmd e = Some (Return output, e') ->
     output = ""%string /\
     os_calls e' = os_calls e ++ [PopenFiltered (Shell cmd); StdoutRead]) /\
  (forall process os',
     popen_filtered ("[" +:+ label (config self) +:+ "]") (Shell cmd)
                    (cwd (config self)) (os e) = (Return process, os') ->
     (stdout_read process os').1 ≠ ""%string ->
     forall fuel, execute_local_command fuel self cmd e = None).
Proof.
  split.
  - intros fuel output e' Hrun. unfold execute_local_command in Hrun.
    unfold Controller.os_do in Hrun at 1.
    destruct (popen_filtered _ _ _ (os e)) as [[process|err] os1]; [|done].
    destruct fuel as [|fuel]; [done|]. simpl in Hrun.
    unfold Controller.os_do in Hrun.
    simpl in Hrun.
    destruct (stdout_read process os1) as [chunk os2].
    change ("" +:+ chunk)%string with chunk in Hrun.
    destruct (bool_decide (chunk = ""%string)) eqn:Ec; simpl in Hrun.
    + apply bool_decide_eq_true in Ec. subst chunk. simplify_eq/=.
      by rewrite <- app_assoc.
    + apply bool_decide_eq_false in Ec.
      rewrite read_output_hangs in Hrun by done. done.
  - intros process os' Hp Hchunk fuel. unfold execute_local_command.
    unfold Controller.os_do at 1. rewrite Hp.
    destruct fuel as [|fuel]; [done|]. simpl. unfold Controller.os_do. simpl.
    destruct (stdout_read process os') as [chunk os2]. simpl in Hchunk.
    change ("" +:+ chunk)%string with chunk.
    rewrite bool_decide_eq_false_2 by done. simpl.
    by rewrite read_output_hangs.
Qed.

Lemma execute_remote_command_state self cmd e :
  state (execute_remote_command self cmd e).1.2 = state self /\
  klass (execute_remote_command self cmd e).1.2 = klass self /\
  commands (execute_remote_command self cmd e).1.2 = commands self.
Proof.
  unfold execute_remote_command.
  by destruct (remote_attempts 10 cmd (_ssh_client self) e) as [[? ?] ?].
Qed.

Lemma step_starting fuel self e c :
  state self = STARTING ->
  exists self' e', step fuel (self, e) c = Some (self', e') /\
    state self' = STARTING /\ klass self' = klass self /\
    (klass self ≠ BigSwitch -> self' = self /\ e' = e).
Proof.
  intros Hs. destruct c; simpl.
  - unfold kill. rewrite decide_True by congruence. simpl. by eexists _, _.
  - unfold start, vm_start. rewrite decide_True by congruence.
    destruct (klass self) eqn:Ek; simpl; try by eexists _, _.
    destruct (command self "restart") as [restart_cmd|err]; simpl;
      [|by eexists _, _].
    destruct (execute_remote_command_state self restart_cmd e) as (S1 & K1 & _).
    destruct (execute_remote_command self restart_cmd e) as [[r self'] e'].
    simpl in *. eexists _, _. split; [done|]. split; [congruence|].
    split; [congruence|done].
  - unfold restart. rewrite decide_True by congruence. simpl. by eexists _, _.
  - unfold check_status. destruct (command self "check"); simpl;
      [rewrite decide_True by done|]; by eexists _, _.
Qed.

Lemma run_starting fuel calls : forall self e,
  state self = STARTING ->
  exists self' e', run fuel calls (self, e) = Some (self', e') /\
    state self' = STARTING /\
    (klass self ≠ BigSwitch -> self' = self /\ e' = e).
Proof.
  induction calls as [|c calls IH]; intros self e Hs; simpl.
  - by eexists _, _.
  - destruct (step_starting fuel self e c Hs) as (self1 & e1 & -> & S1 & K1 & U1).
    simpl. destruct (IH self1 e1 S1) as (self2 & e2 & -> & S2 & U2).
    eexists _, _. split; [done|]. split; [done|].
    intros Hk. destruct (U1 Hk) as [-> ->]. by apply U2.
Qed.

(** X15: a VM controller whose [start] has returned is stuck in
    STARTING.  No later [kill], [start], [restart] or [check_status]
    leaves that state, and each of them returns; on a [VMController] or
    an [ONOSController] they do not even run a command: the controller
    can no longer be killed, and its status is never checked. *)
Theorem started_vm_controller_is_stuck (fuel : nat) (self self1 : t)
    (e e1 : env) (calls : list call) :
  state self = DEAD ->
  start fuel self e = Some (Return tt, self1, e1) ->
  state self1 = STARTING /\
  exists self' e', run fuel calls (self1, e1) = Some (self', e') /\
    state self' = STARTING /\
    (klass self ≠ BigSwitch -> self' = self1 /\ e' = e1).
Proof.
  intros Hdead Hstart.
  assert (state self1 = STARTING /\ klass self1 = klass self) as [Hs Hk].
  { unfold start, vm_start in Hstart. rewrite decide_False in Hstart by tauto.
    destruct (klass self) eqn:Ek;
      destruct (command self "start") as [start_cmd|?]; simpl in Hstart;
      try done;
      destruct (execute_local_command fuel self start_cmd e)
        as [[[out|?] e0]|]; simpl in Hstart; try done;
      try (by simplify_eq/=).
    unfold command in Hstart. simpl in Hstart.
    destruct (commands self !! "restart") as [restart_cmd|]; [|done].
    set (self0 := with_state self STARTING) in *.
    destruct (execute_remote_command_state self0 restart_cmd e0)
      as (S1 & K1 & _).
    destruct (execute_remote_command self0 restart_cmd e0) as [[r s'] e'].
    simpl in *. simplify_eq/=. by rewrite S1, K1. }
  split; [done|]. rewrite <- Hk. by apply run_starting.
Qed.

(** X16: [check_status] of a plain [VMController], whose
    [alive_status_string] is empty, finds the controller alive whatever
    the remote side answers: it never reports a failure, and a controller
    that was DEAD is ALIVE afterwards. *)
Theorem vm_check_status_always_finds_it_alive (self : t) (e : env) :
  alive_status_string self = ""%string ->
  is_Some (commands self !! "check") ->
  (check_status self e).1.1 = Return StatusOK /\
  (state self = DEAD -> state (check_status self e).1.2 = ALIVE).
Proof.
  intros Halive [check_cmd Hcheck]. unfold check_status, command.
  rewrite Hcheck.
  destruct (decide (state self = STARTING)) as [Hs|Hs]; [simpl; split; [done|congruence]|].
  destruct (execute_remote_command_state self check_cmd e) as (S1 & _ & _).
  assert (alive_status_string (execute_remote_command self check_cmd e).1.2 = ""%string)
    as A1.
  { unfold execute_remote_command.
    by destruct (remote_attempts 10 check_cmd (_ssh_client self) e) as [[? ?] ?]. }
  destruct (execute_remote_command self check_cmd e) as [[remote_status self1] e1].
  simpl in *. rewrite A1.
  assert (contains "" remote_status = true) as -> by (by destruct remote_status).
  rewrite S1. rewrite (bool_decide_eq_false_2 (ALIVE = DEAD)) by done.
  rewrite andb_false_r. simpl. split; [done|].
  intros Hd. rewrite !bool_decide_eq_true_2 by done. done.
Qed.

(** X17: [BigSwitchController.start] runs the restart command on the
    remote side even when the controller is not dead: the start of the
    base class declines and returns, and the subclass goes on. *)
Theorem bigswitch_start_restarts_a_running_controller (fuel : nat) (self : t)
    (e : env) (restart_cmd : string) :
  klass self = BigSwitch ->
  state self ≠ DEAD ->
  commands self !! "restart" = Some restart_cmd ->
  exists self' e' k,
    start fuel self e = Some (Return tt, self', e') /\
    state self' = state self /\
    (1 <= k <= 10)%nat /\
    os_calls e' = os_calls e ++ replicate k (Session restart_cmd).
Proof.
  intros Hk Hs Hc. unfold start, vm_start, command.
  rewrite Hk, decide_True by done. simpl. rewrite Hc.
  destruct (execute_remote_command_calls self restart_cmd e)
    as (k & Hk1 & Hcalls).
  destruct (execute_remote_command_state self restart_cmd e) as (S1 & _ & _).
  destruct (execute_remote_command self restart_cmd e) as [[r self'] e'].
  simpl in *. by eexists _, _, k.
Qed.

End VMControllerFacts.

Section VMControllerScenario.
Import ControllerState VMController Platforms.

Lemma started_vm_controller_is_stuck_witness :
  exists self self1 e1,
    init (H := silent) ONOS floodlight = Return self /\
    start (H := silent) 1 self (fresh (H := silent) 0%nat)
    = Some (Return tt, self1, e1) /\
    state self1 = STARTING /\
    exists self' e',
      run 1 [Kill; CheckStatus; Restart; Start; Kill] (self1, e1)
      = Some (self', e') /\
      state self' = STARTING /\
      (klass self ≠ BigSwitch -> self' = self1 /\ e' = e1).
Proof.
  eexists _, _, _. split; [reflexivity|]. split; [reflexivity|].
  eapply (started_vm_controller_is_stuck (H := silent)); reflexivity.
Defined.

Lemma vm_check_status_always_finds_it_alive_witness :
  exists self,
    init (H := chatty) VM floodlight = Return self /\
    (check_status (H := chatty) self (fresh (H := chatty) 0%nat)).1.1
    = Return StatusOK /\
    (state self = DEAD ->
     state (check_status (H := chatty) self (fresh (H := chatty) 0%nat)).1.2
     = ALIVE).
Proof.
  eexists. split; [reflexivity|].
  apply (vm_check_status_always_finds_it_alive (H := chatty));
    [reflexivity|by eexists].
Defined.

Lemma bigswitch_start_restarts_a_running_controller_witness :
  let self := mkVMController (H := silent) BigSwitch floodlight ALIVE None
                {[ "restart" := "service floodlight start; initctl stop bscmon" ]}
                "start/running" in
  exists self' e' k,
    start (H := silent) 0 self (fresh (H := silent) 0%nat)
    = Some (Return tt, self', e') /\
    state self' = state self /\
    (1 <= k <= 10)%nat /\
    os_calls e'
    = os_calls (fresh (H := silent) 0%nat)
      ++ replicate k (Session "service floodlight start; initctl stop bscmon").
Proof.
  intros self.
  apply (bigswitch_start_restarts_a_running_controller (H := silent));
    [reflexivity|done|reflexivity].
Defined.

End VMControllerScenario.

(** ** Switches that fail and recover *)

Section SwitchFacts.
Context `{SwitchPlatform}.
Import FuzzSoftwareSwitch.

Lemma St_bind_unfold {S A B} (m : St S A) (k : A -> St S B) s :
  (m ≫= k) s = match m s with
               | (Return a, s') => k a s'
               | (Throw e, s') => (Throw e, s')
               end.
Proof. reflexivity. Qed.

Lemma close_all_returned conns : forall st st',
  close_all conns st = (Return tt, st') ->
  self st' = self st /\
  calls st' = calls st ++ map CloseConnection conns.
Proof.
  induction conns as [|c conns IH]; intros st st' Hrun; simpl in Hrun.
  - injection Hrun as <-. by rewrite app_nil_r.
  - rewrite St_bind_unfold in Hrun. unfold close at 1 in Hrun.
    destruct (conn_close c (net st)) as [[[]|err] net1]; [|done].
    apply IH in Hrun as [-> ->]. simpl. by rewrite <- app_assoc.
Qed.

(** X18: when [fail] returns on a switch that was up, it has closed each
    of the switch's connections once, in order, and nothing else; the
    switch is failed and holds no connection, while [cid2connection]
    still maps every controller to its old connection.  From then on a
    second [fail] does nothing and every [send] is dropped. *)
Theorem fail_closes_every_connection (st st' : state) :
  failed (self st) = false ->
  fail st = (Return tt, st') ->
  failed (self st') = true /\
  connections (self st') = [] /\
  cid2connection (self st') = cid2connection (self st) /\
  calls st' = calls st ++ map CloseConnection (connections (self st)) /\
  fail st' = (Return tt, st') /\
  forall packet, send packet st' = (Return tt, st').
Proof.
  intros Hup Hrun. unfold fail in Hrun. rewrite St_bind_unfold in Hrun.
  unfold read at 1 in Hrun. rewrite Hup in Hrun.
  rewrite St_bind_unfold in Hrun. unfold update at 1 in Hrun.
  rewrite St_bind_unfold in Hrun. unfold read at 1 in Hrun. simpl in Hrun.
  rewrite St_bind_unfold in Hrun.
  match type of Hrun with context [close_all ?l ?s] =>
    destruct (close_all l s) as [[[]|err] st1] eqn:E end; [|done].
  apply close_all_returned in E as [Hs Hc]. simpl in Hs, Hc.
  unfold update in Hrun. injection Hrun as <-. simpl. rewrite Hs. simpl.
  split; [done|]. split; [done|]. split; [done|]. split; [done|]. split.
  - unfold fail. by rewrite St_bind_unfold.
  - intros packet. by unfold send.
Qed.

Lemma connect_loop_returned f down infos : forall flag st b st',
  connect_loop f down infos flag st = (Return b, st') ->
  b = flag || bool_decide (filter (fun info => config_cid info ∉ down) infos ≠ []) /\
  failed (self st') = failed (self st) /\
  create_connection (self st') = create_connection (self st) /\
  controller_info (self st') = controller_info (self st) /\
  (exists new, calls st' = calls st ++ new /\
     created new = filter (fun info => config_cid info ∉ down) infos /\
     closed_calls new = []) /\
  (forall info, info ∈ infos -> config_cid info ∉ down ->
     is_Some (cid2connection (self st') !! config_cid info)) /\
  (forall cid, is_Some (cid2connection (self st) !! cid) ->
     is_Some (cid2connection (self st') !! cid)) /\
  (forall cid, cid ∈ down ->
     cid2connection (self st') !! cid = cid2connection (self st) !! cid).
Proof.
  induction infos as [|info infos IH]; intros flag st b st' Hrun; simpl in Hrun.
  - injection Hrun as <- <-. rewrite orb_false_r.
    split; [done|]. split; [done|]. split; [done|]. split; [done|].
    split; [exists []; by rewrite app_nil_r|].
    split; [|done]. intros info Hin. by apply elem_of_nil in Hin.
  - rewrite filter_cons. destruct (decide (config_cid info ∉ down)) as [Hup|Hdown].
    + rewrite St_bind_unfold in Hrun. unfold call_factory at 1 in Hrun.
      destruct f as [factory|]; [|done].
      destruct (factory_call factory info (net st)) as [[conn|err] net1]; [|done].
      rewrite St_bind_unfold in Hrun. unfold set_connection at 1 in Hrun.
      simpl in Hrun.
      destruct (pox_set_connection conn _ net1) as [[[[]|err] [conns p]] net2];
        [|done].
      rewrite St_bind_unfold in Hrun. unfold set_error_handler at 1 in Hrun.
      rewrite St_bind_unfold in Hrun. unfold update at 1 in Hrun.
      simpl in Hrun.
      apply IH in Hrun
        as (-> & Hf & Hc & Hi & (new & Hn & Hcr & Hcl) & Hsome & Hgrow & Hsame).
      simpl in *.
      split; [rewrite ?(bool_decide_eq_true_2 (_ :: _ ≠ [])) by done;
              by rewrite ?orb_true_r|].
      split; [done|]. split; [done|]. split; [done|]. split; [|split; [|split]].
      * exists (CreateConnection info :: SetConnection conn :: new).
        rewrite Hn, <- !app_assoc. simpl. by rewrite Hcr, Hcl.
      * intros info' Hin Hup'. apply elem_of_cons in Hin as [->|Hin];
          [|by apply Hsome].
        apply Hgrow. rewrite lookup_insert_eq. by eexists.
      * intros cid Hcid. apply Hgrow.
        destruct (decide (config_cid info = cid)) as [->|Hne].
        -- rewrite lookup_insert_eq. by eexists.
        -- by rewrite lookup_insert_ne.
      * intros cid Hcid. rewrite Hsame by done.
        apply lookup_insert_ne. by intros <-.
    + apply IH in Hrun as (-> & Hf & Hc & Hi & Hnew & Hsome & Hgrow & Hsame).
      split; [done|]. split; [done|]. split; [done|]. split; [done|].
      split; [done|]. split; [|done].
      intros info' Hin Hup'. apply elem_of_cons in Hin as [->|Hin];
        [done|by apply Hsome].
Qed.

Lemma connect_returned f down st b st' :
  connect f down st = (Return b, st') ->
  b = bool_decide (up down (controller_info (self st)) ≠ []) /\
  failed (self st') = failed (self st) /\
  create_connection (self st') = f /\
  controller_info (self st') = controller_info (self st) /\
  (exists new, calls st' = calls st ++ new /\
     created new = up down (controller_info (self st)) /\
     closed_calls new = []) /\
  (forall info, info ∈ up down (controller_info (self st)) ->
     is_Some (cid2connection (self st') !! config_cid info)) /\
  (forall cid, cid ∈ default ∅ down ->
     cid2connection (self st') !! cid = cid2connection (self st) !! cid).
Proof.
  intros Hrun. unfold connect in Hrun. rewrite St_bind_unfold in Hrun.
  unfold update at 1 in Hrun. rewrite St_bind_unfold in Hrun.
  unfold read at 1 in Hrun. simpl in Hrun.
  apply connect_loop_returned in Hrun
    as (-> & Hf & Hc & Hi & Hnew & Hsome & _ & Hsame).
  simpl in *. unfold up.
  split; [done|]. split; [done|]. split; [done|]. split; [done|].
  split; [done|]. split; [|done].
  intros info Hin. apply list_elem_of_filter in Hin as [Hup Hin].
  by apply Hsome.
Qed.

(** X19: when [recover] returns on a failed switch, it has asked the
    stored factory for one connection per controller that is not down,
    in the order of [controller_info], and has closed nothing; it
    answers whether there was such a controller, and the switch is up
    again exactly in that case.  Every controller that is not down then
    has a connection in [cid2connection], and the entries of the
    controllers that are down are the old ones. *)
Theorem recover_reconnects_to_up_controllers
    (down_controller_ids : option (gset string)) (st st' : state)
    (answer : option bool) :
  failed (self st) = true ->
  recover down_controller_ids st = (Return answer, st') ->
  let reached := up down_controller_ids (controller_info (self st)) in
  answer = Some (bool_decide (reached ≠ [])) /\
  failed (self st') = bool_decide (reached = []) /\
  (exists new, calls st' = calls st ++ new /\
     created new = reached /\ closed_calls new = []) /\
  (forall info, info ∈ reached ->
     is_Some (cid2connection (self st') !! config_cid info)) /\
  (forall cid, cid ∈ default ∅ down_controller_ids ->
     cid2connection (self st') !! cid = cid2connection (self st) !! cid).
Proof.
  intros Hfailed Hrun reached. unfold recover in Hrun.
  rewrite St_bind_unfold in Hrun. unfold read at 1 in Hrun.
  rewrite Hfailed in Hrun. simpl in Hrun.
  rewrite St_bind_unfold in Hrun. unfold read at 1 in Hrun.
  rewrite St_bind_unfold in Hrun.
  destruct (connect (create_connection (self st)) down_controller_ids st)
    as [[b|err] st1] eqn:E; [|done].
  apply connect_returned in E as (-> & Hf & Hc & Hi & Hnew & Hsome & Hsame).
  fold reached in Hrun, Hnew, Hsome.
  destruct (decide (reached = [])) as [Hnil|Hcons].
  - rewrite bool_decide_eq_false_2 in Hrun by (by intros ?).
    injection Hrun as <- <-.
    rewrite bool_decide_eq_false_2 by (by intros ?).
    rewrite bool_decide_eq_true_2 by done.
    split; [done|]. split; [congruence|]. done.
  - rewrite bool_decide_eq_true_2 in Hrun by done.
    rewrite St_bind_unfold in Hrun. unfold update in Hrun.
    injection Hrun as <- <-. simpl.
    rewrite bool_decide_eq_true_2 by done.
    rewrite bool_decide_eq_false_2 by done.
    done.
Qed.

Lemma connect_loop_without_factory down infos flag st :
  connect_loop None down infos flag st
  = if bool_decide (filter (fun info => config_cid info ∉ down) infos = [])
    then (Return flag, st) else (Throw (Builtin TypeError), st).
Proof.
  induction infos as [|info infos IH]; [done|].
  simpl. rewrite filter_cons.
  destruct (decide (config_cid info ∉ down)); [done|]. exact IH.
Qed.

(** X20: [recover] on a failed switch that was never connected only
    warns and goes on with the factory [None]: if no controller is up
    it answers False and the switch stays failed; otherwise the call of
    the factory raises a TypeError.  Either way no collaborator has been
    called and the switch is as it was. *)
Theorem recover_without_factory
    (down_controller_ids : option (gset string)) (st : state) :
  failed (self st) = true ->
  create_connection (self st) = None ->
  (recover down_controller_ids st).1
  = (if bool_decide (up down_controller_ids (controller_info (self st)) = [])
     then Return (Some false) else Throw (Builtin TypeError)) /\
  (recover down_controller_ids st).2 = st.
Proof.
  intros Hfailed Hnone.
  assert (recover down_controller_ids st
          = (if bool_decide (up down_controller_ids (controller_info (self st)) = [])
             then Return (Some false) else Throw (Builtin TypeError), st)) as ->;
    [|done].
  unfold recover.
  rewrite St_bind_unfold. unfold read at 1. rewrite Hfailed. simpl.
  rewrite St_bind_unfold. unfold read at 1. rewrite Hnone.
  rewrite St_bind_unfold. unfold connect.
  rewrite St_bind_unfold. unfold update at 1.
  rewrite St_bind_unfold. unfold read at 1. simpl.
  assert (with_create_connection None (self st) = self st) as ->
    by (destruct st as [[] ? ?]; simpl in *; by subst).
  assert (mkState (self st) (net st) (calls st) = st) as -> by (by destruct st).
  rewrite connect_loop_without_factory. unfold up.
  by destruct (bool_decide _).
Qed.

End SwitchFacts.

Section SwitchScenario.
Import FuzzSoftwareSwitch Wired.

Lemma fail_closes_every_connection_witness :
  exists st',
    fail (H := platform) connected = (Return tt, st') /\
    failed (self st') = true /\
    connections (self st') = [] /\
    cid2connection (self st') = cid2connection (self connected) /\
    calls st' = calls connected
                ++ map CloseConnection (connections (self connected)) /\
    fail st' = (Return tt, st') /\
    forall packet, send packet st' = (Return tt, st').
Proof.
  eexists. split; [vm_compute; reflexivity|].
  apply (fail_closes_every_connection (H := platform) connected);
    vm_compute; reflexivity.
Defined.

Lemma recover_reconnects_to_up_controllers_witness :
  let st := (fail (H := platform) connected).2 in
  let down := Some ({[ "c2"%string ]} : gset string) in
  exists answer st',
    recover down st = (Return answer, st') /\
    answer = Some (bool_decide (up down (controller_info (self st)) ≠ [])) /\
    failed (self st')
    = bool_decide (up down (controller_info (self st)) = []) /\
    (exists new, calls st' = calls st ++ new /\
       created new = up down (controller_info (self st)) /\
       closed_calls new = []) /\
    (forall info, info ∈ up down (controller_info (self st)) ->
       is_Some (cid2connection (self st') !! config_cid info)) /\
    (forall cid, cid ∈ default ∅ down ->
       cid2connection (self st') !! cid = cid2connection (self st) !! cid).
Proof.
  intros st down. eexists _, _. split; [vm_compute; reflexivity|].
  apply (recover_reconnects_to_up_controllers (H := platform) down st);
    vm_compute; reflexivity.
Defined.

Lemma recover_without_factory_witness :
  let st := mkState (H := platform)
              (with_failed true
                 (add_controller_info (controller "c1")
                    (init (H := platform) [] tt)))
              (0%nat, []) [] in
  (recover None st).1 = Throw (Builtin TypeError) /\ (recover None st).2 = st.
Proof.
  intros st.
  apply (recover_without_factory (H := platform) None st); reflexivity.
Defined.

End SwitchScenario.

(** ** Host interfaces *)

Section HostInterfaceFacts.
Context `{Addresses}.
Import HostInterface.

Lemma hash_sum (l : list IPAddr) : forall z,
  foldl (fun hash_code ip => hash_code + int_hash (ip_toUnsignedN ip)) z l
  = z + foldr Z.add 0 (map int_hash (map ip_toUnsignedN l)).
Proof.
  induction l as [|ip l IH]; intros z; simpl; [lia|]. rewrite IH. lia.
Qed.

Lemma sum_permutation (l1 l2 : list Z) :
  l1 ≡ₚ l2 -> foldr Z.add 0 l1 = foldr Z.add 0 l2.
Proof. induction 1; simpl; lia. Qed.

Lemma eq_unfold (self other : t) :
  eq self other = true <->
  eth_toInt (hw_addr self) = eth_toInt (hw_addr other) /\
  (forall n, n ∈ map ip_toUnsignedN (ips self) ->
             n ∈ map ip_toUnsignedN (ips other)) /\
  length (ips other) = length (ips self) /\
  name self = name other.
Proof.
  unfold eq.
  destruct (eth_toInt (hw_addr self) =? eth_toInt (hw_addr other)) eqn:Ehw;
    simpl; [apply Z.eqb_eq in Ehw|apply Z.eqb_neq in Ehw; by split; [|tauto]].
  destruct (forallb _ (ips self)) eqn:Eips; simpl.
  - destruct (length (ips other) =? length (ips self))%nat eqn:El; simpl;
      [apply Nat.eqb_eq in El|apply Nat.eqb_neq in El; by split; [|tauto]].
    destruct (String.eqb (name self) (name other)) eqn:En; simpl;
      [apply String.eqb_eq in En|apply String.eqb_neq in En; by split; [|tauto]].
    split; [|done]. intros _. split; [done|]. split; [|done].
    intros n Hn. apply list_elem_of_fmap in Hn as (ip & -> & Hip).
    rewrite forallb_forall in Eips. apply list_elem_of_In in Hip.
    by apply Eips, bool_decide_eq_true in Hip.
  - split; [done|]. intros (_ & Hsub & _). exfalso.
    assert (forallb
              (fun ip => bool_decide
                 (ip_toUnsignedN ip ∈ map ip_toUnsignedN (ips other)))
              (ips self) = true) as Htrue; [|congruence].
    apply forallb_forall. intros ip Hip. apply bool_decide_eq_true.
    apply Hsub, list_elem_of_fmap. exists ip. split; [done|].
    by apply list_elem_of_In.
Qed.

(** X21: when the addresses of an interface are pairwise different,
    [__eq__] is symmetric on it and agrees with [__hash__]: an interface
    it calls equal calls it equal in turn and has the same hash. *)
Theorem host_interface_eq_symmetric (self other : t) :
  NoDup (map ip_toUnsignedN (ips self)) ->
  eq self other = true ->
  eq other self = true /\ hash other = hash self.
Proof.
  intros Hnodup Heq. apply eq_unfold in Heq as (Hhw & Hsub & Hlen & Hname).
  assert (map ip_toUnsignedN (ips self) ≡ₚ map ip_toUnsignedN (ips other))
    as Hperm.
  { apply submseteq_length_Permutation.
    - by apply NoDup_submseteq.
    - rewrite !length_map. lia. }
  split.
  - apply eq_unfold. split; [done|]. split; [|done].
    intros n Hn. by rewrite Hperm.
  - unfold hash. rewrite !hash_sum, Hhw, Hname.
    rewrite (sum_permutation _ _ (fmap_Permutation int_hash _ _ Hperm)). done.
Qed.

Lemma parse_ips_returned (l : list IPAddr) : forall acc,
  Forall (fun ip => exists ip', IPAddr_of_str (ip_toStr ip) = Return ip' /\
                                ip_toUnsignedN ip' = ip_toUnsignedN ip) l ->
  exists l', parse_ips (map ip_toStr l) acc = Return (acc ++ l') /\
             map ip_toUnsignedN l' = map ip_toUnsignedN l.
Proof.
  induction l as [|ip l IH]; intros acc Hall; simpl.
  - exists []. by rewrite app_nil_r.
  - apply Forall_cons in Hall as [(ip' & Hp & Hu) Hall]. rewrite Hp.
    destruct (IH (acc ++ [ip']) Hall) as (l' & -> & Hl').
    exists (ip' :: l'). rewrite <- app_assoc. simpl. by rewrite Hu, Hl'.
Qed.

(** X22: if every address of an interface survives printing and reading
    back (the constructor from its text returns an address with the same
    number), then [from_json] of [to_json] returns an interface that is
    equal to the original, in both directions, and has the same hash. *)
Theorem host_interface_json_round_trip (self : t) :
  Forall (fun ip => exists ip', IPAddr_of_str (ip_toStr ip) = Return ip' /\
                                ip_toUnsignedN ip' = ip_toUnsignedN ip)
         (ips self) ->
  (exists hw, EthAddr_of_str (eth_toStr (hw_addr self)) = Return hw /\
              eth_toInt hw = eth_toInt (hw_addr self)) ->
  exists copy, from_json (to_json self) = Return copy /\
    eq self copy = true /\ eq copy self = true /\ hash copy = hash self /\
    name copy = name self.
Proof.
  intros Hips (hw & Hhw & Hint). unfold from_json, to_json. simpl.
  destruct (parse_ips_returned (ips self) [] Hips) as (l' & -> & Hl').
  rewrite Hhw. simpl. eexists. split; [reflexivity|].
  split; [|split; [|split; [|done]]].
  - apply eq_unfold. simpl. rewrite Hl', Hint.
    split; [done|]. split; [done|]. split; [|done].
    rewrite <- (length_map ip_toUnsignedN l'), Hl'. by rewrite length_map.
  - apply eq_unfold. simpl. rewrite Hl', Hint.
    split; [done|]. split; [done|]. split; [|done].
    rewrite <- (length_map ip_toUnsignedN l'), Hl'. by rewrite length_map.
  - unfold hash. simpl. by rewrite !hash_sum, Hl', Hint.
Qed.

End HostInterfaceFacts.

Section HostInterfaceScenario.
Import HostInterface.

(** With a repeated address [__eq__] is one-sided, and the two
    interfaces it calls equal hash differently. *)
Lemma host_interface_eq_one_sided :
  let a := mkHostInterface (H := tally) 7 [1; 1] "eth0" in
  let b := mkHostInterface (H := tally) 7 [1; 2] "eth0" in
  eq a b = true /\ eq b a = false /\ hash a ≠ hash b.
Proof. intros a b. by vm_compute. Qed.

Lemma host_interface_eq_symmetric_witness :
  let a := mkHostInterface (H := tally) 7 [1; 2] "eth0" in
  let b := mkHostInterface (H := tally) 7 [2; 1] "eth0" in
  eq b a = true /\ hash b = hash a.
Proof.
  intros a b. apply (host_interface_eq_symmetric (H := tally) a b).
  - repeat constructor; set_solver.
  - vm_compute. reflexivity.
Defined.

Lemma host_interface_json_round_trip_witness :
  let a := mkHostInterface (H := tally) 7 [1; 2] "eth0" in
  exists copy, from_json (to_json a) = Return copy /\
    eq a copy = true /\ eq copy a = true /\ hash copy = hash a /\
    name copy = name a.
Proof.
  intros a. apply (host_interface_json_round_trip (H := tally) a).
  - repeat constructor; by eexists.
  - by eexists.
Defined.

End HostInterfaceScenario.

(** ** Links *)

Section LinkFacts.
Context `{LinkPlatform}.
Import Link.


(** X24: [reversed_link] always returns; reversing twice gives the link
    back, a link and its reverse have the same hash, and they are equal
    only if the link joins a switch's port to itself. *)
Theorem reversed_link_involution (self : t) :
  exists back, reversed_link self = Return back /\
    reversed_link back = Return self /\
    hash back = hash self /\
    ne back self = negb (eq back self) /\
    (eq back self = true <->
     start_software_switch self = end_software_switch self /\
     start_port self = end_port self).
Proof.
  destruct self as [s1 p1 s2 p2]. eexists. split; [reflexivity|].
  split; [reflexivity|]. split; [unfold hash; simpl; lia|].
  split; [done|]. unfold eq. simpl.
  rewrite !andb_true_iff, !bool_decide_eq_true. naive_solver.
Qed.

End LinkFacts.

(** ** Connections without a controller *)

Section ConnectionlessFacts.
Context {Message Handler : Type}.
Import ConnectionlessOFConnection.
Implicit Types (self : @t Message Handler) (events : list (@event Message Handler)).

Lemma connectionless_run events : forall self,
  handled (run events self)
  = handled self ++ delivered (on_message_handler self) events /\
  cid (run events self) = cid self /\
  dpid (run events self) = dpid self /\
  ID (run events self) = ID self.
Proof.
  induction events as [|e events IH]; intros self.
  - simpl. by rewrite app_nil_r.
  - unfold run in *. simpl foldl. destruct e as [h|m|m|]; simpl.
    + destruct (IH (set_message_handler self h)) as (-> & -> & -> & ->). done.
    + apply IH.
    + unfold read. destruct (on_message_handler self) as [h|] eqn:E; simpl.
      * match goal with |- context [foldl step ?s events] =>
          destruct (IH s) as (-> & -> & -> & ->) end.
        simpl. by rewrite <- app_assoc.
      * destruct (IH self) as (-> & -> & -> & ->). by rewrite E.
    + apply IH.
Qed.

(** X25: a connection without a controller hands every message it reads
    straight to the handler set last, in the order of the reads, and
    nothing else ever reaches a handler: what the switch sends is
    dropped.  A read before any [set_message_handler] raises an
    AttributeError (the constructor sets another attribute), and the
    connection never reports itself closed. *)
Theorem connectionless_reads_go_to_the_last_handler
    (cid : string) (dpid OFConnection_ID : Z) events :
  let fresh := (init (Handler := Handler) (Message := Message)
                     cid dpid OFConnection_ID).1 in
  handled (run events fresh) = delivered None events /\
  (forall m, (read fresh m).1 = Raise AttributeError) /\
  (forall m, send (run events fresh) m = run events fresh) /\
  closed (run events fresh) = false /\
  get_controller_id (run events fresh) = cid /\
  ID (run events fresh) = OFConnection_ID + 1.
Proof.
  intros fresh.
  destruct (connectionless_run events fresh) as (Hh & Hc & _ & Hid).
  split; [exact Hh|]. split; [done|]. split; [done|]. split; [done|].
  split; [exact Hc|exact Hid].
Qed.

End ConnectionlessFacts.
